(** * CNPJ data pipeline: the ingestion core

    A shallow embedding of [src/processor.py] (class [Processor]) and of
    [src/database/sqlite.py] (class [SQLiteAdapter]).

    - Text is a byte string ([string]); a file is its bytes.
    - A polars [DataFrame] is a list of column names and a list of rows of
      nullable cells; a cell holds a string or a [Float64], a binary64
      number in the sense of [SpecFloat].
    - Python exceptions are values of [exn]; a computation that can raise
      returns an [outcome]; code that also touches the file system or the
      database runs in the state monad [M] over [World].
    - Logging, memory diagnostics and [gc.collect()] have no effect on any
      value computed and are left out. *)

From Stdlib Require Import ZArith QArith Ascii SpecFloat.
From stdpp Require Import base option list strings gmap pretty.

Local Open Scope Z_scope.
Local Open Scope nat_scope.

(** ** Exceptions and outcomes *)

(** The exception classes the code can meet.  All of them derive from
    Python's [Exception]; [ImportError] is singled out by the handlers of
    the reference enhancement. *)
Inductive exn : Type :=
  | ImportError
  | ValueError (msg : string)
  | OSError (msg : string)
  | PolarsError (msg : string)
  | SourceError (msg : string).

Inductive outcome (A : Type) : Type :=
  | Ok (a : A)
  | Raise (e : exn).
Arguments Ok {A} a.
Arguments Raise {A} e.

#[global] Instance outcome_ret : MRet outcome := fun _ a => Ok a.
#[global] Instance outcome_bind : MBind outcome := fun _ _ k x =>
  match x with
  | Ok a => k a
  | Raise e => Raise e
  end.

(** [for x in l: ...] where the body may raise. *)
Fixpoint omap {A B} (f : A -> outcome B) (l : list A) : outcome (list B) :=
  match l with
  | [] => Ok []
  | x :: l' =>
      match f x with
      | Raise e => Raise e
      | Ok y =>
          match omap f l' with
          | Raise e => Raise e
          | Ok ys => Ok (y :: ys)
          end
      end
  end.

(** ** Byte strings *)

(** [str.upper()] on ASCII letters; every other byte is kept. *)
Definition ascii_upper (c : Ascii.ascii) : Ascii.ascii :=
  let n := Ascii.N_of_ascii c in
  if ((97 <=? n) && (n <=? 122))%N then Ascii.ascii_of_N (n - 32) else c.

Fixpoint upper (s : string) : string :=
  match s with
  | EmptyString => EmptyString
  | String c s' => String (ascii_upper c) (upper s')
  end.

(** The bytes of a string that are not below 128. *)
Fixpoint count_high (s : string) : nat :=
  match s with
  | EmptyString => 0
  | String c s' =>
      (if (Ascii.N_of_ascii c <? 128)%N then 0 else 1) + count_high s'
  end.

(** The occurrences of a byte in a string. *)
Fixpoint count_char (c : Ascii.ascii) (s : string) : nat :=
  match s with
  | EmptyString => 0
  | String c' s' => (if decide (c' = c) then 1 else 0) + count_char c s'
  end.

Fixpoint str_drop (n : nat) (s : string) : string :=
  match n, s with
  | S n', String _ s' => str_drop n' s'
  | _, _ => s
  end.

(** [pat in s] *)
Fixpoint str_contains (pat s : string) : bool :=
  String.prefix pat s ||
  match s with
  | EmptyString => false
  | String _ s' => str_contains pat s'
  end.

(** polars [str.replace(pat, rep)] for a pattern without regex
    metacharacters: the FIRST match only is replaced. *)
Fixpoint str_replace (pat rep s : string) : string :=
  if String.prefix pat s then rep +:+ str_drop (String.length pat) s
  else match s with
       | EmptyString => EmptyString
       | String c s' => String c (str_replace pat rep s')
       end.

(** White space in the sense of polars [str.strip_chars()], which is
    Rust's [str::trim]: the characters of the Unicode property
    White_Space.  Text is UTF-8, so that a white-space character takes
    one byte (U+0009 to U+000D, U+0020), two (U+0085 and the no-break
    space U+00A0) or three (U+1680, U+2000 to U+200A, U+2028, U+2029,
    U+202F, U+205F, U+3000). *)
Definition byte (c : Ascii.ascii) : N := Ascii.N_of_ascii c.

Definition is_white2 (c0 c1 : Ascii.ascii) : bool :=
  ((byte c0 =? 194) && ((byte c1 =? 133) || (byte c1 =? 160)))%N.

Definition is_white3 (c0 c1 c2 : Ascii.ascii) : bool :=
  (((byte c0 =? 225) && (byte c1 =? 154) && (byte c2 =? 128))
   || ((byte c0 =? 226) && (byte c1 =? 128)
       && (((128 <=? byte c2) && (byte c2 <=? 138))
           || (byte c2 =? 168) || (byte c2 =? 169) || (byte c2 =? 175)))
   || ((byte c0 =? 226) && (byte c1 =? 129) && (byte c2 =? 159))
   || ((byte c0 =? 227) && (byte c1 =? 128) && (byte c2 =? 128)))%N.

(** The white space at the head of a text removed. *)
Fixpoint lstrip (s : string) : string :=
  match s with
  | String c0 s1 =>
      if Ascii.is_space c0 then lstrip s1
      else match s1 with
           | String c1 s2 =>
               if is_white2 c0 c1 then lstrip s2
               else match s2 with
                    | String c2 s3 =>
                        if is_white3 c0 c1 c2 then lstrip s3 else s
                    | EmptyString => s
                    end
           | EmptyString => s
           end
  | EmptyString => EmptyString
  end.

(** The same on the reversed text, for the white space at the end: the
    bytes of a character come last byte first. *)
Fixpoint lstrip_rev (s : string) : string :=
  match s with
  | String c0 s1 =>
      if Ascii.is_space c0 then lstrip_rev s1
      else match s1 with
           | String c1 s2 =>
               if is_white2 c1 c0 then lstrip_rev s2
               else match s2 with
                    | String c2 s3 =>
                        if is_white3 c2 c1 c0 then lstrip_rev s3 else s
                    | EmptyString => s
                    end
           | EmptyString => s
           end
  | EmptyString => EmptyString
  end.

(** polars [str.strip_chars()]: white space removed at both ends. *)
Definition strip_chars (s : string) : string :=
  String.rev (lstrip_rev (String.rev (lstrip s))).

Fixpoint zeros (n : nat) : string :=
  match n with
  | 0 => EmptyString
  | S n' => String "0"%char (zeros n')
  end.

(** polars [str.zfill(width)]: zeros are added on the left up to [width]
    bytes, after a leading sign when there is one; a string that is long
    enough is returned as it is. *)
Definition zfill (width : nat) (s : string) : string :=
  let pad := zeros (width - String.length s) in
  match s with
  | String c s' =>
      if decide (c = "-"%char \/ c = "+"%char) then String c (pad +:+ s')
      else pad +:+ s
  | EmptyString => pad
  end.

(** [str.split(sep)] on one separator byte. *)
Fixpoint split_on (sep : Ascii.ascii) (s : string) : list string :=
  match s with
  | EmptyString => [EmptyString]
  | String c s' =>
      if decide (c = sep) then EmptyString :: split_on sep s'
      else match split_on sep s' with
           | w :: ws => String c w :: ws
           | [] => [String c EmptyString]
           end
  end.

(** ** Values, cells and frames *)

(** A [Float64]: a binary64 number, an infinity or NaN. *)
Definition float64 : Type := spec_float.

#[global] Instance float64_eq_dec : EqDecision float64.
Proof. unfold float64. solve_decision. Defined.

Inductive value : Type :=
  | VStr (s : string)
  | VFloat (x : float64).

#[global] Instance value_eq_dec : EqDecision value.
Proof. solve_decision. Defined.

(** A cell is nullable: [None] is polars' null. *)
Definition cell : Type := option value.

Record DataFrame : Type := mkDataFrame {
  columns : list string;
  rows : list (list cell);
}.

(** [df.height], [len(df)] *)
Definition height (df : DataFrame) : nat := length (rows df).

(** Every row has one cell per column. *)
Definition rectangular (df : DataFrame) : Prop :=
  Forall (fun r => length r = length (columns df)) (rows df).

(** Position of a column name. *)
Fixpoint index_of (name : string) (cols : list string) : option nat :=
  match cols with
  | [] => None
  | c :: cols' =>
      if decide (c = name) then Some 0
      else S <$> index_of name cols'
  end.

(** [name in df.columns] *)
Definition has_column (name : string) (df : DataFrame) : bool :=
  bool_decide (name ∈ columns df).

(** One cell of a row rewritten by an expression that may raise. *)
Definition update_cell (i : nat) (f : cell -> outcome cell) (r : list cell)
  : outcome (list cell) :=
  match r !! i with
  | None => Ok r
  | Some c =>
      match f c with
      | Ok c' => Ok (<[i := c']> r)
      | Raise e => Raise e
      end
  end.

(** [df.with_columns(expr.alias(name))] for an expression [expr] over the
    column [name] itself: the column is replaced, cell by cell. *)
Definition with_columns (name : string) (f : cell -> outcome cell)
    (df : DataFrame) : outcome DataFrame :=
  match index_of name (columns df) with
  | None => Raise (PolarsError "ColumnNotFoundError")
  | Some i =>
      match omap (update_cell i f) (rows df) with
      | Ok rs => Ok (mkDataFrame (columns df) rs)
      | Raise e => Raise e
      end
  end.

(** [df[name].to_list()] *)
Definition column_to_list (name : string) (df : DataFrame) : outcome (list cell) :=
  match index_of name (columns df) with
  | None => Raise (PolarsError "ColumnNotFoundError")
  | Some i => Ok ((fun r => default None (r !! i)) <$> rows df)
  end.

(** [pl.concat([a, b])]: vertical concatenation, the schemas must agree. *)
Definition concat (a b : DataFrame) : outcome DataFrame :=
  if decide (columns a = columns b)
  then Ok (mkDataFrame (columns a) (rows a ++ rows b))
  else Raise (PolarsError "ShapeError").

(** ** Reading a normalized file

    [pl.read_csv(path, separator=";", encoding="utf8", has_header=False,
    null_values=[""], ignore_errors=True, infer_schema_length=0,
    skip_rows=..., n_rows=...)] on LF-terminated text without quote
    characters: every line is a row, every field a string, the empty
    field is null, the first row read fixes the number of columns, a
    shorter row is filled with nulls, and the columns are named
    [column_1], [column_2], ...

    [read_csv] is the frame of the rows read.  The call itself,
    [read_csv_file] below, raises where polars does: [NoDataError] when
    there is no row to read (an empty file, a read that starts at or
    after the end of the file) and [ComputeError] when a row has more
    fields than the first one read.  What polars makes of quoted
    fields and of empty lines is not modelled: the statements that say
    what a file holds are about files without them ([plain_csv]). *)

Definition LF : Ascii.ascii := "010"%char.

Definition csv_lines (content : string) : list string :=
  let ls := split_on LF content in
  match last ls with
  | Some EmptyString => take (length ls - 1) ls
  | _ => ls
  end.

Definition parse_field (s : string) : cell :=
  if decide (s = EmptyString) then None else Some (VStr s).

Definition parse_line (l : string) : list cell :=
  parse_field <$> split_on ";"%char l.

(** A row cut or filled with nulls to the width of the frame. *)
Definition fit (w : nat) (r : list cell) : list cell :=
  take w (r ++ replicate (w - length r) None).

Definition default_columns (w : nat) : list string :=
  (fun i => "column_" +:+ pretty (S i)) <$> seq 0 w.

Definition frame_of_rows (rs : list (list cell)) : DataFrame :=
  let w := match rs with
           | [] => 0
           | r :: _ => length r
           end in
  mkDataFrame (default_columns w) (fit w <$> rs).

Definition read_csv (content : string) (skip_rows : nat) (n_rows : option nat)
  : DataFrame :=
  let ls := drop skip_rows (csv_lines content) in
  let rs := parse_line <$> ls in
  frame_of_rows (match n_rows with
                 | Some n => take n rs
                 | None => rs
                 end).

(** The rows of a read as they stand in the file, before they are
    fitted to the width of the frame. *)
Definition rows_read (content : string) (skip_rows : nat)
    (n_rows : option nat) : list (list cell) :=
  let rs := parse_line <$> drop skip_rows (csv_lines content) in
  match n_rows with
  | Some n => take n rs
  | None => rs
  end.

(** A row has more fields than the first one. *)
Definition has_longer_row (rs : list (list cell)) : bool :=
  match rs with
  | [] => false
  | r0 :: _ => bool_decide (Exists (fun r => length r0 < length r) rs)
  end.

(** ** The schema catalog (module-level dictionaries)

    A dictionary is the list of its items in insertion order. *)

Fixpoint dict_get {V} (d : list (string * V)) (k : string) : option V :=
  match d with
  | [] => None
  | (k', v) :: d' => if decide (k' = k) then Some v else dict_get d' k
  end.

Definition FILE_MAPPINGS : list (string * string) :=
  [ ("CNAECSV", "cnaes");
    ("MOTICSV", "motivos");
    ("MUNICCSV", "municipios");
    ("NATJUCSV", "naturezas_juridicas");
    ("PAISCSV", "paises");
    ("QUALSCSV", "qualificacoes_socios");
    ("EMPRECSV", "empresas");
    ("ESTABELE", "estabelecimentos");
    ("SOCIOCSV", "socios");
    ("SIMPLESCSV", "dados_simples") ].

(** The inner dictionaries have the keys 0, 1, 2, ... in order: a list. *)
Definition COLUMN_MAPPINGS : list (string * list string) :=
  [ ("CNAECSV", ["codigo"; "descricao"]);
    ("MOTICSV", ["codigo"; "descricao"]);
    ("MUNICCSV", ["codigo"; "descricao"]);
    ("NATJUCSV", ["codigo"; "descricao"]);
    ("PAISCSV", ["codigo"; "descricao"]);
    ("QUALSCSV", ["codigo"; "descricao"]);
    ("EMPRECSV",
      [ "cnpj_basico"; "razao_social"; "natureza_juridica";
        "qualificacao_responsavel"; "capital_social"; "porte";
        "ente_federativo_responsavel" ]);
    ("ESTABELE",
      [ "cnpj_basico"; "cnpj_ordem"; "cnpj_dv";
        "identificador_matriz_filial"; "nome_fantasia";
        "situacao_cadastral"; "data_situacao_cadastral";
        "motivo_situacao_cadastral"; "nome_cidade_exterior"; "pais";
        "data_inicio_atividade"; "cnae_fiscal_principal";
        "cnae_fiscal_secundaria"; "tipo_logradouro"; "logradouro";
        "numero"; "complemento"; "bairro"; "cep"; "uf"; "municipio";
        "ddd_1"; "telefone_1"; "ddd_2"; "telefone_2"; "ddd_fax"; "fax";
        "correio_eletronico"; "situacao_especial";
        "data_situacao_especial" ]);
    ("SOCIOCSV",
      [ "cnpj_basico"; "identificador_de_socio"; "nome_socio";
        "cnpj_cpf_do_socio"; "qualificacao_do_socio";
        "data_entrada_sociedade"; "pais"; "representante_legal";
        "nome_do_representante"; "qualificacao_do_representante_legal";
        "faixa_etaria" ]);
    ("SIMPLESCSV",
      [ "cnpj_basico"; "opcao_pelo_simples"; "data_opcao_pelo_simples";
        "data_exclusao_do_simples"; "opcao_pelo_mei";
        "data_opcao_pelo_mei"; "data_exclusao_do_mei" ]) ].

Definition NUMERIC_COLUMNS : list (string * list string) :=
  [ ("EMPRECSV", ["capital_social"]);
    ("ESTABELE", []);
    ("SIMPLESCSV", []);
    ("SOCIOCSV", []) ].

Definition DATE_COLUMNS : list (string * list string) :=
  [ ("EMPRECSV", []);
    ("ESTABELE",
      [ "data_situacao_cadastral"; "data_inicio_atividade";
        "data_situacao_especial" ]);
    ("SIMPLESCSV",
      [ "data_opcao_pelo_simples"; "data_exclusao_do_simples";
        "data_opcao_pelo_mei"; "data_exclusao_do_mei" ]);
    ("SOCIOCSV", ["data_entrada_sociedade"]) ].

Inductive ref_source : Type := Serpro | Hardcoded.

Record enhancement : Type := mkEnhancement {
  source : ref_source;
  ref_type : string;
  code_column : string;
}.

Definition REFERENCE_ENHANCEMENTS : list (string * enhancement) :=
  [ ("MOTICSV", mkEnhancement Serpro "motivos" "codigo");
    ("PAISCSV", mkEnhancement Hardcoded "paises" "codigo") ].

(** ** Column expressions *)

Fixpoint take_digits (s : string) (acc : Z) (n : nat) : Z * nat * string :=
  match s with
  | String c s' =>
      match Ascii.is_nat c with
      | Some d => take_digits s' (10 * acc + Z.of_nat d)%Z (S n)
      | None => (acc, n, s)
      end
  | EmptyString => (acc, n, s)
  end.

Definition split_sign (s : string) : bool * string :=
  match s with
  | String c s' =>
      if decide (c = "-"%char) then (true, s')
      else if decide (c = "+"%char) then (false, s')
      else (false, s)
  | EmptyString => (false, s)
  end.

Definition parse_exponent (s : string) : option Z :=
  let (neg, s1) := split_sign s in
  match take_digits s1 0%Z 0 with
  | (e, S _, EmptyString) => Some (if neg then (- e)%Z else e)
  | _ => None
  end.

(** The binary64 number nearest to [m * 10 ^ k], for [m] not negative,
    with the sign [neg]: round to nearest, ties to even, an infinity
    beyond the largest number, zero or a subnormal number below the
    smallest normal one. *)
Definition decimal_to_float64 (neg : bool) (m k : Z) : float64 :=
  match m with
  | Zpos p =>
      if (0 <=? k)%Z
      then binary_normalize 53 1024
             (if neg then (- (m * 10 ^ k))%Z else (m * 10 ^ k)%Z) 0 neg
      else SFdiv 53 1024 (S754_finite neg p 0)
             (S754_finite false (Z.to_pos (10 ^ (- k))) 0)
  | _ => S754_zero neg
  end.

(** The names of the values that are no numbers, after the sign and
    whatever the case of the letters. *)
Definition special_float (neg : bool) (s : string) : option float64 :=
  let u := upper s in
  if decide (u = "INF" \/ u = "INFINITY") then Some (S754_infinity neg)
  else if decide (u = "NAN") then Some S754_nan
  else None.

(** The text-to-number parser behind polars' cast of a string column to
    [Float64]: an optional sign, then [inf], [infinity] or [nan], or
    else decimal digits with an optional point and an optional
    exponent, of which the correctly rounded binary64 number is
    taken. *)
Definition parse_float (s : string) : option float64 :=
  let (neg, s1) := split_sign s in
  match special_float neg s1 with
  | Some x => Some x
  | None =>
      let '(ip, ni, s2) := take_digits s1 0%Z 0 in
      let '(m, nf, s3) :=
        match s2 with
        | String c s2' =>
            if decide (c = "."%char) then take_digits s2' ip 0
            else (ip, 0, s2)
        | EmptyString => (ip, 0, s2)
        end in
      if decide (ni + nf = 0) then None
      else
        match s3 with
        | EmptyString => Some (decimal_to_float64 neg m (- Z.of_nat nf))
        | String c s4 =>
            if decide (c = "e"%char \/ c = "E"%char)
            then e ← parse_exponent s4;
                 Some (decimal_to_float64 neg m (e - Z.of_nat nf))
            else None
        end
  end.

(** [expr.str.<op>(...)]: null stays null, a non-string column is a
    schema error. *)
Definition str_expr (f : string -> string) (c : cell) : outcome cell :=
  match c with
  | None => Ok None
  | Some (VStr s) => Ok (Some (VStr (f s)))
  | Some (VFloat _) => Raise (PolarsError "SchemaError")
  end.

(** [expr.cast(pl.Float64, strict=strict)]: with [strict=False] a string
    that is not a number becomes null, with [strict=True] it raises. *)
Definition cast_float64 (strict : bool) (c : cell) : outcome cell :=
  match c with
  | None => Ok None
  | Some (VFloat x) => Ok (Some (VFloat x))
  | Some (VStr s) =>
      match parse_float s with
      | Some x => Ok (Some (VFloat x))
      | None =>
          if strict then Raise (PolarsError "InvalidOperationError")
          else Ok None
      end
  end.

(** [pl.col(col).str.replace(",", ".").cast(pl.Float64, strict=False)] *)
Definition numeric_expr (c : cell) : outcome cell :=
  c' ← str_expr (str_replace "," ".") c; cast_float64 false c'.

(** [pl.when(pl.col(col) == "0").then(None).otherwise(pl.col(col))]: a
    null compares to null, which [when] takes as false. *)
Definition date_expr (c : cell) : outcome cell :=
  match c with
  | None => Ok None
  | Some (VStr s) => if decide (s = "0") then Ok None else Ok c
  | Some (VFloat _) => Raise (PolarsError "ComputeError")
  end.

(** [pl.when(pl.col("pais").is_not_null() & (pl.col("pais") != ""))
      .then(pl.col("pais").cast(pl.Utf8).str.strip_chars().str.zfill(3))
      .otherwise(pl.col("pais"))] *)
Definition country_expr (c : cell) : outcome cell :=
  match c with
  | None => Ok None
  | Some (VStr s) =>
      if decide (s ≠ EmptyString)
      then Ok (Some (VStr (zfill 3 (strip_chars s))))
      else Ok c
  | Some (VFloat _) => Raise (PolarsError "ComputeError")
  end.

(** ** The record transformer *)

(** [df.rename(mapping)]: a column found in the mapping takes its new
    name. *)
Definition rename (df : DataFrame) (mapping : list (string * string))
  : DataFrame :=
  mkDataFrame ((fun c => default c (dict_get mapping c)) <$> columns df)
              (rows df).

(** [[col_mapping.get(i, f"column_{i}") for i in range(n)]] *)
Definition new_column_names (col_mapping : list string) (n : nat)
  : list string :=
  (fun i => default ("column_" +:+ pretty i) (col_mapping !! i)) <$> seq 0 n.

(** [for col in cols: if col in df.columns: df = df.with_columns(expr)] *)
Fixpoint for_columns (cols : list string) (expr : cell -> outcome cell)
    (df : DataFrame) : outcome DataFrame :=
  match cols with
  | [] => Ok df
  | col :: cols' =>
      if has_column col df
      then df' ← with_columns col expr df; for_columns cols' expr df'
      else for_columns cols' expr df
  end.

Definition _transform_country_codes (df : DataFrame) : outcome DataFrame :=
  if has_column "pais" df then with_columns "pais" country_expr df
  else Ok df.

(** The renaming step of [_apply_transformations]: [if col_mapping:]
    the columns take the names of the mapping, by position. *)
Definition rename_columns (df : DataFrame) (col_mapping : list string)
  : DataFrame :=
  match col_mapping with
  | [] => df
  | _ :: _ =>
      let new_columns := new_column_names col_mapping (length (columns df)) in
      rename df (zip (columns df) new_columns)
  end.

(** The handler of [_apply_transformations] logs and raises again, so an
    exception of the body is the exception of the call. *)
Definition _apply_transformations (df : DataFrame) (file_type : string)
  : outcome DataFrame :=
  let col_mapping := default [] (dict_get COLUMN_MAPPINGS file_type) in
  let df := rename_columns df col_mapping in
  let numeric_cols := default [] (dict_get NUMERIC_COLUMNS file_type) in
  df ← for_columns numeric_cols numeric_expr df;
  let date_cols := default [] (dict_get DATE_COLUMNS file_type) in
  df ← for_columns date_cols date_expr df;
  if decide (file_type = "ESTABELE") then _transform_country_codes df
  else Ok df.

(** ** Storage: [SQLiteAdapter] *)

(** A stored row: the values of its named columns. *)
Definition record : Type := list (string * cell).

Inductive statement : Type :=
  | InsertOrReplace (table : string) (cols : list string)
      (values : list (list cell))
  | SelectCodigo (table : string)
  | SelectCount (table : string).

(** The adapter together with the database behind it.  [conn] tells
    whether [self.conn] is set, [executed] lists the statements run so
    far, [tables] holds the rows of every table (a table never written
    to is empty; creating the destination tables is not the adapter's
    work).

    Modelled from the spec: [natural_key] gives, for every table, the
    columns of its natural key; the schema of the destination tables is
    not part of the sources. *)
Record SQLiteAdapter : Type := mkAdapter {
  conn : bool;
  natural_key : string -> list string;
  tables : gmap string (list record);
  executed : list statement;
}.

Definition table_rows (db : SQLiteAdapter) (table : string) : list record :=
  default [] (tables db !! table).

Definition field (r : record) (col : string) : cell :=
  default None (dict_get r col).

Definition key_of (key_cols : list string) (r : record) : list cell :=
  field r <$> key_cols.

(** Modelled from the spec: [INSERT OR REPLACE] of one row is
    insert-or-replace by the table's natural key: the stored rows with
    the key of the new row are deleted, then the new row is added; a
    table without key keeps every row. *)
Definition insert_or_replace (key_cols : list string) (t : list record)
    (r : record) : list record :=
  match key_cols with
  | [] => t ++ [r]
  | _ :: _ =>
      filter (fun r' => key_of key_cols r' ≠ key_of key_cols r) t ++ [r]
  end.

(** [self.connect()] *)
Definition connect (db : SQLiteAdapter) : SQLiteAdapter :=
  if conn db then db
  else mkAdapter true (natural_key db) (tables db) (executed db).

(** [cur.executemany(sql, values)] for the [INSERT OR REPLACE] statement
    of [bulk_upsert], followed by [self.conn.commit()]. *)
Definition executemany_insert (table : string) (cols : list string)
    (values : list (list cell)) (db : SQLiteAdapter) : SQLiteAdapter :=
  let t := foldl (insert_or_replace (natural_key db table))
                 (table_rows db table) (zip cols <$> values) in
  mkAdapter (conn db) (natural_key db) (<[table := t]> (tables db))
            (executed db ++ [InsertOrReplace table cols values]).

Definition bulk_upsert (df : DataFrame) (table : string) (db : SQLiteAdapter)
  : SQLiteAdapter :=
  if decide (height df = 0) then db
  else executemany_insert table (columns df) (rows df) (connect db).

(** Modelled from the spec: the adapter's simple lookup, as used through
    [db.cursor()] by the reference enhancement (the base class of the
    adapters is not part of the sources): [SELECT codigo FROM table]
    returns the code of every stored row. *)
Definition select_codigo (table : string) (db : SQLiteAdapter)
  : list cell * SQLiteAdapter :=
  ((fun r => field r "codigo") <$> table_rows db table,
   mkAdapter (conn db) (natural_key db) (tables db)
             (executed db ++ [SelectCodigo table])).

(** Modelled from the spec: [SELECT COUNT( * ) FROM table]. *)
Definition select_count (table : string) (db : SQLiteAdapter)
  : nat * SQLiteAdapter :=
  (length (table_rows db table),
   mkAdapter (conn db) (natural_key db) (tables db)
             (executed db ++ [SelectCount table])).

(** ** The world of the processor *)

(** One call of [pl.read_csv] on a file: the path, [skip_rows], [n_rows]
    and the number of rows it returned. *)
Record read_event : Type := mkRead {
  read_path : string;
  read_skip : nat;
  read_n_rows : option nat;
  read_height : nat;
}.

Record World : Type := mkWorld {
  fs : gmap string string;
  db : SQLiteAdapter;
  reads : list read_event;
}.

(** Points where the encoding conversion can meet an I/O failure. *)
Inductive io_event : Type :=
  | OpenInput
  | OpenOutput
  | ReadChunk (k : nat)
  | WriteChunk (k : nat)
  | StatOutput.

(** What the run depends on from outside: which I/O operation of the
    conversion fails and how, and the reconciliation sources.  A code
    list maps a code to its description; [Raise e] is a source that
    fails with [e], [Ok None] a source that has nothing to give.
    [str_upper] is Python's [str.upper()] on text that is not ASCII,
    where it follows the case mappings of Unicode (the long s becomes
    [S], the dotless i becomes [I], ligatures are spelled out). *)
Record Env : Type := mkEnv {
  io_fault : io_event -> option exn;
  reference_import : option exn;
  serpro_motivos : outcome (option (gmap string string));
  hardcoded_paises : outcome (option (gmap string string));
  str_upper : string -> string;
}.

(** The configuration object (its class is not part of the sources):
    the fields the processor reads. *)
Record Config : Type := mkConfig {
  debug : bool;
  encoding_chunk_size : nat;
  max_file_size_mb : Q;
}.

(** A computation on the world that returns, raises, or runs out of
    fuel ([None]). *)
Definition M (A : Type) : Type := World -> option (outcome A * World).

Definition ret {A} (a : A) : M A := fun w => Some (Ok a, w).

Definition raise {A} (e : exn) : M A := fun w => Some (Raise e, w).

Definition lift {A} (o : outcome A) : M A := fun w => Some (o, w).

Definition out_of_fuel {A} : M A := fun _ => None.

Definition bind {A B} (m : M A) (k : A -> M B) : M B := fun w =>
  match m w with
  | None => None
  | Some (Ok a, w') => k a w'
  | Some (Raise e, w') => Some (Raise e, w')
  end.

Notation "x <- m ;; k" := (bind m (fun x => k))
  (at level 20, m at level 99, k at level 200, only parsing).
Notation "' pat <- m ;; k" := (bind m (fun x => match x with pat => k end))
  (at level 20, pat pattern, m at level 99, k at level 200, only parsing).

(** [try: body except Exception as e: handler(e)] *)
Definition try_except {A} (body : M A) (handler : exn -> M A) : M A :=
  fun w =>
    match body w with
    | None => None
    | Some (Ok a, w') => Some (Ok a, w')
    | Some (Raise e, w') => handler e w'
    end.

(** [try: body finally: cleanup] *)
Definition try_finally {A} (body : M A) (cleanup : M unit) : M A :=
  fun w =>
    match body w with
    | None => None
    | Some (r, w') =>
        match cleanup w' with
        | None => None
        | Some (Ok _, w'') => Some (r, w'')
        | Some (Raise e, w'') => Some (Raise e, w'')
        end
    end.

(** A call of a method of the adapter. *)
Definition on_db {A} (f : SQLiteAdapter -> A * SQLiteAdapter) : M A := fun w =>
  let (a, d) := f (db w) in Some (Ok a, mkWorld (fs w) d (reads w)).

(** ** Files *)

(** [file_path.name]: the part after the last slash. *)
Definition path_name (file_path : string) : string :=
  default file_path (last (split_on "/"%char file_path)).

(** [_get_file_size_mb]: the size of a file in bytes divided by
    [1024 * 1024]; [stat] raises when the file does not exist. *)
Definition _get_file_size_mb (file_path : string) : M Q := fun w =>
  match fs w !! file_path with
  | Some content =>
      Some (Ok (Qmake (Z.of_nat (String.length content)) 1048576), w)
  | None => Some (Raise (OSError "FileNotFoundError"), w)
  end.

Fixpoint first_pattern (patterns : list string) (s : string) : option string :=
  match patterns with
  | [] => None
  | pattern :: patterns' =>
      if str_contains pattern s then Some pattern
      else first_pattern patterns' s
  end.

(** [filename.upper()]: on ASCII text the letters a to z become
    capitals; on other text the case mappings of Unicode apply. *)
Definition name_upper (env : Env) (filename : string) : string :=
  if decide (count_high filename = 0) then upper filename
  else str_upper env filename.

Definition _get_file_type (env : Env) (filename : string) : option string :=
  let filename_upper := name_upper env filename in
  first_pattern (fst <$> FILE_MAPPINGS) filename_upper.

(** ** The encoding normalizer *)

Definition CR : Ascii.ascii := "013"%char.

(** Text mode reading: [\r\n] and a lone [\r] are read as [\n]. *)
Fixpoint universal_newlines (s : string) : string :=
  match s with
  | EmptyString => EmptyString
  | String c s' =>
      if decide (c = CR)
      then String LF
             match s' with
             | EmptyString => EmptyString
             | String c' s'' =>
                 if decide (c' = LF) then universal_newlines s''
                 else universal_newlines s'
             end
      else String c (universal_newlines s')
  end.

(** One ISO-8859-1 character written in UTF-8: a byte below 128 is kept,
    another one becomes two bytes. *)
Definition utf8_encode_char (c : Ascii.ascii) : string :=
  let n := Ascii.N_of_ascii c in
  if (n <? 128)%N then String c EmptyString
  else String (Ascii.ascii_of_N (N.lor 192 (N.shiftr n 6)))
         (String (Ascii.ascii_of_N (N.lor 128 (N.land n 63))) EmptyString).

Fixpoint utf8_encode (s : string) : string :=
  match s with
  | EmptyString => EmptyString
  | String c s' => utf8_encode_char c +:+ utf8_encode s'
  end.

Fixpoint str_take (n : nat) (s : string) : string :=
  match n, s with
  | S n', String c s' => String c (str_take n' s')
  | _, _ => EmptyString
  end.

Fixpoint chunks_of (fuel n : nat) (s : string) : list string :=
  match fuel, s with
  | S fuel', String _ _ => str_take n s :: chunks_of fuel' n (str_drop n s)
  | _, _ => []
  end.

(** The non-empty results of the successive [infile.read(n)], [n > 0]. *)
Definition read_chunks (n : nat) (text : string) : list string :=
  chunks_of (String.length text) n text.

(** [tempfile.mkstemp]: a new empty file under a name not in use. *)
Definition mkstemp : M string := fun w =>
  let p := fresh (dom (fs w)) in
  Some (Ok p, mkWorld (<[p := EmptyString]> (fs w)) (db w) (reads w)).

(** [open(input_file, "r", encoding="ISO-8859-1", buffering=n)]: text
    mode refuses [buffering=0]. *)
Definition open_input (env : Env) (config : Config) (input_file : string)
  : M unit := fun w =>
  match io_fault env OpenInput with
  | Some e => Some (Raise e, w)
  | None =>
      if decide (encoding_chunk_size config = 0)
      then Some (Raise (ValueError "can't have unbuffered text I/O"), w)
      else match fs w !! input_file with
           | Some _ => Some (Ok tt, w)
           | None => Some (Raise (OSError "FileNotFoundError"), w)
           end
  end.

(** [open(output_file, "w", encoding="UTF-8", buffering=n)]: the file is
    created, or emptied when it exists. *)
Definition open_output (env : Env) (output_file : string) : M unit := fun w =>
  match io_fault env OpenOutput with
  | Some e => Some (Raise e, w)
  | None =>
      Some (Ok tt,
            mkWorld (<[output_file := EmptyString]> (fs w)) (db w) (reads w))
  end.

(** The text of the input as the reads will see it. *)
Definition input_text (input_file : string) : M string := fun w =>
  Some (Ok (universal_newlines (default EmptyString (fs w !! input_file))), w).

(** [outfile.write(chunk)] *)
Definition write_chunk (output_file chunk : string) : M unit := fun w =>
  let old := default EmptyString (fs w !! output_file) in
  Some (Ok tt,
        mkWorld (<[output_file := old +:+ utf8_encode chunk]> (fs w))
                (db w) (reads w)).

(** The [while True] loop of the conversion; [k] is [chunk_count].  The
    read that returns the empty string ends it. *)
Fixpoint copy_chunks (env : Env) (output_file : string) (k : nat)
    (chunks : list string) : M unit :=
  match io_fault env (ReadChunk k) with
  | Some e => raise e
  | None =>
      match chunks with
      | [] => ret tt
      | chunk :: chunks' =>
          match io_fault env (WriteChunk k) with
          | Some e => raise e
          | None =>
              _u <- write_chunk output_file chunk ;;
              copy_chunks env output_file (S k) chunks'
          end
      end
  end.

Definition stat_output (env : Env) (output_file : string) : M Q :=
  match io_fault env StatOutput with
  | Some e => raise e
  | None => _get_file_size_mb output_file
  end.

(** [if output_file.exists(): output_file.unlink()] *)
Definition unlink_if_exists (file_path : string) : M unit := fun w =>
  match fs w !! file_path with
  | Some _ => Some (Ok tt, mkWorld (delete file_path (fs w)) (db w) (reads w))
  | None => Some (Ok tt, w)
  end.

Definition _convert_file_encoding_chunked (env : Env) (config : Config)
    (input_file : string) (output_file : option string) : M string :=
  output_file <- match output_file with
                 | None => mkstemp
                 | Some p => ret p
                 end ;;
  _u <- _get_file_size_mb input_file ;;
  try_except
    (_u <- open_input env config input_file ;;
     _u <- open_output env output_file ;;
     text <- input_text input_file ;;
     _u <- copy_chunks env output_file 0
            (read_chunks (encoding_chunk_size config) text) ;;
     _u <- stat_output env output_file ;;
     ret output_file)
    (fun e =>
       _u <- unlink_if_exists output_file ;;
       raise e).

(** ** The reference reconciler *)

(** Modelled from the spec: [ReferenceDataManager.diff_motivos_data] and
    [diff_paises_data] (module [src.reference_data] is not part of the
    sources) compute the set difference: the codes of the external list
    that are not among the existing ones, as a frame holding nothing but
    code and description.  A failing source raises; a source with
    nothing to give yields [None]. *)
Definition missing_codes (external : gmap string string)
    (existing_codes : list cell) : list (string * string) :=
  filter (fun kv => Some (VStr kv.1) ∉ existing_codes) (map_to_list external).

Definition code_row (kv : string * string) : list cell :=
  [Some (VStr kv.1); Some (VStr kv.2)].

Definition diff_reference_data (src : outcome (option (gmap string string)))
    (existing_codes : list cell) : outcome (option DataFrame) :=
  match src with
  | Raise e => Raise e
  | Ok None => Ok None
  | Ok (Some external) =>
      Ok (Some (mkDataFrame ["codigo"; "descricao"]
                  (code_row <$> missing_codes external existing_codes)))
  end.

Definition diff_motivos_data (env : Env) (existing_codes : list cell)
  : outcome (option DataFrame) :=
  diff_reference_data (serpro_motivos env) existing_codes.

Definition diff_paises_data (env : Env) (existing_codes : list cell)
  : outcome (option DataFrame) :=
  diff_reference_data (hardcoded_paises env) existing_codes.

(** [from src.reference_data import ReferenceDataManager] followed by
    [ReferenceDataManager(self.config)]. *)
Definition import_reference_data (env : Env) : M unit :=
  match reference_import env with
  | Some e => raise e
  | None => ret tt
  end.

(** The adapter object handed to the enhancement ([db=db]). *)
Inductive db_handle : Type := TheAdapter.

(** The body shared by [_enhance_motivos_data] and
    [_enhance_paises_data], which differ in the diff they call (and in
    their log messages).  A set of codes is used for membership only and
    is kept as the list of its elements.  Both handlers, of
    [ImportError] and of [Exception], return [df]. *)
Definition enhance_with (env : Env)
    (diff : Env -> list cell -> outcome (option DataFrame))
    (df : option DataFrame) (db : option db_handle) (table_name : string)
  : M (option DataFrame) :=
  try_except
    (_u <- import_reference_data env ;;
     existing_codes <-
       match df with
       | Some d => lift (column_to_list "codigo" d)
       | None =>
           match db with
           | None => raise (ValueError "Either df or db must be provided")
           | Some _ => on_db (select_codigo table_name)
           end
       end ;;
     missing_df <- lift (diff env existing_codes) ;;
     match missing_df with
     | Some missing =>
         if decide (0 < height missing)
         then match df with
              | Some d =>
                  enhanced_df <- lift (concat d missing) ;;
                  ret (Some enhanced_df)
              | None =>
                  _u <- on_db (fun a => (tt, bulk_upsert missing table_name a)) ;;
                  _u <- on_db (select_count table_name) ;;
                  ret df
              end
         else ret df
     | None => ret df
     end)
    (fun e =>
       match e with
       | ImportError => ret df
       | _ => ret df
       end).

Definition _enhance_motivos_data (env : Env) (df : option DataFrame)
    (db : option db_handle) (table_name : string) : M (option DataFrame) :=
  enhance_with env diff_motivos_data df db table_name.

Definition _enhance_paises_data (env : Env) (df : option DataFrame)
    (db : option db_handle) (table_name : string) : M (option DataFrame) :=
  enhance_with env diff_paises_data df db table_name.

Definition _enhance_reference_data (env : Env) (file_type : string)
    (df : option DataFrame) (db : option db_handle) (table_name : string)
  : M (option DataFrame) :=
  match dict_get REFERENCE_ENHANCEMENTS file_type with
  | None => ret df
  | Some enhancement_config =>
      match source enhancement_config with
      | Serpro => _enhance_motivos_data env df db table_name
      | Hardcoded => _enhance_paises_data env df db table_name
      end
  end.

(** ** The chunked loader *)

(** [pl.read_csv] on a file of the world.  It raises when the file is
    not there, when there is no row to read and when a row read is
    longer than the first; a call that returns is recorded. *)
Definition read_csv_file (file_path : string) (skip_rows : nat)
    (n_rows : option nat) : M DataFrame := fun w =>
  match fs w !! file_path with
  | None => Some (Raise (OSError "FileNotFoundError"), w)
  | Some content =>
      let df := read_csv content skip_rows n_rows in
      if decide (height df = 0)
      then Some (Raise (PolarsError "NoDataError"), w)
      else if has_longer_row (rows_read content skip_rows n_rows)
      then Some (Raise (PolarsError "ComputeError"), w)
      else Some (Ok df,
                 mkWorld (fs w) (db w)
                   (reads w
                    ++ [mkRead file_path skip_rows n_rows (height df)]))
  end.

(** [FILE_MAPPINGS[file_type]] *)
Definition table_name_of (file_type : string) : outcome string :=
  match dict_get FILE_MAPPINGS file_type with
  | Some t => Ok t
  | None => Raise (ValueError "KeyError")
  end.

Record loop_state : Type := mkLoop {
  offset : nat;
  batch_num : nat;
  total_processed : nat;
}.


(** The [while True] loop of [_process_large_file_chunked]; one unit of
    fuel is one turn of the loop. *)
Fixpoint chunk_loop (fuel chunk_size : nat)
    (file_path file_type table_name : string) (st : loop_state)
  : M loop_state :=
  match fuel with
  | 0 => out_of_fuel
  | S fuel' =>
      let batch_num := S (batch_num st) in
      chunk_df <- read_csv_file file_path (offset st) (Some chunk_size) ;;
      if decide (height chunk_df = 0)
      then ret (mkLoop (offset st) batch_num (total_processed st))
      else
        chunk_df <- lift (_apply_transformations chunk_df file_type) ;;
        _u <- on_db (fun a => (tt, bulk_upsert chunk_df table_name a)) ;;
        let total_processed := total_processed st + height chunk_df in
        let offset := offset st + height chunk_df in
        if decide (offset mod chunk_size ≠ 0)
        then ret (mkLoop offset batch_num total_processed)
        else chunk_loop fuel' chunk_size file_path file_type table_name
               (mkLoop offset batch_num total_processed)
  end.

(** The adapter built by [create_database_adapter(self.config)] is the
    adapter of the world.  The function ends in [return None]. *)
Definition _process_large_file_chunked (env : Env) (fuel chunk_size : nat)
    (file_path file_type : string) : M (option (DataFrame * string)) :=
  table_name <- lift (table_name_of file_type) ;;
  sample_df <- read_csv_file file_path 0 (Some 100) ;;
  sample_df <- lift (_apply_transformations sample_df file_type) ;;
  let expected_columns := columns sample_df in
  st <- chunk_loop fuel chunk_size file_path file_type table_name
          (mkLoop 0 0 0) ;;
  _u <- (if decide (0 < total_processed st)
         then _enhance_reference_data env file_type None (Some TheAdapter)
                table_name
         else ret None) ;;
  ret None.

(** ** [process_file] *)

(** The [else] branch of [process_file]: the whole file is read,
    transformed and enhanced in memory. *)
Definition process_file_direct (env : Env) (utf8_file file_type : string)
  : M (option (DataFrame * string)) :=
  df <- read_csv_file utf8_file 0 None ;;
  df <- lift (_apply_transformations df file_type) ;;
  table_name <- lift (table_name_of file_type) ;;
  enhanced_df <- _enhance_reference_data env file_type (Some df) None
                   table_name ;;
  let df := match enhanced_df with
            | Some e => e
            | None => df
            end in
  ret (Some (df, table_name)).

(** [a > b] on file sizes. *)
Definition Qgt_bool (a b : Q) : bool := negb (Qle_bool a b).

(** The result is [None] or a pair (frame, table name).  The handler of
    the outer [try] logs and raises again; [finally] removes the
    converted file once [utf8_file] is set. *)
Definition process_file (env : Env) (config : Config) (fuel chunk_size : nat)
    (file_path : string) : M (option (DataFrame * string)) :=
  _u <- _get_file_size_mb file_path ;;
  match _get_file_type env (path_name file_path) with
  | None => raise (ValueError "Cannot determine file type")
  | Some file_type =>
      utf8_file <- _convert_file_encoding_chunked env config file_path None ;;
      try_finally
        (utf8_size_mb <- _get_file_size_mb utf8_file ;;
         if Qgt_bool utf8_size_mb (max_file_size_mb config)
         then _process_large_file_chunked env fuel chunk_size utf8_file
                file_type
         else process_file_direct env utf8_file file_type)
        (unlink_if_exists utf8_file)
  end.





(** ** What the column expressions compute on text

    A frame read from a file holds text and nulls only; on such cells
    the expressions do not raise, and their results are these. *)

Definition is_text (c : cell) : Prop :=
  match c with
  | Some (VFloat _) => False
  | _ => True
  end.

Definition all_text (df : DataFrame) : Prop :=
  Forall (Forall is_text) (rows df).

Definition numeric_value (c : cell) : cell :=
  match c with
  | Some (VStr s) => VFloat <$> parse_float (str_replace "," "." s)
  | _ => None
  end.

Definition date_value (c : cell) : cell :=
  if decide (c = Some (VStr "0")) then None else c.

Definition country_value (c : cell) : cell :=
  match c with
  | Some (VStr s) =>
      if decide (s = EmptyString) then c
      else Some (VStr (zfill 3 (strip_chars s)))
  | _ => c
  end.

(** A mapping of the catalog: no name twice, none of the form
    [column_i]. *)
Definition good_mapping (m : list string) : Prop :=
  NoDup m ∧ Forall (fun n => String.prefix "column_" n = false) m.

(** The code list behind a reconciliation source. *)
Definition source_of (env : Env) (src : ref_source)
  : outcome (option (gmap string string)) :=
  match src with
  | Serpro => serpro_motivos env
  | Hardcoded => hardcoded_paises env
  end.

(** The reconciliation source of a flagged category fails: the import of
    the reference module raises, or the source itself does. *)
Definition source_fails (env : Env) (cfg : enhancement) : Prop :=
  is_Some (reference_import env) ∨ ∃ e, source_of env (source cfg) = Raise e.

(** The codes held by a list of stored rows, and by the rows of a
    frame whose first column is the code. *)
Definition stored_codes (t : list record) : list cell :=
  (fun r => field r "codigo") <$> t.

Definition frame_codes (rs : list (list cell)) : list cell :=
  (fun r => default None (r !! 0)) <$> rs.

(** The adapter after the enhancement in database mode, when the
    source gives the code list [external]: the codes are selected, the
    missing ones are upserted and the rows are counted. *)
Definition reconcile_db (external : gmap string string) (table : string)
    (a : SQLiteAdapter) : SQLiteAdapter :=
  let (codes, a1) := select_codigo table a in
  let missing :=
    mkDataFrame ["codigo"; "descricao"]
                (code_row <$> missing_codes external codes) in
  if decide (0 < height missing)
  then (select_count table (bulk_upsert missing table a1)).2
  else a1.

(** What [read_csv] returns: default column names, one cell per column
    in every row, text and nulls only. *)
Definition raw_frame (df : DataFrame) : Prop :=
  (∃ w, columns df = default_columns w) ∧ rectangular df ∧ all_text df.

(** The transformation of one row of a frame read from a file, by the
    positions the catalog gives to the numeric, date and country
    columns of each file type. *)
Definition transform_row (file_type : string) (r : list cell) : list cell :=
  if decide (file_type = "EMPRECSV") then alter numeric_value 4 r
  else if decide (file_type = "ESTABELE") then
    alter country_value 9
      (alter date_value 29 (alter date_value 10 (alter date_value 6 r)))
  else if decide (file_type = "SIMPLESCSV") then
    alter date_value 6
      (alter date_value 5 (alter date_value 3 (alter date_value 2 r)))
  else if decide (file_type = "SOCIOCSV") then alter date_value 5 r
  else r.

(** The frame [_apply_transformations] returns for a frame read from a
    file. *)
Definition transformed (df : DataFrame) (file_type : string) : DataFrame :=
  mkDataFrame
    (columns (rename_columns df
                (default [] (dict_get COLUMN_MAPPINGS file_type))))
    (transform_row file_type <$> rows df).

(** ** What the chunked loader does to a file *)

(** The rows of a normalized file, field by field. *)
Definition parsed_rows (content : string) : list (list cell) :=
  parse_line <$> csv_lines content.

(** The number of rows of a normalized file. *)
Definition row_count (content : string) : nat := length (csv_lines content).

Definition quote : Ascii.ascii := "034"%char.

(** A normalized file without quote characters and without empty
    lines, whose lines all have [wd] fields: every line is a row for
    polars as it is here, and no row is longer than another. *)
Definition plain_csv (content : string) (wd : nat) : Prop :=
  count_char quote content = 0
  ∧ Forall (fun l => l ≠ EmptyString) (csv_lines content)
  ∧ Forall (fun r => length r = wd) (parsed_rows content).

(** The windows of [chunk_size] rows that hold rows of a file of [n]
    rows: all of them are full but the last one when [n] is no multiple
    of [chunk_size]. *)
Definition windows_of (n chunk_size : nat) : nat :=
  if decide (n mod chunk_size = 0) then n / chunk_size
  else n / chunk_size + 1.

(** The [k]-th window of a file, as the loop reads it. *)
Definition window (content : string) (chunk_size k : nat) : DataFrame :=
  read_csv content (k * chunk_size) (Some chunk_size).

(** The record of the read of the [k]-th window. *)
Definition window_read (file_path content : string) (chunk_size k : nat)
  : read_event :=
  mkRead file_path (k * chunk_size) (Some chunk_size)
         (height (window content chunk_size k)).

(** The adapter after the bulk upserts of the transformed windows
    [ks], in that order. *)
Definition upsert_windows (content file_type table_name : string)
    (chunk_size : nat) (ks : list nat) (a : SQLiteAdapter) : SQLiteAdapter :=
  foldl (fun a k =>
           bulk_upsert (transformed (window content chunk_size k) file_type)
                       table_name a)
        a ks.


(** The world after one read of a file. *)
Definition after_read (file_path : string) (skip_rows : nat)
    (n_rows : option nat) (content : string) (w : World) : World :=
  mkWorld (fs w) (db w)
    (reads w ++ [mkRead file_path skip_rows n_rows
                   (height (read_csv content skip_rows n_rows))]).






(** ** The processed-files ledger of [SQLiteAdapter]

    The table [processed_files] has the columns directory, filename and
    processed_at and the primary key (directory, filename), as the
    [CREATE TABLE IF NOT EXISTS] of [_ensure_tracking_table] declares.
    Its rows live in [tables] like those of every other table;
    [processed_at] takes the reading of the clock at the insertion.
    The statements on the ledger are not listed in [executed], which
    records the writes to the destination tables. *)

Definition tracking_key : list string := ["directory"; "filename"].

(** [CREATE TABLE IF NOT EXISTS processed_files (...)] *)
Definition _ensure_tracking_table (a : SQLiteAdapter) : SQLiteAdapter :=
  let a := connect a in
  match tables a !! "processed_files" with
  | Some _ => a
  | None =>
      mkAdapter (conn a) (natural_key a)
                (<["processed_files" := []]> (tables a)) (executed a)
  end.

Definition ensure_tracking_table (a : SQLiteAdapter) : SQLiteAdapter :=
  _ensure_tracking_table a.

(** [SQLiteAdapter.__init__] on a database that holds [stored]:
    [self.conn = None], then [self._ensure_tracking_table()]. *)
Definition init_adapter (keys : string -> list string)
    (stored : gmap string (list record)) : SQLiteAdapter :=
  _ensure_tracking_table (mkAdapter false keys stored []).

(** [disconnect]: the connection is closed when there is one. *)
Definition disconnect (a : SQLiteAdapter) : SQLiteAdapter :=
  if conn a then mkAdapter false (natural_key a) (tables a) (executed a)
  else a.

Definition ledger_row (directory filename processed_at : string) : record :=
  [ ("directory", Some (VStr directory));
    ("filename", Some (VStr filename));
    ("processed_at", Some (VStr processed_at)) ].

(** [directory = ? AND filename = ?] *)
Definition same_file (directory filename : string) (r : record) : Prop :=
  field r "directory" = Some (VStr directory)
  ∧ field r "filename" = Some (VStr filename).

#[global] Instance same_file_dec (directory filename : string) (r : record) :
  Decision (same_file directory filename r).
Proof. unfold same_file. apply _. Defined.

(** [INSERT OR IGNORE INTO processed_files (directory, filename)
    VALUES (?, ?)]: nothing is written when the primary key is there. *)
Definition mark_processed (now directory filename : string)
    (a : SQLiteAdapter) : SQLiteAdapter :=
  let a := connect a in
  let t := table_rows a "processed_files" in
  if decide (Exists (same_file directory filename) t) then a
  else mkAdapter (conn a) (natural_key a)
         (<["processed_files" := t ++ [ledger_row directory filename now]]>
            (tables a))
         (executed a).

(** [SELECT 1 FROM processed_files WHERE directory = ? AND filename = ?
    LIMIT 1] and [cur.fetchone() is not None] *)
Definition is_processed (directory filename : string) (a : SQLiteAdapter)
  : bool * SQLiteAdapter :=
  let a := connect a in
  (bool_decide (Exists (same_file directory filename)
                       (table_rows a "processed_files")), a).

(** [SELECT filename FROM processed_files WHERE directory = ?] and the set
    [{row[0] for row in rows}], kept as the list of its elements. *)
Definition get_processed_files (directory : string) (a : SQLiteAdapter)
  : list cell * SQLiteAdapter :=
  let a := connect a in
  ((fun r => field r "filename")
     <$> filter (fun r => field r "directory" = Some (VStr directory))
                (table_rows a "processed_files"),
   a).

(** The files marked one after the other, each with the reading of the
    clock at that time: (processed_at, directory, filename). *)
Definition mark_all (marks : list (string * string * string))
    (a : SQLiteAdapter) : SQLiteAdapter :=
  foldl (fun a m => mark_processed m.1.1 m.1.2 m.2 a) a marks.

(** The primary keys held by the ledger. *)
Definition ledger_keys (a : SQLiteAdapter) : list (list cell) :=
  key_of tracking_key <$> table_rows a "processed_files".

(** ** Reading back what the normalizer wrote *)

(** The strings of a list, one after the other. *)
Definition str_concat (l : list string) : string :=
  foldr String.append EmptyString l.

(** UTF-8 decoding of text whose characters are all below 256 (what the
    normalizer writes): a byte below 128 is a character, the lead bytes
    194 and 195 take one continuation byte; anything else is not
    decoded. *)
Fixpoint utf8_decode (s : string) : option string :=
  match s with
  | EmptyString => Some EmptyString
  | String c s' =>
      let n := Ascii.N_of_ascii c in
      if (n <? 128)%N then String c <$> utf8_decode s'
      else if ((n =? 194) || (n =? 195))%N then
        match s' with
        | EmptyString => None
        | String c' s'' =>
            let m := Ascii.N_of_ascii c' in
            if (N.land m 192 =? 128)%N
            then String (Ascii.ascii_of_N
                           (N.lor (N.shiftl (N.land n 3) 6) (N.land m 63)))
                   <$> utf8_decode s''
            else None
        end
      else None
  end.

(** ** What a run leaves alone *)

(** Two worlds that differ at most in the file [p]. *)
Definition same_but_file (p : string) (w w' : World) : Prop :=
  db w' = db w ∧ reads w' = reads w ∧ ∀ q, q ≠ p → fs w' !! q = fs w !! q.

(** A computation that always ends, touches no file but [p], and whose
    result, when it returns one, satisfies [Q]. *)
Definition touches_only {A} (p : string) (Q : A -> Prop) (m : M A) : Prop :=
  ∀ w, ∃ r w', m w = Some (r, w') ∧ same_but_file p w w'
               ∧ ∀ a, r = Ok a → Q a.

(** The destination table of a file, by its name: the table of the
    file type found in the name. *)
Definition destination_of (env : Env) (file_path : string)
  : option string :=
  file_type ← _get_file_type env (path_name file_path);
  dict_get FILE_MAPPINGS file_type.

(** The numeric and the date columns the catalog lists for a file
    type: [NUMERIC_COLUMNS.get(file_type, [])] and
    [DATE_COLUMNS.get(file_type, [])]. *)
Definition numeric_cols_of (file_type : string) : list string :=
  default [] (dict_get NUMERIC_COLUMNS file_type).

Definition date_cols_of (file_type : string) : list string :=
  default [] (dict_get DATE_COLUMNS file_type).


(** The commas and points of a string. *)
Definition seps (s : string) : nat :=
  count_char ","%char s + count_char "."%char s.

(** ** The rows a bulk upsert leaves *)

(** The records a frame is written as: the cells of each row under the
    column names. *)
Definition frame_records (df : DataFrame) : list record :=
  zip (columns df) <$> rows df.

(** Of the records that share a key, the last one. *)
Fixpoint last_by_key (key_cols : list string) (rs : list record)
  : list record :=
  match rs with
  | [] => []
  | r :: rs' =>
      if decide (key_of key_cols r ∈ key_of key_cols <$> rs')
      then last_by_key key_cols rs'
      else r :: last_by_key key_cols rs'
  end.

(** * Properties *)

(** ** Frames and column expressions *)

Lemma omap_ok {A B} (f : A -> outcome B) (g : A -> B) (l : list A) :
  (∀ x, x ∈ l → f x = Ok (g x)) → omap f l = Ok (g <$> l).
Proof.
  induction l as [|x l IH]; intros H; simpl; [done|].
  rewrite H by left. rewrite IH; [done|].
  intros y Hy. apply H. by right.
Qed.

Lemma alter_out_of_range {A} (g : A -> A) (i : nat) (r : list A) :
  r !! i = None → alter g i r = r.
Proof.
  revert i. induction r as [|x r IH]; intros [|i] H; simplify_eq/=; [done..|].
  f_equal. by apply IH.
Qed.

Lemma insert_as_alter {A} (g : A -> A) (i : nat) (r : list A) (c : A) :
  r !! i = Some c → <[i := g c]> r = alter g i r.
Proof.
  revert i. induction r as [|x r IH]; intros [|i] H; simplify_eq/=; [done|].
  f_equal. by apply IH.
Qed.

Lemma update_cell_ok (f : cell -> outcome cell) (g : cell -> cell)
    (i : nat) (r : list cell) :
  (∀ c, r !! i = Some c → f c = Ok (g c)) →
  update_cell i f r = Ok (alter g i r).
Proof.
  intros H. unfold update_cell. destruct (r !! i) as [c|] eqn:E.
  - rewrite (H c eq_refl). by rewrite (insert_as_alter g i r c E).
  - by rewrite alter_out_of_range.
Qed.

Lemma index_of_fmap_seq (f : nat -> string) (name : string) (j s w : nat) :
  (∀ i, f i = name ↔ i = j) →
  index_of name (f <$> seq s w)
  = if decide (s ≤ j < s + w) then Some (j - s) else None.
Proof.
  intros Hf. revert s. induction w as [|w IH]; intros s; simpl.
  - case_decide; [lia|done].
  - destruct (decide (f s = name)) as [Hs|Hs].
    + apply Hf in Hs. subst s. rewrite decide_True by lia.
      f_equal. lia.
    + assert (s ≠ j) by (intros ->; apply Hs; by apply Hf).
      rewrite IH. repeat case_decide; try lia; simpl; [|done].
      f_equal. lia.
Qed.

Lemma index_of_elem (name : string) (cols : list string) :
  name ∈ cols ↔ is_Some (index_of name cols).
Proof.
  induction cols as [|c cols IH]; simpl.
  - split; [by intros ?%elem_of_nil|by intros [? ?]].
  - case_decide as Hc.
    + subst. split; [eauto|left].
    + rewrite elem_of_cons, IH, fmap_is_Some. split; [intros [?|?]|]; by auto.
Qed.

Lemma has_column_index (name : string) (df : DataFrame) :
  has_column name df = bool_decide (is_Some (index_of name (columns df))).
Proof. unfold has_column. apply bool_decide_ext, index_of_elem. Qed.

Lemma prefix_app (p x : string) : String.prefix p (p +:+ x) = true.
Proof.
  induction p as [|a p IH]; simpl.
  - by destruct x.
  - unfold String.app. simpl. destruct (Ascii.ascii_dec a a); [|done].
    apply IH.
Qed.

Lemma new_names_index (m : list string) (w : nat) (name : string) (j : nat) :
  good_mapping m → m !! j = Some name →
  index_of name (new_column_names m w)
  = if decide (j < w) then Some j else None.
Proof.
  intros [Hnd Hpre] Hj. unfold new_column_names.
  rewrite (index_of_fmap_seq _ name j 0 w).
  - repeat case_decide; try lia; [f_equal; lia|done].
  - intros i. split.
    + destruct (m !! i) as [n|] eqn:E; simpl.
      * intros ->. by eapply NoDup_lookup.
      * intros <-. rewrite Forall_forall in Hpre.
        pose proof (Hpre _ (list_elem_of_lookup_2 _ _ _ Hj)) as Hp.
        by rewrite prefix_app in Hp.
    + intros ->. by rewrite Hj.
Qed.

Lemma with_columns_ok (name : string) (f : cell -> outcome cell)
    (g : cell -> cell) (i : nat) (df : DataFrame) :
  index_of name (columns df) = Some i →
  (∀ r c, r ∈ rows df → r !! i = Some c → f c = Ok (g c)) →
  with_columns name f df
  = Ok (mkDataFrame (columns df) (alter g i <$> rows df)).
Proof.
  intros Hi Hf. unfold with_columns. rewrite Hi.
  rewrite (omap_ok _ (alter g i)); [done|].
  intros r Hr. apply update_cell_ok. intros c. by apply Hf.
Qed.

(** One turn of the loops over the numeric and the date columns, and the
    country step: the column at position [j] of the mapping is rewritten
    when the frame is wide enough to have it. *)
Lemma column_step (name : string) (f : cell -> outcome cell)
    (g : cell -> cell) (j : nat) (df : DataFrame) :
  index_of name (columns df)
  = (if decide (j < length (columns df)) then Some j else None) →
  rectangular df →
  (∀ r c, r ∈ rows df → r !! j = Some c → f c = Ok (g c)) →
  (if has_column name df then with_columns name f df else Ok df)
  = Ok (mkDataFrame (columns df) (alter g j <$> rows df)).
Proof.
  intros Hi Hrect Hf. rewrite has_column_index, Hi.
  case_decide as Hj.
  - rewrite bool_decide_eq_true_2 by eauto.
    by apply with_columns_ok.
  - rewrite bool_decide_eq_false_2 by (by intros [? ?]).
    destruct df as [cols rs]; simpl in *. do 2 f_equal.
    symmetry. rewrite <- (list_fmap_id rs) at 2.
    apply list_fmap_ext. intros k r Hr. simpl.
    apply alter_out_of_range, lookup_ge_None.
    unfold rectangular in Hrect. rewrite Forall_lookup in Hrect.
    simpl in Hrect. rewrite (Hrect k r Hr). lia.
Qed.

Lemma for_columns_cons (col : string) (cols : list string)
    (expr : cell -> outcome cell) (df : DataFrame) :
  for_columns (col :: cols) expr df
  = (df' ← (if has_column col df then with_columns col expr df else Ok df);
     for_columns cols expr df').
Proof. simpl. by destruct (has_column col df). Qed.

Lemma rectangular_alter (g : cell -> cell) (j : nat) (df : DataFrame) :
  rectangular df →
  rectangular (mkDataFrame (columns df) (alter g j <$> rows df)).
Proof.
  unfold rectangular. simpl. intros H. rewrite Forall_fmap.
  eapply Forall_impl; [exact H|]. intros r Hr. simpl.
  by rewrite length_alter.
Qed.

Lemma Forall_alter_cell (P : cell -> Prop) (g : cell -> cell) (j : nat)
    (r : list cell) :
  (∀ c, P c → P (g c)) → Forall P r → Forall P (alter g j r).
Proof.
  intros Hg. revert j. induction r as [|c r IH]; intros j Hr.
  - simpl. constructor.
  - inversion Hr as [|? ? Hc Hr']; subst. destruct j as [|j]; simpl.
    + constructor; auto.
    + constructor; [done|]. by apply IH.
Qed.

Lemma all_text_alter (g : cell -> cell) (j : nat) (df : DataFrame) :
  (∀ c, is_text c → is_text (g c)) → all_text df →
  all_text (mkDataFrame (columns df) (alter g j <$> rows df)).
Proof.
  unfold all_text. simpl. intros Hg H. rewrite Forall_fmap.
  eapply Forall_impl; [exact H|]. intros r Hr. simpl.
  by apply Forall_alter_cell.
Qed.

Lemma all_text_cell (df : DataFrame) (r : list cell) (j : nat) (c : cell) :
  all_text df → r ∈ rows df → r !! j = Some c → is_text c.
Proof.
  unfold all_text. rewrite Forall_forall. intros H Hr Hc.
  specialize (H r Hr). rewrite Forall_lookup in H. eauto.
Qed.

(** A loop over columns whose expression keeps text as text. *)
Lemma for_columns_ok (names : list string) (positions : list nat)
    (f : cell -> outcome cell) (g : cell -> cell) (df : DataFrame) :
  Forall2 (fun name j =>
             index_of name (columns df)
             = if decide (j < length (columns df)) then Some j else None)
          names positions →
  (∀ c, is_text c → f c = Ok (g c)) →
  (∀ c, is_text c → is_text (g c)) →
  rectangular df → all_text df →
  for_columns names f df
  = Ok (mkDataFrame (columns df)
          ((fun r => foldl (fun r j => alter g j r) r positions) <$> rows df)).
Proof.
  intros Hpos Hf Hg. revert positions df Hpos.
  induction names as [|name names IH]; intros positions df Hpos Hrect Htext.
  - inversion Hpos; subst. simpl. destruct df as [cols rs]; simpl.
    by rewrite list_fmap_id.
  - inversion Hpos as [|? j ? positions' Hj Hrest]; subst.
    rewrite for_columns_cons.
    rewrite (column_step name f g j df Hj Hrect).
    + simpl. rewrite (IH positions').
      * simpl. by rewrite <- list_fmap_compose.
      * done.
      * by apply rectangular_alter.
      * by apply all_text_alter.
    + intros r c Hr Hc. apply Hf. by eapply all_text_cell.
Qed.

Lemma numeric_expr_text (c : cell) :
  is_text c → numeric_expr c = Ok (numeric_value c).
Proof.
  destruct c as [[s|q]|]; simpl; intros H; [|done..].
  unfold numeric_expr. simpl. by destruct (parse_float _).
Qed.

Lemma date_expr_text (c : cell) : is_text c → date_expr c = Ok (date_value c).
Proof.
  destruct c as [[s|q]|]; simpl; intros H; [|done..].
  unfold date_value. destruct (decide (s = "0")) as [->|Hs].
  - by rewrite decide_True.
  - rewrite decide_False; [done|]. congruence.
Qed.

Lemma date_value_text (c : cell) : is_text c → is_text (date_value c).
Proof. unfold date_value. by case_decide. Qed.

Lemma country_expr_text (c : cell) :
  is_text c → country_expr c = Ok (country_value c).
Proof.
  destruct c as [[s|q]|]; simpl; intros H; [|done..].
  by repeat case_decide.
Qed.

Lemma country_value_text (c : cell) : is_text c → is_text (country_value c).
Proof. destruct c as [[s|q]|]; simpl; [|done..]. by case_decide. Qed.

(** ** Column names *)

Lemma default_columns_NoDup (w : nat) : NoDup (default_columns w).
Proof.
  unfold default_columns.
  apply (NoDup_fmap_2_strong (fun i => "column_" +:+ pretty (S i))).
  - intros i j _ _ H. apply (inj (String.app "column_")) in H.
    apply (inj pretty) in H. lia.
  - apply NoDup_seq.
Qed.

Lemma rename_by_position (cols new : list string) :
  NoDup cols → length cols = length new →
  (fun c => default c (dict_get (zip cols new) c)) <$> cols = new.
Proof.
  revert new. induction cols as [|c cols IH]; intros [|n new] Hnd Hlen;
    simplify_eq/=; [done|].
  inversion Hnd as [|? ? Hc Hnd']; subst.
  rewrite decide_True by done. simpl. f_equal.
  etrans; [|by apply (IH new Hnd')].
  apply list_fmap_ext. intros k c' Hc'. simpl.
  rewrite decide_False; [done|].
  intros ->. apply Hc. by eapply list_elem_of_lookup_2.
Qed.

Lemma rename_columns_default (df : DataFrame) (m : list string) (w : nat) :
  columns df = default_columns w →
  columns (rename_columns df m)
  = match m with
    | [] => default_columns w
    | _ :: _ => new_column_names m w
    end.
Proof.
  intros Hc. destruct m as [|n m]; simpl; [done|].
  rewrite Hc. unfold default_columns at 2. rewrite length_fmap, length_seq.
  apply rename_by_position.
  - apply default_columns_NoDup.
  - unfold default_columns, new_column_names.
    by rewrite !length_fmap, !length_seq.
Qed.

Lemma rename_columns_rows (df : DataFrame) (m : list string) :
  rows (rename_columns df m) = rows df.
Proof. by destruct m. Qed.

(** ** The transformer on a frame read from a file *)

Lemma catalog_mappings_good :
  Forall (fun kv => good_mapping kv.2 ∧ kv.2 ≠ []) COLUMN_MAPPINGS.
Proof.
  unfold COLUMN_MAPPINGS, good_mapping.
  repeat (apply Forall_cons; split;
          [split; [split; [by compute_done|by compute_done]|done]|]).
  apply Forall_nil_2.
Qed.

Lemma dict_get_elem {V} (d : list (string * V)) (k : string) (v : V) :
  dict_get d k = Some v → (k, v) ∈ d.
Proof.
  induction d as [|[k' v'] d IH]; simpl; [done|].
  case_decide as Hk; intros Hv; simplify_eq; [left|right; auto].
Qed.

Lemma catalog_mapping_good (ft : string) (m : list string) :
  dict_get COLUMN_MAPPINGS ft = Some m → good_mapping m ∧ m ≠ [].
Proof.
  intros H%dict_get_elem. pose proof catalog_mappings_good as G.
  rewrite Forall_forall in G. exact (G _ H).
Qed.

Lemma new_column_names_length (m : list string) (w : nat) :
  length (new_column_names m w) = w.
Proof. unfold new_column_names. by rewrite length_fmap, length_seq. Qed.

Lemma default_columns_length (w : nat) : length (default_columns w) = w.
Proof. unfold default_columns. by rewrite length_fmap, length_seq. Qed.

Lemma rename_columns_length (df : DataFrame) (m : list string) :
  length (columns (rename_columns df m)) = length (columns df).
Proof.
  destruct m; simpl; [done|]. by rewrite length_fmap.
Qed.

(** After the renaming step, a name of the mapping sits at its position
    when the frame is wide enough, and is absent otherwise. *)
Lemma renamed_frame (df : DataFrame) (ft : string) (m : list string) :
  raw_frame df → dict_get COLUMN_MAPPINGS ft = Some m →
  let df1 := rename_columns df m in
  (∀ name j, m !! j = Some name →
     index_of name (columns df1)
     = if decide (j < length (columns df1)) then Some j else None)
  ∧ rectangular df1 ∧ all_text df1.
Proof.
  intros ([w Hw] & Hrect & Htext) Hm.
  destruct (catalog_mapping_good ft m Hm) as [Hgood Hne].
  intros df1. split; [|split].
  - intros name j Hj. unfold df1.
    rewrite (rename_columns_default df m w Hw).
    destruct m as [|n m]; [done|].
    rewrite new_column_names_length. by apply new_names_index.
  - unfold rectangular, df1.
    rewrite rename_columns_rows, rename_columns_length. exact Hrect.
  - unfold all_text, df1. by rewrite rename_columns_rows.
Qed.

Lemma rectangular_fmap (g : list cell -> list cell) (cols : list string)
    (rs : list (list cell)) :
  (∀ r, length (g r) = length r) →
  rectangular (mkDataFrame cols rs) → rectangular (mkDataFrame cols (g <$> rs)).
Proof.
  unfold rectangular. simpl. intros Hg H. rewrite Forall_fmap.
  eapply Forall_impl; [exact H|]. intros r Hr. simpl. by rewrite Hg.
Qed.

Lemma all_text_fmap (g : list cell -> list cell) (cols : list string)
    (rs : list (list cell)) :
  (∀ r, Forall is_text r → Forall is_text (g r)) →
  all_text (mkDataFrame cols rs) → all_text (mkDataFrame cols (g <$> rs)).
Proof.
  unfold all_text. simpl. intros Hg H. rewrite Forall_fmap.
  eapply Forall_impl; [exact H|]. intros r Hr. simpl. by apply Hg.
Qed.

Lemma frame_eta (df : DataFrame) : mkDataFrame (columns df) (rows df) = df.
Proof. by destruct df. Qed.

Lemma for_columns_nil (expr : cell -> outcome cell) (df : DataFrame) :
  for_columns [] expr df = Ok df.
Proof. done. Qed.

Lemma bind_Ok {A B} (a : A) (k : A -> outcome B) : (Ok a ≫= k) = k a.
Proof. done. Qed.

Ltac positions_in_mapping H :=
  repeat (constructor; [by apply H|]); constructor.

(** The mapping of a file type that has one, as a variable. *)
Ltac name_mapping df ft Hraw m Hi Hr Ht :=
  let Em := fresh "Em" in
  remember (default [] (dict_get COLUMN_MAPPINGS ft)) as m eqn:Em;
  assert (dict_get COLUMN_MAPPINGS ft = Some m) as Hm
    by (subst m; reflexivity);
  destruct (renamed_frame df ft m Hraw Hm) as (Hi' & Hr & Ht);
  assert (∀ name j,
            default [] (dict_get COLUMN_MAPPINGS ft) !! j = Some name →
            index_of name (columns (rename_columns df m))
            = if decide (j < length (columns (rename_columns df m)))
              then Some j else None) as Hi
    by (rewrite <- Em; exact Hi');
  clear Hi' Hm Em.

(** On a frame read from a file the transformer does not raise, keeps
    every row, and rewrites each row by [transform_row]. *)
Lemma apply_transformations_raw (df : DataFrame) (ft : string) :
  raw_frame df → _apply_transformations df ft = Ok (transformed df ft).
Proof.
  intros Hraw. unfold _apply_transformations, transformed, transform_row.
  destruct (decide (ft = "EMPRECSV")) as [->|N1].
  { name_mapping df "EMPRECSV" Hraw m Hi Hr Ht.
    change (default [] (dict_get NUMERIC_COLUMNS "EMPRECSV"))
      with ["capital_social"].
    change (default [] (dict_get DATE_COLUMNS "EMPRECSV")) with (@nil string).
    rewrite for_columns_cons.
    rewrite (column_step _ _ numeric_value 4 _ (Hi _ 4 eq_refl) Hr).
    - rewrite bind_Ok, for_columns_nil, bind_Ok, for_columns_nil, bind_Ok.
      rewrite decide_False by done. simpl. by rewrite rename_columns_rows.
    - intros r c Hrow Hc. apply numeric_expr_text. by eapply all_text_cell. }
  destruct (decide (ft = "ESTABELE")) as [->|N2].
  { name_mapping df "ESTABELE" Hraw m Hi Hr Ht.
    change (default [] (dict_get NUMERIC_COLUMNS "ESTABELE")) with (@nil string).
    change (default [] (dict_get DATE_COLUMNS "ESTABELE"))
      with ["data_situacao_cadastral"; "data_inicio_atividade";
            "data_situacao_especial"].
    rewrite for_columns_nil, bind_Ok.
    rewrite (for_columns_ok _ [6; 10; 29] date_expr date_value);
      [|positions_in_mapping Hi|apply date_expr_text|apply date_value_text
       |done|done].
    rewrite bind_Ok. unfold _transform_country_codes.
    rewrite (column_step _ _ country_value 9).
    - simpl. rewrite <- list_fmap_compose. by rewrite rename_columns_rows.
    - simpl. by apply Hi.
    - apply rectangular_fmap; [|by rewrite frame_eta].
      intros r. simpl. by rewrite !length_alter.
    - intros r c Hrow Hc. apply country_expr_text.
      eapply all_text_cell; [|exact Hrow|exact Hc].
      apply all_text_fmap; [|by rewrite frame_eta].
      intros r' Hr'. simpl.
      by repeat apply Forall_alter_cell; auto using date_value_text. }
  destruct (decide (ft = "SIMPLESCSV")) as [->|N3].
  { name_mapping df "SIMPLESCSV" Hraw m Hi Hr Ht.
    change (default [] (dict_get NUMERIC_COLUMNS "SIMPLESCSV"))
      with (@nil string).
    change (default [] (dict_get DATE_COLUMNS "SIMPLESCSV"))
      with ["data_opcao_pelo_simples"; "data_exclusao_do_simples";
            "data_opcao_pelo_mei"; "data_exclusao_do_mei"].
    rewrite for_columns_nil, bind_Ok.
    rewrite (for_columns_ok _ [2; 3; 5; 6] date_expr date_value);
      [|positions_in_mapping Hi|apply date_expr_text|apply date_value_text
       |done|done].
    rewrite bind_Ok. simpl.
    by rewrite rename_columns_rows. }
  destruct (decide (ft = "SOCIOCSV")) as [->|N4].
  { name_mapping df "SOCIOCSV" Hraw m Hi Hr Ht.
    change (default [] (dict_get NUMERIC_COLUMNS "SOCIOCSV")) with (@nil string).
    change (default [] (dict_get DATE_COLUMNS "SOCIOCSV"))
      with ["data_entrada_sociedade"].
    rewrite for_columns_nil, bind_Ok.
    rewrite (for_columns_ok _ [5] date_expr date_value);
      [|positions_in_mapping Hi|apply date_expr_text|apply date_value_text
       |done|done].
    rewrite bind_Ok. simpl.
    by rewrite rename_columns_rows. }
  assert (dict_get NUMERIC_COLUMNS ft = None) as ->.
  { unfold NUMERIC_COLUMNS, dict_get. by rewrite !decide_False by congruence. }
  assert (dict_get DATE_COLUMNS ft = None) as ->.
  { unfold DATE_COLUMNS, dict_get. by rewrite !decide_False by congruence. }
  simpl.
  rewrite <- (rename_columns_rows df (default [] (dict_get COLUMN_MAPPINGS ft))).
  by rewrite list_fmap_id, frame_eta.
Qed.

(** ** Frames read from a file *)

Lemma fit_length (w : nat) (r : list cell) : length (fit w r) = w.
Proof.
  unfold fit. rewrite length_take, length_app, length_replicate. lia.
Qed.

Lemma fit_text (w : nat) (r : list cell) :
  Forall is_text r → Forall is_text (fit w r).
Proof.
  intros H. unfold fit. apply Forall_take, Forall_app. split; [done|].
  by apply Forall_replicate.
Qed.


Lemma parse_line_text (l : string) : Forall is_text (parse_line l).
Proof.
  unfold parse_line. apply Forall_fmap, Forall_forall. intros s _. simpl.
  unfold parse_field. by case_decide.
Qed.

Lemma frame_of_rows_raw (rs : list (list cell)) :
  Forall (Forall is_text) rs → raw_frame (frame_of_rows rs).
Proof.
  intros H. unfold frame_of_rows.
  set (w := match rs with [] => 0 | r :: _ => length r end).
  split; [by exists w|split].
  - unfold rectangular. simpl. rewrite default_columns_length.
    apply Forall_fmap, Forall_forall. intros r _. simpl. apply fit_length.
  - unfold all_text. simpl. apply Forall_fmap.
    eapply Forall_impl; [exact H|]. intros r Hr. simpl. by apply fit_text.
Qed.

Lemma read_csv_raw (content : string) (skip_rows : nat) (n_rows : option nat) :
  raw_frame (read_csv content skip_rows n_rows).
Proof.
  unfold read_csv. apply frame_of_rows_raw.
  assert (Forall (Forall is_text)
            (parse_line <$> drop skip_rows (csv_lines content))) as H.
  { apply Forall_fmap, Forall_forall. intros l _. apply parse_line_text. }
  destruct n_rows; [by apply Forall_take|done].
Qed.

(** The transformer on any window of any file: it returns, with every
    row of the window rewritten by [transform_row]. *)
Lemma apply_transformations_read (content : string) (skip_rows : nat)
    (n_rows : option nat) (ft : string) :
  _apply_transformations (read_csv content skip_rows n_rows) ft
  = Ok (transformed (read_csv content skip_rows n_rows) ft).
Proof. apply apply_transformations_raw, read_csv_raw. Qed.

Lemma transformed_height (df : DataFrame) (ft : string) :
  height (transformed df ft) = height df.
Proof. unfold height, transformed. simpl. by rewrite length_fmap. Qed.

Lemma transformed_row (df : DataFrame) (ft : string) (i : nat) (r : list cell) :
  rows df !! i = Some r →
  rows (transformed df ft) !! i = Some (transform_row ft r).
Proof. intros H. unfold transformed. simpl. by rewrite list_lookup_fmap, H. Qed.

Ltac lookup_alter :=
  repeat first [ rewrite list_lookup_alter_eq
               | rewrite list_lookup_alter_ne by lia ].

(** C6. Decimal coercion: in every numeric column of a category (the
    catalog lists it for the file type, the column mapping gives its
    position [j]), the transformer turns the text ["1234,56"] into the
    [Float64] number 1234.56, that is the binary64 number nearest to
    it, [m * 2 ^ -42] with a mantissa [m] of 53 bits, and text that is
    not a number, such as ["abc"], into null; whatever the cells hold,
    the transformation of the batch returns, keeps every row, rewrites
    the numeric cell of each row by that rule and leaves the other
    cells of the row as they are. *)
Theorem numeric_coercion (ft col : string) (cols : list string) (j : nat) :
  dict_get NUMERIC_COLUMNS ft = Some cols →
  col ∈ cols →
  default [] (dict_get COLUMN_MAPPINGS ft) !! j = Some col →
  (∃ m, numeric_value (Some (VStr "1234,56"))
        = Some (VFloat (S754_finite false m (-42)))
        ∧ (2 ^ 52 ≤ Z.pos m < 2 ^ 53)%Z
        ∧ (Z.abs (100 * Z.pos m - 123456 * 2 ^ 42) ≤ 50)%Z)
  ∧ numeric_value (Some (VStr "abc")) = None
  ∧ ∀ content skip_rows n_rows,
      let batch := read_csv content skip_rows n_rows in
      ∃ df, _apply_transformations batch ft = Ok df
            ∧ height df = height batch
            ∧ ∀ i r, rows batch !! i = Some r →
                ∃ r', rows df !! i = Some r'
                      ∧ r' !! j = numeric_value <$> r !! j
                      ∧ ∀ k, k ≠ j → r' !! k = r !! k.
Proof.
  intros Hcols Hcol Hj.
  split.
  { exists 5429652300748554%positive.
    split; [by vm_compute|]. split; [split|]; by vm_compute. }
  split; [by vm_compute|].
  intros content skip_rows n_rows batch.
  exists (transformed batch ft). split; [apply apply_transformations_read|].
  split; [apply transformed_height|].
  intros i r Hr. exists (transform_row ft r).
  split; [by apply transformed_row|].
  unfold NUMERIC_COLUMNS, dict_get in Hcols.
  repeat case_decide; simplify_eq; try by apply elem_of_nil in Hcol.
  apply list_elem_of_singleton in Hcol. subst col.
  assert (j = 4) as ->
    by (do 7 (destruct j as [|j]; [by simplify_eq/=|]); by simplify_eq/=).
  unfold transform_row. rewrite decide_True by done.
  split; [by lookup_alter|]. intros k Hk. by lookup_alter.
Qed.

Lemma numeric_coercion_witness :
  let batch := read_csv "1;ACME;2062;49;1234,56;05;
2;BETA;2062;49;abc;01;
3;GAMA;2062;49;9007199254740993,00;01;
4;DELTA;2062;49;inf;01;
" 0 None in
  ∃ df, _apply_transformations batch "EMPRECSV" = Ok df
        ∧ height df = 4
        ∧ ∃ r1 r2 r3 r4,
            rows df = [r1; r2; r3; r4]
            ∧ r1 !! 4
              = Some (Some (VFloat (S754_finite false 5429652300748554 (-42))))
            ∧ r2 !! 4 = Some None
            ∧ r3 !! 4
              = Some (Some (VFloat (S754_finite false 4503599627370496 1)))
            ∧ r4 !! 4 = Some (Some (VFloat (S754_infinity false))).
Proof.
  intros batch.
  destruct (numeric_coercion "EMPRECSV" "capital_social" ["capital_social"] 4
              eq_refl (list_elem_of_here _ _) eq_refl) as (_ & _ & H).
  destruct (H "1;ACME;2062;49;1234,56;05;
2;BETA;2062;49;abc;01;
3;GAMA;2062;49;9007199254740993,00;01;
4;DELTA;2062;49;inf;01;
" 0 None) as (df & Hdf & Hh & _).
  exists df. split; [exact Hdf|]. split; [exact Hh|].
  vm_compute in Hdf. injection Hdf as <-.
  eexists _, _, _, _. split; [reflexivity|]. repeat split; reflexivity.
Defined.

Ltac find_position j n :=
  assert (j = n) as ->
    by (do 30 (destruct j as [|j]; [by simplify_eq/=|]); by simplify_eq/=).

(** C7. Date sentinel: in every date column of a category (the catalog
    lists it for the file type, the column mapping gives its position
    [j]), the transformer turns the value ["0"] into null and passes
    every other value through unchanged. *)
Theorem date_sentinel (ft col : string) (cols : list string) (j : nat) :
  dict_get DATE_COLUMNS ft = Some cols →
  col ∈ cols →
  default [] (dict_get COLUMN_MAPPINGS ft) !! j = Some col →
  date_value (Some (VStr "0")) = None
  ∧ (∀ c, c ≠ Some (VStr "0") → date_value c = c)
  ∧ ∀ content skip_rows n_rows,
      let batch := read_csv content skip_rows n_rows in
      ∃ df, _apply_transformations batch ft = Ok df
            ∧ height df = height batch
            ∧ ∀ i r, rows batch !! i = Some r →
                ∃ r', rows df !! i = Some r'
                      ∧ r' !! j = date_value <$> r !! j.
Proof.
  intros Hcols Hcol Hj.
  split; [done|]. split.
  { intros c Hc. unfold date_value. by rewrite decide_False. }
  intros content skip_rows n_rows batch.
  exists (transformed batch ft). split; [apply apply_transformations_read|].
  split; [apply transformed_height|].
  intros i r Hr. exists (transform_row ft r).
  split; [by apply transformed_row|].
  unfold DATE_COLUMNS, dict_get in Hcols.
  repeat case_decide; simplify_eq;
    repeat (apply elem_of_cons in Hcol as [->|Hcol]);
    try (by apply elem_of_nil in Hcol).
  - find_position j 6. unfold transform_row.
    rewrite decide_False, decide_True by done. by lookup_alter.
  - find_position j 10. unfold transform_row.
    rewrite decide_False, decide_True by done. by lookup_alter.
  - find_position j 29. unfold transform_row.
    rewrite decide_False, decide_True by done. by lookup_alter.
  - find_position j 2. unfold transform_row.
    rewrite !decide_False, decide_True by done. by lookup_alter.
  - find_position j 3. unfold transform_row.
    rewrite !decide_False, decide_True by done. by lookup_alter.
  - find_position j 5. unfold transform_row.
    rewrite !decide_False, decide_True by done. by lookup_alter.
  - find_position j 6. unfold transform_row.
    rewrite !decide_False, decide_True by done. by lookup_alter.
  - find_position j 5. unfold transform_row.
    rewrite !decide_False, decide_True by done. by lookup_alter.
Qed.

Lemma date_sentinel_witness :
  let batch := read_csv "1;S;20070701;0;N;0;0
2;N;20180101;20191231;S;20200101;
" 0 None in
  ∃ df, _apply_transformations batch "SIMPLESCSV" = Ok df
        ∧ ∃ r1 r2, rows df = [r1; r2]
                   ∧ r1 !! 3 = Some None
                   ∧ r2 !! 3 = Some (Some (VStr "20191231")).
Proof.
  intros batch.
  destruct (date_sentinel "SIMPLESCSV" "data_exclusao_do_simples"
              [ "data_opcao_pelo_simples"; "data_exclusao_do_simples";
                "data_opcao_pelo_mei"; "data_exclusao_do_mei" ] 3
              eq_refl (list_elem_of_further _ _ _ (list_elem_of_here _ _))
              eq_refl) as (_ & _ & H).
  destruct (H "1;S;20070701;0;N;0;0
2;N;20180101;20191231;S;20200101;
" 0 None) as (df & Hdf & _).
  exists df. split; [exact Hdf|].
  vm_compute in Hdf. injection Hdf as <-.
  eexists _, _. split; [reflexivity|]. split; reflexivity.
Defined.

(** C8. Country-code padding: for the establishment category, whose
    country-code column [pais] is the tenth of the mapping, the
    transformer applied to a batch (any frame of text and nulls under
    the names of the reader, so that a cell may hold the empty string)
    returns and rewrites the cell of that column in every row: ["76"]
    becomes ["076"], the empty string and null stay as they are, and
    every other text is stripped and filled with zeros to three
    bytes.  The function [_transform_country_codes] does the same on
    any frame of text that has a column [pais], and returns a frame
    without that column as it is. *)
Theorem country_code_padding :
  default [] (dict_get COLUMN_MAPPINGS "ESTABELE") !! 9 = Some "pais"
  ∧ (∀ batch,
       raw_frame batch →
       ∃ df, _apply_transformations batch "ESTABELE" = Ok df
             ∧ height df = height batch
             ∧ ∀ i r, rows batch !! i = Some r →
                 ∃ r', rows df !! i = Some r'
                       ∧ r' !! 9 = country_value <$> r !! 9
                       ∧ (r !! 9 = Some (Some (VStr "76")) →
                          r' !! 9 = Some (Some (VStr "076")))
                       ∧ (r !! 9 = Some (Some (VStr EmptyString)) →
                          r' !! 9 = Some (Some (VStr EmptyString)))
                       ∧ (r !! 9 = Some None → r' !! 9 = Some None))
  ∧ (∀ df i,
       index_of "pais" (columns df) = Some i → all_text df →
       _transform_country_codes df
       = Ok (mkDataFrame (columns df) (alter country_value i <$> rows df)))
  ∧ (∀ df, index_of "pais" (columns df) = None →
           _transform_country_codes df = Ok df)
  ∧ _transform_country_codes
      (mkDataFrame ["cnpj_basico"; "pais"]
         [ [Some (VStr "1"); Some (VStr "76")];
           [Some (VStr "2"); Some (VStr EmptyString)];
           [Some (VStr "3"); None];
           [Some (VStr "4"); Some (VStr " 1058 ")] ])
    = Ok (mkDataFrame ["cnpj_basico"; "pais"]
            [ [Some (VStr "1"); Some (VStr "076")];
              [Some (VStr "2"); Some (VStr EmptyString)];
              [Some (VStr "3"); None];
              [Some (VStr "4"); Some (VStr "1058")] ]).
Proof.
  split; [done|]. split; [|split; [|split; [|by vm_compute]]].
  - intros batch Hraw. exists (transformed batch "ESTABELE").
    split; [by apply apply_transformations_raw|].
    split; [apply transformed_height|].
    intros i r Hr. exists (transform_row "ESTABELE" r).
    split; [by apply transformed_row|].
    assert (transform_row "ESTABELE" r !! 9 = country_value <$> r !! 9) as E.
    { unfold transform_row. rewrite decide_False, decide_True by done.
      by lookup_alter. }
    split; [done|].
    unfold cell in *.
    split; [|split]; intros Hc; (etrans; [exact E|]); by rewrite Hc.
  - intros df i Hi Htext. unfold _transform_country_codes.
    rewrite has_column_index, Hi, bool_decide_eq_true_2 by (by eexists).
    apply with_columns_ok; [done|].
    intros r c Hr Hc. apply country_expr_text. by eapply all_text_cell.
  - intros df Hi. unfold _transform_country_codes.
    rewrite has_column_index, Hi, bool_decide_eq_false_2; [done|].
    by intros [? ?].
Qed.

(** ** The storage adapter *)

(** C10. [bulk_upsert] of a frame without rows into any table returns
    the adapter as it was: no connection is opened, no statement is
    executed, no table changes. *)
Theorem bulk_upsert_empty_frame (df : DataFrame) (table : string)
    (a : SQLiteAdapter) :
  height df = 0 →
  bulk_upsert df table a = a
  ∧ executed (bulk_upsert df table a) = executed a
  ∧ tables (bulk_upsert df table a) = tables a
  ∧ conn (bulk_upsert df table a) = conn a.
Proof.
  intros H. unfold bulk_upsert. by rewrite decide_True.
Qed.

Lemma bulk_upsert_empty_frame_witness :
  let a := mkAdapter false (fun _ => ["codigo"])
             {[ "motivos" := [[("codigo", Some (VStr "01"));
                               ("descricao", Some (VStr "EXTINCAO"))]] ]}
             [] in
  bulk_upsert (mkDataFrame ["codigo"; "descricao"] []) "motivos" a = a.
Proof.
  intros a.
  exact (proj1 (bulk_upsert_empty_frame
                  (mkDataFrame ["codigo"; "descricao"] []) "motivos" a
                  eq_refl)).
Defined.

(** ** The encoding normalizer *)

Lemma cleanup_handler_removes {A} (body : M A) (output_file : string)
    (w w' : World) (e : exn) :
  try_except body
    (fun e => _u <- unlink_if_exists output_file ;; raise e) w
  = Some (Raise e, w') →
  fs w' !! output_file = None.
Proof.
  unfold try_except. destruct (body w) as [[[a|e0] w0]|]; [done| |done].
  unfold bind, unlink_if_exists, raise.
  destruct (fs w0 !! output_file) eqn:E; intros H; simplify_eq/=.
  - apply lookup_delete_eq.
  - done.
Qed.

(** C9. When the input file is there and the conversion raises, be it
    at the opening of a file, at the k-th read or at the k-th write
    after part of the output was written, the caller gets the exception
    in a world where the output file does not exist. *)
Theorem conversion_failure_removes_output (env : Env) (config : Config)
    (input_file : string) (output_file : option string) (w w' : World)
    (e : exn) :
  is_Some (fs w !! input_file) →
  _convert_file_encoding_chunked env config input_file output_file w
  = Some (Raise e, w') →
  fs w' !! default (fresh (dom (fs w))) output_file = None.
Proof.
  intros [content Hin]. unfold _convert_file_encoding_chunked.
  destruct output_file as [p|]; simpl.
  - unfold bind at 1. unfold ret at 1.
    unfold bind at 1. unfold _get_file_size_mb at 1. rewrite Hin.
    apply cleanup_handler_removes.
  - unfold bind at 1. unfold mkstemp at 1.
    unfold bind at 1. unfold _get_file_size_mb at 1. simpl.
    assert (fresh (dom (fs w)) ≠ input_file) as Hne.
    { intros <-. apply (is_fresh (dom (fs w))).
      apply elem_of_dom. by exists content. }
    rewrite lookup_insert_ne, Hin by done.
    apply cleanup_handler_removes.
Qed.

Lemma conversion_failure_removes_output_witness :
  let env := mkEnv (fun ev => match ev with
                              | WriteChunk 1 => Some (OSError "ENOSPC")
                              | _ => None
                              end)
                   None (Ok None) (Ok None) upper in
  let config := mkConfig false 4 1 in
  let w := mkWorld {[ "in.csv" := "ab;cd
ef;gh
" ]} (mkAdapter false (fun _ => []) ∅ []) [] in
  ∃ w', _convert_file_encoding_chunked env config "in.csv" (Some "out.csv") w
        = Some (Raise (OSError "ENOSPC"), w')
        ∧ fs w' !! "out.csv" = None.
Proof.
  intros env config w. eexists. split.
  - vm_compute. reflexivity.
  - apply (conversion_failure_removes_output env config "in.csv"
             (Some "out.csv") w _ (OSError "ENOSPC")).
    + eexists. reflexivity.
    + vm_compute. reflexivity.
Defined.

(** ** The chunked loader *)

Lemma height_read_csv (content : string) (skip_rows n : nat) :
  height (read_csv content skip_rows (Some n))
  = n `min` (row_count content - skip_rows).
Proof.
  unfold height, read_csv, frame_of_rows, row_count. simpl.
  by rewrite length_fmap, length_take, length_fmap, length_drop.
Qed.

Lemma div_exact (cs k : nat) : 0 < cs → k * cs / cs = k.
Proof. intros H. apply Nat.div_mul. lia. Qed.

Lemma div_between (cs k n : nat) :
  k * cs < n → n < k * cs + cs → n / cs = k ∧ n mod cs ≠ 0.
Proof.
  intros H1 H2.
  assert (n / cs = k) as Hq.
  { symmetry. apply (Nat.div_unique n cs k (n - k * cs)); lia. }
  split; [done|].
  pose proof (Nat.div_mod_eq n cs) as E. rewrite Hq in E. lia.
Qed.

Lemma div_at_least (cs k n : nat) : 0 < cs → k * cs + cs ≤ n → S k ≤ n / cs.
Proof.
  intros Hcs H. apply Nat.div_le_lower_bound; lia.
Qed.

Lemma mod_full (cs k : nat) : (k * cs + cs) mod cs = 0.
Proof.
  destruct cs as [|cs]; [by rewrite Nat.mul_0_r|].
  replace (k * S cs + S cs) with (S k * S cs) by lia.
  by apply Nat.Div0.mod_mul.
Qed.

Lemma bulk_upsert_no_rows (df : DataFrame) (table : string) (a : SQLiteAdapter) :
  height df = 0 → bulk_upsert df table a = a.
Proof. intros H. unfold bulk_upsert. by rewrite decide_True. Qed.

Lemma loop_result_eq (a b c a' b' c' : nat) (W W' : World) :
  a = a' → b = b' → c = c' → W = W' →
  Some (Ok (mkLoop a b c), W) = Some (Ok (mkLoop a' b' c'), W').
Proof. by intros -> -> -> ->. Qed.

Lemma rows_read_parsed (content : string) (skip_rows : nat)
    (n_rows : option nat) :
  rows_read content skip_rows n_rows
  = match n_rows with
    | Some n => take n (drop skip_rows (parsed_rows content))
    | None => drop skip_rows (parsed_rows content)
    end.
Proof. unfold rows_read, parsed_rows. by rewrite fmap_drop. Qed.

Lemma uniform_rows_read (content : string) (skip_rows wd : nat)
    (n_rows : option nat) :
  Forall (fun r => length r = wd) (parsed_rows content) →
  Forall (fun r => length r = wd) (rows_read content skip_rows n_rows).
Proof.
  intros H. rewrite rows_read_parsed.
  destruct n_rows; [apply Forall_take|]; by apply Forall_drop.
Qed.

Lemma uniform_no_longer_row (rs : list (list cell)) (wd : nat) :
  Forall (fun r => length r = wd) rs → has_longer_row rs = false.
Proof.
  intros H. destruct rs as [|r0 rs]; [done|].
  unfold has_longer_row. apply bool_decide_eq_false.
  rewrite Exists_exists. intros (r & Hr & Hlt).
  rewrite Forall_forall in H.
  pose proof (H r0 (list_elem_of_here _ _)). pose proof (H r Hr). lia.
Qed.

(** A read that has rows to read, none longer than another, returns
    them; a read without rows raises. *)
Lemma read_csv_file_rows (file_path content : string) (skip_rows wd : nat)
    (n_rows : option nat) (w : World) :
  fs w !! file_path = Some content →
  Forall (fun r => length r = wd) (parsed_rows content) →
  height (read_csv content skip_rows n_rows) ≠ 0 →
  read_csv_file file_path skip_rows n_rows w
  = Some (Ok (read_csv content skip_rows n_rows),
          after_read file_path skip_rows n_rows content w).
Proof.
  intros Hfs Hu Hh. unfold read_csv_file. rewrite Hfs. cbn zeta.
  rewrite decide_False by done.
  by rewrite (uniform_no_longer_row _ wd)
    by (by apply uniform_rows_read).
Qed.

Lemma read_csv_file_no_rows (file_path content : string) (skip_rows : nat)
    (n_rows : option nat) (w : World) :
  fs w !! file_path = Some content →
  height (read_csv content skip_rows n_rows) = 0 →
  read_csv_file file_path skip_rows n_rows w
  = Some (Raise (PolarsError "NoDataError"), w).
Proof.
  intros Hfs Hh. unfold read_csv_file. rewrite Hfs. cbn zeta.
  by rewrite decide_True.
Qed.

Lemma windows_of_full (n cs k : nat) :
  0 < cs → k * cs + cs ≤ n → S k ≤ windows_of n cs.
Proof.
  intros Hcs H. pose proof (div_at_least cs k n Hcs H).
  unfold windows_of. case_decide; lia.
Qed.

Lemma loop_outcome_eq (b : bool) (e : exn) (st st' : loop_state)
    (W W' : World) :
  st = st' → W = W' →
  Some (if b then Raise e else Ok st, W)
  = Some (if b then Raise e else Ok st', W').
Proof. by intros -> ->. Qed.

(** The loop, entered at the start of window [k] with fuel for the
    windows that remain, on a file whose rows all have the same number
    of fields: it reads every remaining window that has rows once, in
    order, and upserts each one transformed.  It returns after a window
    that is not full; when the last window with rows is full, that is
    when the number of rows is a multiple of the window size, the next
    read has no row to read and raises. *)
Lemma chunk_loop_from (fuel chunk_size k wd : nat)
    (file_path file_type table_name content : string) (st : loop_state)
    (w : World) :
  0 < chunk_size →
  fs w !! file_path = Some content →
  Forall (fun r => length r = wd) (parsed_rows content) →
  k * chunk_size ≤ row_count content →
  offset st = k * chunk_size →
  row_count content / chunk_size - k < fuel →
  let n := row_count content in
  let m := windows_of n chunk_size - k in
  let ks := seq k m in
  chunk_loop fuel chunk_size file_path file_type table_name st w
  = Some (if bool_decide (n mod chunk_size = 0)
          then Raise (PolarsError "NoDataError")
          else Ok (mkLoop n (batch_num st + m)
                          (total_processed st + (n - k * chunk_size))),
          mkWorld (fs w)
            (upsert_windows content file_type table_name chunk_size ks (db w))
            (reads w ++ (window_read file_path content chunk_size <$> ks))).
Proof.
  intros Hcs. revert k st w.
  induction fuel as [|fuel IH]; intros k st w Hfs Hu Hk Hoff Hfuel n m ks;
    [lia|].
  subst ks m. unfold n in *. clear n. set (n := row_count content) in *.
  pose proof (height_read_csv content (k * chunk_size) chunk_size) as Hh.
  fold (window content chunk_size k) in Hh. fold n in Hh.
  cbn [chunk_loop]. unfold bind at 1. rewrite Hoff.
  destruct (decide (height (window content chunk_size k) = 0)) as [H0|H0].
  - rewrite (read_csv_file_no_rows _ content) by done.
    assert (n = k * chunk_size) as Hn by lia.
    assert (n mod chunk_size = 0) as Hm
      by (rewrite Hn; apply Nat.Div0.mod_mul).
    assert (n / chunk_size = k) as Hq by (rewrite Hn; by apply div_exact).
    unfold windows_of. rewrite decide_True by done.
    rewrite bool_decide_eq_true_2 by done.
    rewrite Hq, Nat.sub_diag. simpl. rewrite app_nil_r. by destruct w.
  - rewrite (read_csv_file_rows _ content _ wd) by done.
    fold (window content chunk_size k).
    rewrite decide_False by done.
    unfold window at 1. rewrite apply_transformations_read.
    fold (window content chunk_size k).
    unfold bind at 1. unfold lift at 1.
    unfold bind at 1. unfold on_db at 1. unfold after_read.
    cbn [db fs reads]. rewrite transformed_height.
    fold (window content chunk_size k).
    destruct (decide (height (window content chunk_size k) = chunk_size))
      as [Hfull|Hpart].
    + rewrite Hfull. rewrite decide_False by (rewrite mod_full; lia).
      assert (k * chunk_size + chunk_size ≤ n) as Hnext by lia.
      pose proof (div_at_least chunk_size k n Hcs Hnext) as Hq.
      pose proof (windows_of_full n chunk_size k Hcs Hnext) as Hw.
      rewrite (IH (S k)); cbn [fs db reads offset batch_num total_processed];
        [|done|done|lia|lia|lia].
      fold n.
      replace (windows_of n chunk_size - k)
        with (S (windows_of n chunk_size - S k)) by lia.
      cbn [seq fmap list_fmap upsert_windows foldl].
      unfold window_read at 2. fold (window content chunk_size k).
      rewrite Hfull, <- app_assoc.
      apply loop_outcome_eq; [|done]. f_equal; lia.
    + assert (height (window content chunk_size k) = n - k * chunk_size)
        as Hrest by lia.
      destruct (div_between chunk_size k n) as [Hq Hm]; [lia..|].
      rewrite Hrest.
      replace (k * chunk_size + (n - k * chunk_size)) with n by lia.
      rewrite decide_True by done.
      unfold windows_of. rewrite decide_False by done.
      rewrite bool_decide_eq_false_2 by done.
      rewrite Hq. replace (k + 1 - k) with 1 by lia.
      unfold ret. cbn [seq fmap list_fmap upsert_windows foldl].
      unfold window_read. fold (window content chunk_size k).
      rewrite Hrest. by rewrite Nat.add_1_r.
Qed.



Lemma height_0_rows (df : DataFrame) : height df = 0 → rows df = [].
Proof. unfold height. by destruct (rows df). Qed.



Lemma bind_length_ext {A B C} (f : A -> list B) (g : A -> list C)
    (l : list A) :
  (∀ x, length (f x) = length (g x)) → length (l ≫= f) = length (l ≫= g).
Proof.
  intros H. induction l as [|x l IH]; [done|].
  by rewrite !bind_cons, !length_app, H, IH.
Qed.


(** ** The reference reconciler *)

Lemma flagged_category (ft : string) (cfg : enhancement) :
  dict_get REFERENCE_ENHANCEMENTS ft = Some cfg →
  (ft = "MOTICSV" ∧ cfg = mkEnhancement Serpro "motivos" "codigo")
  ∨ (ft = "PAISCSV" ∧ cfg = mkEnhancement Hardcoded "paises" "codigo").
Proof.
  unfold REFERENCE_ENHANCEMENTS, dict_get.
  intros Hcfg. repeat case_decide; simplify_eq; auto.
Qed.

(** The enhancement in terms of the source of the category. *)
Lemma enhance_reference_data_flagged (env : Env) (ft : string)
    (cfg : enhancement) (df : option DataFrame) (dbh : option db_handle)
    (table : string) :
  dict_get REFERENCE_ENHANCEMENTS ft = Some cfg →
  _enhance_reference_data env ft df dbh table
  = enhance_with env
      (fun env codes => diff_reference_data (source_of env (source cfg)) codes)
      df dbh table.
Proof.
  intros H. unfold _enhance_reference_data. rewrite H.
  by destruct (flagged_category ft cfg H) as [[-> ->]|[-> ->]].
Qed.


Lemma filter_none {A} (P : A -> Prop) `{∀ x, Decision (P x)} (l : list A) :
  (∀ x, x ∈ l → ¬ P x) → filter P l = [].
Proof.
  induction l as [|x l IH]; intros Hl; [done|].
  rewrite filter_cons, decide_False by (apply Hl; left).
  apply IH. intros y Hy. apply Hl. by right.
Qed.

Lemma NoDup_fst_filter {A B} (P : A * B -> Prop) `{∀ x, Decision (P x)}
    (l : list (A * B)) :
  NoDup l.*1 → NoDup (filter P l).*1.
Proof.
  induction l as [|x l IH]; intros Hl; [done|].
  rewrite fmap_cons in Hl. apply NoDup_cons in Hl as [Hx Hl].
  rewrite filter_cons. case_decide; [|by apply IH].
  rewrite fmap_cons. apply NoDup_cons. split; [|by apply IH].
  intros Hin. apply Hx.
  apply list_elem_of_fmap in Hin as (y & -> & Hy).
  apply list_elem_of_filter in Hy as [_ Hy].
  apply list_elem_of_fmap. by exists y.
Qed.

Lemma missing_codes_spec (ext : gmap string string) (existing : list cell)
    (c d : string) :
  (c, d) ∈ missing_codes ext existing
  ↔ ext !! c = Some d ∧ Some (VStr c) ∉ existing.
Proof.
  unfold missing_codes. rewrite list_elem_of_filter, elem_of_map_to_list.
  simpl. tauto.
Qed.

Lemma missing_codes_NoDup (ext : gmap string string) (existing : list cell) :
  NoDup (missing_codes ext existing).*1.
Proof. apply NoDup_fst_filter, NoDup_fst_map_to_list. Qed.

(** Once the missing codes are among the existing ones, nothing is
    missing. *)
Lemma missing_codes_again (ext : gmap string string)
    (existing existing' : list cell) :
  (∀ c, c ∈ existing → c ∈ existing') →
  (∀ kv, kv ∈ missing_codes ext existing → Some (VStr kv.1) ∈ existing') →
  missing_codes ext existing' = [].
Proof.
  intros Hsub Hnew. unfold missing_codes at 1. apply filter_none.
  intros kv Hkv Hnot. apply Hnot.
  destruct (decide (Some (VStr kv.1) ∈ existing)) as [Hin|Hout].
  - by apply Hsub.
  - apply Hnew. unfold missing_codes. by apply list_elem_of_filter.
Qed.

Lemma frame_codes_code_rows (l : list (string * string)) :
  frame_codes (code_row <$> l) = (fun kv => Some (VStr kv.1)) <$> l.
Proof. unfold frame_codes. by rewrite <- list_fmap_compose. Qed.

Lemma enhance_df_mode (env : Env)
    (diff : Env -> list cell -> outcome (option DataFrame))
    (ext : gmap string string) (df : DataFrame) (table : string) (w : World) :
  reference_import env = None →
  (∀ codes, diff env codes = diff_reference_data (Ok (Some ext)) codes) →
  columns df = ["codigo"; "descricao"] →
  enhance_with env diff (Some df) None table w
  = Some (Ok (Some (mkDataFrame (columns df)
                      (rows df ++ (code_row <$>
                                     missing_codes ext (frame_codes (rows df)))))),
          w).
Proof.
  intros Himp Hdiff Hcols.
  unfold enhance_with, try_except, bind, import_reference_data, lift, ret.
  rewrite Himp. simpl. unfold column_to_list. rewrite Hcols. simpl.
  rewrite Hdiff. simpl. fold (frame_codes (rows df)).
  set (mc := missing_codes ext (frame_codes (rows df))).
  case_decide as Hh.
  - unfold concat. simpl. rewrite Hcols. by rewrite decide_True.
  - simpl. assert (mc = []) as ->.
    { destruct mc; [done|]. unfold height in Hh. simpl in Hh. lia. }
    simpl. rewrite app_nil_r, <- Hcols. by rewrite frame_eta.
Qed.

Lemma natural_key_bulk_upsert (df : DataFrame) (table : string)
    (a : SQLiteAdapter) :
  natural_key (bulk_upsert df table a) = natural_key a.
Proof.
  unfold bulk_upsert. case_decide; [done|]. simpl.
  unfold connect. by destruct (conn a).
Qed.

Lemma table_rows_connect (a : SQLiteAdapter) (table : string) :
  table_rows (connect a) table = table_rows a table.
Proof. unfold connect. by destruct (conn a). Qed.

Lemma natural_key_connect (a : SQLiteAdapter) :
  natural_key (connect a) = natural_key a.
Proof. unfold connect. by destruct (conn a). Qed.

(** The rows of the written table after a bulk upsert: the rows of the
    frame are inserted one after the other. *)
Lemma table_rows_bulk_upsert (df : DataFrame) (table : string)
    (a : SQLiteAdapter) :
  table_rows (bulk_upsert df table a) table
  = foldl (insert_or_replace (natural_key a table)) (table_rows a table)
          (zip (columns df) <$> rows df).
Proof.
  unfold bulk_upsert. case_decide as Hh.
  - by rewrite (height_0_rows _ Hh).
  - unfold executemany_insert, table_rows at 1. simpl.
    rewrite lookup_insert_eq. simpl.
    by rewrite natural_key_connect, table_rows_connect.
Qed.

Lemma table_rows_bulk_upsert_ne (df : DataFrame) (table table' : string)
    (a : SQLiteAdapter) :
  table ≠ table' →
  table_rows (bulk_upsert df table a) table' = table_rows a table'.
Proof.
  intros Hne. unfold bulk_upsert. case_decide as Hh; [done|].
  unfold executemany_insert, table_rows at 1. simpl.
  rewrite lookup_insert_ne by done. apply table_rows_connect.
Qed.

Lemma enhance_db_mode (env : Env)
    (diff : Env -> list cell -> outcome (option DataFrame))
    (ext : gmap string string) (table : string) (w : World) :
  reference_import env = None →
  (∀ codes, diff env codes = diff_reference_data (Ok (Some ext)) codes) →
  enhance_with env diff None (Some TheAdapter) table w
  = Some (Ok None,
          mkWorld (fs w) (reconcile_db ext table (db w)) (reads w)).
Proof.
  intros Himp Hdiff.
  unfold enhance_with, try_except, bind, import_reference_data, lift, ret,
    on_db, reconcile_db.
  rewrite Himp. simpl. rewrite Hdiff. simpl.
  by case_decide.
Qed.

Lemma table_rows_reconcile_db (ext : gmap string string) (table : string)
    (a : SQLiteAdapter) :
  table_rows (reconcile_db ext table a) table
  = foldl (insert_or_replace (natural_key a table)) (table_rows a table)
      (zip ["codigo"; "descricao"]
         <$> (code_row <$>
                missing_codes ext (stored_codes (table_rows a table)))).
Proof.
  unfold reconcile_db. simpl. fold (stored_codes (table_rows a table)).
  set (mc := missing_codes ext (stored_codes (table_rows a table))).
  case_decide as Hh.
  - unfold select_count. simpl. unfold table_rows at 1. simpl.
    fold (table_rows
            (bulk_upsert (mkDataFrame ["codigo"; "descricao"] (code_row <$> mc))
               table
               (mkAdapter (conn a) (natural_key a) (tables a)
                  (executed a ++ [SelectCodigo table]))) table).
    by rewrite table_rows_bulk_upsert.
  - assert (mc = []) as ->.
    { destruct mc; [done|]. unfold height in Hh. simpl in Hh. lia. }
    done.
Qed.

Lemma natural_key_reconcile_db (ext : gmap string string) (table : string)
    (a : SQLiteAdapter) :
  natural_key (reconcile_db ext table a) = natural_key a.
Proof.
  unfold reconcile_db. simpl. case_decide; [|done].
  unfold select_count. simpl. by rewrite natural_key_bulk_upsert.
Qed.


(** With the code as natural key, the codes stored after inserting
    rows are the codes stored before and the codes of the new rows. *)
Lemma stored_codes_insert (t : list record) (r : record) (c : cell) :
  c ∈ stored_codes (insert_or_replace ["codigo"] t r)
  ↔ c ∈ stored_codes t ∨ c = field r "codigo".
Proof.
  unfold insert_or_replace, stored_codes, key_of. simpl.
  rewrite fmap_app, elem_of_app. simpl. rewrite list_elem_of_singleton.
  rewrite !list_elem_of_fmap. split.
  - intros [(r' & -> & Hr') | ->]; [|by right].
    apply list_elem_of_filter in Hr' as [_ Hr']. left. by exists r'.
  - intros [(r' & -> & Hr') | ->]; [|by right].
    destruct (decide (field r' "codigo" = field r "codigo")) as [E|N].
    + by right.
    + left. exists r'. split; [done|]. apply list_elem_of_filter.
      split; [|done]. congruence.
Qed.

Lemma stored_codes_foldl (t : list record) (rs : list record) (c : cell) :
  c ∈ stored_codes (foldl (insert_or_replace ["codigo"]) t rs)
  ↔ c ∈ stored_codes t ∨ c ∈ stored_codes rs.
Proof.
  revert t. induction rs as [|r rs IH]; intros t.
  - split; [by left|]. intros [?|H]; [done|by apply elem_of_nil in H].
  - change (foldl (insert_or_replace ["codigo"]) t (r :: rs))
      with (foldl (insert_or_replace ["codigo"])
              (insert_or_replace ["codigo"] t r) rs).
    rewrite IH, stored_codes_insert.
    change (stored_codes (r :: rs)) with (field r "codigo" :: stored_codes rs).
    rewrite elem_of_cons. tauto.
Qed.

Lemma stored_codes_code_rows (l : list (string * string)) :
  stored_codes (zip ["codigo"; "descricao"] <$> (code_row <$> l))
  = (fun kv => Some (VStr kv.1)) <$> l.
Proof.
  unfold stored_codes. rewrite <- !list_fmap_compose.
  apply list_fmap_ext. by intros i [c d] _.
Qed.

Lemma reconcile_db_nothing_missing (ext : gmap string string) (table : string)
    (a : SQLiteAdapter) :
  missing_codes ext (stored_codes (table_rows a table)) = [] →
  tables (reconcile_db ext table a) = tables a.
Proof.
  intros H. unfold reconcile_db. simpl.
  fold (stored_codes (table_rows a table)). by rewrite H.
Qed.

(** C5. Reconciliation of a flagged category whose source gives the
    code list [ext].  The codes to add are exactly those of [ext] that
    are not among the existing ones, none of them twice: from the
    existing codes A, B and the list A, B, C only C is to be added.
    On a frame of codes and descriptions (whole-file mode) the
    enhancement appends these rows and nothing else, and a second
    enhancement of the result returns it unchanged.  On a table keyed
    by the code (database mode) the enhancement inserts these rows, and
    a second enhancement leaves every table as it is. *)
Theorem reconciliation_idempotent (env : Env) (ft : string)
    (cfg : enhancement) (ext : gmap string string) (table : string) :
  dict_get REFERENCE_ENHANCEMENTS ft = Some cfg →
  reference_import env = None →
  source_of env (source cfg) = Ok (Some ext) →
  (∀ existing c d,
     (c, d) ∈ missing_codes ext existing
     ↔ ext !! c = Some d ∧ Some (VStr c) ∉ existing)
  ∧ (∀ existing, NoDup (missing_codes ext existing).*1)
  ∧ missing_codes (<["A" := "a"]> (<["B" := "b"]> {[ "C" := "c" ]}))
      [Some (VStr "A"); Some (VStr "B")]
    = [("C", "c")]
  ∧ (∀ df w,
       columns df = ["codigo"; "descricao"] →
       let df1 :=
         mkDataFrame (columns df)
           (rows df ++ (code_row <$>
                          missing_codes ext (frame_codes (rows df)))) in
       _enhance_reference_data env ft (Some df) None table w
       = Some (Ok (Some df1), w)
       ∧ _enhance_reference_data env ft (Some df1) None table w
         = Some (Ok (Some df1), w))
  ∧ (∀ w,
       natural_key (db w) table = ["codigo"] →
       ∃ w1 w2,
         _enhance_reference_data env ft None (Some TheAdapter) table w
         = Some (Ok None, w1)
         ∧ table_rows (db w1) table
           = foldl (insert_or_replace ["codigo"]) (table_rows (db w) table)
               (zip ["codigo"; "descricao"]
                  <$> (code_row <$>
                         missing_codes ext
                           (stored_codes (table_rows (db w) table))))
         ∧ _enhance_reference_data env ft None (Some TheAdapter) table w1
           = Some (Ok None, w2)
         ∧ tables (db w2) = tables (db w1)).
Proof.
  intros Hcfg Himp Hsrc.
  split; [intros; apply missing_codes_spec|].
  split; [intros; apply missing_codes_NoDup|].
  split; [by vm_compute|].
  assert (∀ codes,
            (fun env codes =>
               diff_reference_data (source_of env (source cfg)) codes)
              env codes
            = diff_reference_data (Ok (Some ext)) codes) as Hdiff
    by (intros codes; simpl; by rewrite Hsrc).
  split.
  - intros df w Hcols df1.
    rewrite !(enhance_reference_data_flagged env ft cfg _ _ table Hcfg).
    split.
    + by apply enhance_df_mode.
    + rewrite (enhance_df_mode env _ ext df1 table w Himp Hdiff Hcols).
      assert (missing_codes ext (frame_codes (rows df1)) = []) as ->;
        [|simpl; by rewrite app_nil_r].
      apply (missing_codes_again ext (frame_codes (rows df))).
      * intros c Hc. unfold df1, frame_codes. simpl.
        rewrite fmap_app. apply elem_of_app. by left.
      * intros kv Hkv. unfold df1. simpl. unfold frame_codes.
        rewrite fmap_app. apply elem_of_app. right.
        fold (frame_codes
                (code_row <$> missing_codes ext (frame_codes (rows df)))).
        rewrite frame_codes_code_rows. apply list_elem_of_fmap.
        by exists kv.
  - intros w Hkey.
    eexists _, _.
    rewrite !(enhance_reference_data_flagged env ft cfg _ _ table Hcfg).
    split; [by apply enhance_db_mode|]. simpl.
    split; [by rewrite table_rows_reconcile_db, Hkey|].
    split; [by apply enhance_db_mode|]. simpl.
    apply reconcile_db_nothing_missing.
    apply (missing_codes_again ext
             (stored_codes (table_rows (db w) table))).
    + intros c Hc. rewrite table_rows_reconcile_db, Hkey.
      apply stored_codes_foldl. by left.
    + intros kv Hkv. rewrite table_rows_reconcile_db, Hkey.
      apply stored_codes_foldl. right.
      rewrite stored_codes_code_rows. apply list_elem_of_fmap.
      by exists kv.
Qed.

Lemma reconciliation_idempotent_witness :
  let ext : gmap string string :=
    <["A" := "a"]> (<["B" := "b"]> {[ "C" := "c" ]}) in
  let env := mkEnv (fun _ => None) None (Ok (Some ext)) (Ok None) upper in
  let df := mkDataFrame ["codigo"; "descricao"]
              [ [Some (VStr "A"); Some (VStr "a")];
                [Some (VStr "B"); Some (VStr "b")] ] in
  let w := mkWorld ∅ (mkAdapter false (fun _ => ["codigo"]) ∅ []) [] in
  ∃ df1,
    _enhance_reference_data env "MOTICSV" (Some df) None "motivos" w
    = Some (Ok (Some df1), w)
    ∧ rows df1 = [ [Some (VStr "A"); Some (VStr "a")];
                   [Some (VStr "B"); Some (VStr "b")];
                   [Some (VStr "C"); Some (VStr "c")] ]
    ∧ _enhance_reference_data env "MOTICSV" (Some df1) None "motivos" w
      = Some (Ok (Some df1), w).
Proof.
  intros ext env df w.
  destruct (reconciliation_idempotent env "MOTICSV"
              (mkEnhancement Serpro "motivos" "codigo") ext "motivos"
              eq_refl eq_refl eq_refl) as (_ & _ & _ & Hdf & _).
  destruct (Hdf df w eq_refl) as [H1 H2].
  eexists. split; [exact H1|]. split; [|exact H2].
  vm_compute. reflexivity.
Defined.

Lemma enhance_source_fails (env : Env) (ft : string) (cfg : enhancement)
    (df : option DataFrame) (dbh : option db_handle) (table : string)
    (w : World) :
  dict_get REFERENCE_ENHANCEMENTS ft = Some cfg →
  source_fails env cfg →
  ∃ w', _enhance_reference_data env ft df dbh table w = Some (Ok df, w')
        ∧ fs w' = fs w
        ∧ tables (db w') = tables (db w)
        ∧ reads w' = reads w.
Proof.
  intros Hcfg Hfail.
  rewrite (enhance_reference_data_flagged env ft cfg _ _ table Hcfg).
  unfold enhance_with, try_except, bind, import_reference_data, lift, raise,
    ret, on_db.
  destruct Hfail as [[e He]|[e He]].
  - rewrite He. simpl. destruct e; by eexists.
  - cbv beta. rewrite He.
    repeat (case_match; simplify_eq/=); by eexists.
Qed.


Lemma enhance_with_frame_mode (env : Env)
    (diff : Env -> list cell -> outcome (option DataFrame))
    (d : DataFrame) (dbh : option db_handle) (table : string) (w : World) :
  ∃ d', enhance_with env diff (Some d) dbh table w = Some (Ok (Some d'), w)
        ∧ columns d' = columns d
        ∧ rows d `prefix_of` rows d'.
Proof.
  assert (∃ d', Some (Ok (Some d), w) = Some (Ok (Some d'), w)
                ∧ columns d' = columns d
                ∧ rows d `prefix_of` rows d') as Hsame.
  { by exists d. }
  unfold enhance_with, try_except.
  unfold bind at 1. unfold import_reference_data.
  destruct (reference_import env) as [e|]; [destruct e; apply Hsame|].
  unfold ret at 1.
  unfold bind at 1. unfold lift at 1.
  destruct (column_to_list "codigo" d) as [codes|e];
    [|destruct e; apply Hsame].
  unfold bind at 1. unfold lift at 1.
  destruct (diff env codes) as [[missing|]|e];
    [| apply Hsame | destruct e; apply Hsame].
  case_decide; [|apply Hsame].
  unfold bind, lift, ret, concat. case_decide.
  - eexists. split; [done|]. split; [done|]. simpl. by apply prefix_app_r.
  - apply Hsame.
Qed.


(** ** The two paths of [process_file] *)

Lemma read_csv_file_inv (file_path : string) (skip_rows : nat)
    (n_rows : option nat) (df : DataFrame) (w w1 : World) :
  read_csv_file file_path skip_rows n_rows w = Some (Ok df, w1) →
  ∃ content,
    fs w !! file_path = Some content
    ∧ df = read_csv content skip_rows n_rows
    ∧ w1 = after_read file_path skip_rows n_rows content w
    ∧ height df ≠ 0.
Proof.
  unfold read_csv_file. destruct (fs w !! file_path) as [content|]; [|done].
  cbn zeta. case_decide; [done|]. case_match; [done|].
  intros [= <- <-]. by exists content.
Qed.


(** The whole-file branch after a read that returns. *)
Lemma process_file_direct_after_read (env : Env) (utf8_file ft table : string)
    (df : DataFrame) (w w1 : World) :
  read_csv_file utf8_file 0 None w = Some (Ok df, w1) →
  table_name_of ft = Ok table →
  process_file_direct env utf8_file ft w
  = (enhanced_df <- _enhance_reference_data env ft
                      (Some (transformed df ft)) None table ;;
     ret (Some (match enhanced_df with
                | Some e => e
                | None => transformed df ft
                end, table))) w1.
Proof.
  intros Hread Htable. unfold process_file_direct.
  unfold bind at 1. rewrite Hread.
  destruct (read_csv_file_inv _ _ _ _ _ _ Hread) as (content & _ & -> & _).
  unfold bind at 1. unfold lift at 1. rewrite apply_transformations_read.
  unfold bind at 1. unfold lift at 1. rewrite Htable.
  done.
Qed.


(** The chunked path on a file that has rows, their number no multiple
    of the window size. *)
Lemma process_large_file_chunked_run (env : Env) (fuel chunk_size wd : nat)
    (file_path ft content table : string) (w : World) :
  0 < chunk_size →
  fs w !! file_path = Some content →
  table_name_of ft = Ok table →
  row_count content / chunk_size < fuel →
  Forall (fun r => length r = wd) (parsed_rows content) →
  row_count content mod chunk_size ≠ 0 →
  let n := row_count content in
  let ks := seq 0 (n / chunk_size + 1) in
  _process_large_file_chunked env fuel chunk_size file_path ft w
  = (_u <- _enhance_reference_data env ft None (Some TheAdapter) table ;;
     ret None)
      (mkWorld (fs w)
         (upsert_windows content ft table chunk_size ks (db w))
         ((reads w ++ [mkRead file_path 0 (Some 100)
                         (height (read_csv content 0 (Some 100)))])
          ++ (window_read file_path content chunk_size <$> ks))).
Proof.
  intros Hcs Hfs Htable Hfuel Hu Hm n ks. subst ks n.
  assert (0 < row_count content) as Hn.
  { destruct (decide (row_count content = 0)) as [E|]; [|lia].
    rewrite E in Hm. by rewrite Nat.Div0.mod_0_l in Hm. }
  unfold _process_large_file_chunked.
  unfold bind at 1. unfold lift at 1. rewrite Htable.
  unfold bind at 1.
  rewrite (read_csv_file_rows _ content _ wd)
    by (try done; rewrite height_read_csv; lia).
  unfold bind at 1. unfold lift at 1. rewrite apply_transformations_read.
  unfold bind at 1.
  rewrite (chunk_loop_from fuel chunk_size 0 wd file_path ft table content);
    [|done|done|done|simpl; lia|done|lia].
  cbn zeta. rewrite bool_decide_eq_false_2 by done.
  unfold windows_of.
  rewrite (decide_False (P := row_count content mod chunk_size = 0)) by done.
  rewrite !Nat.sub_0_r. cbn [total_processed].
  rewrite decide_True by lia. done.
Qed.

(** The chunked path on a file whose number of rows is a multiple of
    the window size: it raises, at the first read when the file has no
    row, and else at the read that follows the last window, when every
    row is upserted; the reconciliation is not reached. *)
Lemma process_large_file_chunked_raises (env : Env)
    (fuel chunk_size wd : nat) (file_path ft content table : string)
    (w : World) :
  0 < chunk_size →
  fs w !! file_path = Some content →
  table_name_of ft = Ok table →
  row_count content / chunk_size < fuel →
  Forall (fun r => length r = wd) (parsed_rows content) →
  row_count content mod chunk_size = 0 →
  let n := row_count content in
  ∃ w',
    _process_large_file_chunked env fuel chunk_size file_path ft w
    = Some (Raise (PolarsError "NoDataError"), w')
    ∧ fs w' = fs w
    ∧ db w' = upsert_windows content ft table chunk_size
                (seq 0 (n / chunk_size)) (db w).
Proof.
  intros Hcs Hfs Htable Hfuel Hu Hm n. subst n.
  unfold _process_large_file_chunked.
  unfold bind at 1. unfold lift at 1. rewrite Htable.
  unfold bind at 1.
  destruct (decide (row_count content = 0)) as [E|Hn].
  - rewrite (read_csv_file_no_rows _ content)
      by (try done; rewrite height_read_csv; lia).
    exists w. split; [done|]. split; [done|].
    by rewrite E, Nat.Div0.div_0_l.
  - rewrite (read_csv_file_rows _ content _ wd)
      by (try done; rewrite height_read_csv; lia).
    unfold bind at 1. unfold lift at 1. rewrite apply_transformations_read.
    unfold bind at 1.
    rewrite (chunk_loop_from fuel chunk_size 0 wd file_path ft table content);
      [|done|done|done|simpl; lia|done|lia].
    cbn zeta. rewrite bool_decide_eq_true_2 by done.
    unfold windows_of. rewrite decide_True by done.
    rewrite !Nat.sub_0_r. eexists. split; [done|]. by split.
Qed.

(** C4. For a reconciliation-flagged category whose source fails (the
    import of the reference module raises, or the source raises): the
    enhancement returns the data it was given, unchanged, and changes
    neither a file nor a table; the whole-file path, once its read of
    the file has returned, returns the transformed official rows with
    the table name; the chunked path, on a file on which its reads
    return, returns after upserting the windows of the official file
    and nothing else.  No exception of the source reaches the caller. *)
Theorem reconciliation_failure_not_fatal (env : Env) (ft : string)
    (cfg : enhancement) (table : string) :
  dict_get REFERENCE_ENHANCEMENTS ft = Some cfg →
  source_fails env cfg →
  (∀ df dbh w,
     ∃ w', _enhance_reference_data env ft df dbh table w = Some (Ok df, w')
           ∧ fs w' = fs w
           ∧ tables (db w') = tables (db w))
  ∧ (∀ utf8_file df w w1,
       read_csv_file utf8_file 0 None w = Some (Ok df, w1) →
       table_name_of ft = Ok table →
       ∃ w', process_file_direct env utf8_file ft w
             = Some (Ok (Some (transformed df ft, table)), w')
             ∧ tables (db w') = tables (db w))
  ∧ (∀ fuel chunk_size wd file_path content w,
       0 < chunk_size →
       fs w !! file_path = Some content →
       table_name_of ft = Ok table →
       row_count content / chunk_size < fuel →
       plain_csv content wd →
       row_count content mod chunk_size ≠ 0 →
       ∃ w', _process_large_file_chunked env fuel chunk_size file_path ft w
             = Some (Ok None, w')
             ∧ tables (db w')
               = tables (upsert_windows content ft table chunk_size
                           (seq 0 (row_count content / chunk_size + 1))
                           (db w))).
Proof.
  intros Hcfg Hfail. split; [|split].
  - intros df dbh w.
    destruct (enhance_source_fails env ft cfg df dbh table w Hcfg Hfail)
      as (w' & H & Hfs & Ht & _).
    by exists w'.
  - intros utf8_file df w w1 Hread Htable.
    rewrite (process_file_direct_after_read env utf8_file ft table df w w1
               Hread Htable).
    destruct (enhance_source_fails env ft cfg
                (Some (transformed df ft)) None table w1 Hcfg Hfail)
      as (w' & H & _ & Ht & _).
    exists w'. unfold bind. rewrite H. split; [done|].
    destruct (read_csv_file_inv _ _ _ _ _ _ Hread) as (c & _ & _ & -> & _).
    by rewrite Ht.
  - intros fuel chunk_size wd file_path content w Hcs Hfs Htable Hfuel
      (_ & _ & Hu) Hm.
    rewrite (process_large_file_chunked_run env fuel chunk_size wd file_path
               ft content table w Hcs Hfs Htable Hfuel Hu Hm).
    unfold bind.
    match goal with
    | |- context [_enhance_reference_data _ _ _ _ _ ?W] =>
        destruct (enhance_source_fails env ft cfg None (Some TheAdapter)
                    table W Hcfg Hfail) as (w' & H' & _ & Ht & _)
    end.
    rewrite H'. by exists w'.
Qed.

Lemma reconciliation_failure_not_fatal_witness :
  let env := mkEnv (fun _ => None) None
               (Raise (SourceError "SERPRO unreachable")) (Ok None) upper in
  let w := mkWorld {[ "F.MOTICSV.utf8" := "01;EXTINCAO
02;INCORPORACAO
" ]} (mkAdapter false (fun _ => ["codigo"]) ∅ []) [] in
  ∃ df w',
    process_file_direct env "F.MOTICSV.utf8" "MOTICSV" w
    = Some (Ok (Some (df, "motivos")), w')
    ∧ rows df = [ [Some (VStr "01"); Some (VStr "EXTINCAO")];
                  [Some (VStr "02"); Some (VStr "INCORPORACAO")] ]
    ∧ tables (db w') = tables (db w).
Proof.
  intros env w.
  destruct (reconciliation_failure_not_fatal env "MOTICSV"
              (mkEnhancement Serpro "motivos" "codigo") "motivos" eq_refl)
    as (_ & Hdirect & _).
  - right. by exists (SourceError "SERPRO unreachable").
  - destruct (Hdirect "F.MOTICSV.utf8"
                (read_csv "01;EXTINCAO
02;INCORPORACAO
" 0 None)
                w (after_read "F.MOTICSV.utf8" 0 None "01;EXTINCAO
02;INCORPORACAO
" w) eq_refl eq_refl) as (w' & Hrun & Ht).
    eexists _, w'. split; [exact Hrun|]. split; [|exact Ht].
    vm_compute. reflexivity.
Defined.

Lemma first_pattern_elem (patterns : list string) (s p : string) :
  first_pattern patterns s = Some p → p ∈ patterns.
Proof.
  induction patterns as [|q patterns IH]; simpl; [done|].
  destruct (str_contains q s); intros H; simplify_eq; [left|right; auto].
Qed.





(** C3 as stated fails: not every file is answered by [None] or by a
    pair.  An empty file of a known type, below the size threshold, is
    converted, and the read of the converted copy then raises
    [NoDataError], which [process_file] raises again after removing
    the copy. *)
Lemma process_file_empty_file_raises :
  let env := mkEnv (fun _ => None) None (Ok None) (Ok None) upper in
  let w := mkWorld {[ "/data/K3241.CNAECSV" := EmptyString ]}
             (mkAdapter false (fun _ => ["codigo"]) ∅ []) [] in
  process_file env (mkConfig false 8 1) 3 3 "/data/K3241.CNAECSV" w
  = Some (Raise (PolarsError "NoDataError"), w).
Proof. vm_compute. reflexivity. Qed.

(** ** Whole-file load and chunked load *)

















Lemma enhance_db_keeps (env : Env) (src : ref_source) (table : string)
    (w : World) :
  is_Some (reference_import env)
  ∨ (∀ ext, source_of env src ≠ Ok (Some ext)) →
  ∃ w', enhance_with env
          (fun env codes => diff_reference_data (source_of env src) codes)
          None (Some TheAdapter) table w
        = Some (Ok None, w')
        ∧ tables (db w') = tables (db w).
Proof.
  intros H.
  unfold enhance_with, try_except, bind, import_reference_data, lift, raise,
    ret, on_db.
  destruct (reference_import env) as [e|] eqn:Ei; simpl;
    [destruct e; by eexists|].
  destruct H as [[? ?]|H]; [done|].
  destruct (source_of env src) as [[ext|]|e]; simpl.
  - by destruct (H ext).
  - by eexists.
  - destruct e; by eexists.
Qed.


Lemma table_rows_ext (a a' : SQLiteAdapter) (t : string) :
  tables a = tables a' → table_rows a t = table_rows a' t.
Proof. unfold table_rows. by intros ->. Qed.



Lemma flagged_columns_empty (ft : string) (cfg : enhancement) (df : DataFrame) :
  dict_get REFERENCE_ENHANCEMENTS ft = Some cfg →
  columns df = default_columns 0 →
  index_of "codigo" (columns (transformed df ft)) = None.
Proof.
  intros H Hc. unfold transformed. cbn [columns].
  rewrite (rename_columns_default df _ 0 Hc).
  by destruct (flagged_category ft cfg H) as [[-> _]|[-> _]].
Qed.

Lemma key_of_codigo (r : record) : key_of ["codigo"] r = [field r "codigo"].
Proof. done. Qed.

Lemma filter_all {A} (P : A -> Prop) `{∀ x, Decision (P x)} (l : list A) :
  (∀ x, x ∈ l → P x) → filter P l = l.
Proof.
  induction l as [|x l IH]; intros Hall; [done|].
  rewrite filter_cons, decide_True by (apply Hall; by left).
  f_equal. apply IH. intros y Hy. apply Hall. by right.
Qed.

Lemma foldl_insert_by_key (k : list string) (t rs : list record) :
  k ≠ [] →
  foldl (insert_or_replace k) t rs
  = filter (fun r => key_of k r ∉ key_of k <$> rs) t ++ last_by_key k rs.
Proof.
  intros Hk. revert t. induction rs as [|r rs IH]; intros t.
  - simpl. rewrite app_nil_r. symmetry. apply filter_all.
    intros r _. apply not_elem_of_nil.
  - cbn [foldl]. rewrite IH.
    assert (insert_or_replace k t r
            = filter (fun r' => key_of k r' ≠ key_of k r) t ++ [r]) as ->
      by (unfold insert_or_replace; by destruct k).
    rewrite filter_app, <- app_assoc. f_equal.
    + rewrite list_filter_filter. apply list_filter_iff.
      intros r'. rewrite fmap_cons, not_elem_of_cons. tauto.
    + cbn [last_by_key]. rewrite filter_cons, filter_nil.
      destruct (decide (key_of k r ∈ key_of k <$> rs)) as [Hin|Hout].
      * by rewrite decide_False by tauto.
      * by rewrite decide_True.
Qed.

Lemma last_by_key_keys (k : list string) (rs : list record) (r : record) :
  r ∈ last_by_key k rs → key_of k r ∈ key_of k <$> rs.
Proof.
  induction rs as [|r' rs IH]; simpl; [by intros H%elem_of_nil|].
  case_decide.
  - intros H'. right. by apply IH.
  - intros [->|H']%elem_of_cons; [by left|right; by apply IH].
Qed.

Lemma last_by_key_NoDup (k : list string) (rs : list record) :
  NoDup (key_of k <$> last_by_key k rs).
Proof.
  induction rs as [|r rs IH]; simpl; [apply NoDup_nil_2|].
  case_decide as Hin; [done|].
  rewrite fmap_cons. apply NoDup_cons. split; [|done].
  intros H. apply list_elem_of_fmap in H as (r' & E & Hr').
  apply Hin. rewrite E. by apply last_by_key_keys.
Qed.















(** * Further properties *)

(** ** The processed-files ledger *)

Lemma same_file_key (directory filename : string) (r : record) :
  same_file directory filename r
  ↔ key_of tracking_key r = [Some (VStr directory); Some (VStr filename)].
Proof.
  unfold same_file, key_of, tracking_key. simpl. split.
  - by intros [-> ->].
  - intros H. by simplify_eq.
Qed.

Lemma same_file_ledger_row (d f d' f' now : string) :
  same_file d' f' (ledger_row d f now) ↔ d' = d ∧ f' = f.
Proof.
  unfold same_file, ledger_row, field. simpl. split.
  - intros [H1 H2]. by simplify_eq.
  - by intros [-> ->].
Qed.

Lemma ledger_after_mark (now d f : string) (a : SQLiteAdapter) :
  table_rows (mark_processed now d f a) "processed_files"
  = if decide (Exists (same_file d f) (table_rows a "processed_files"))
    then table_rows a "processed_files"
    else table_rows a "processed_files" ++ [ledger_row d f now].
Proof.
  unfold mark_processed. rewrite table_rows_connect.
  case_decide; [apply table_rows_connect|].
  unfold table_rows at 1. simpl. by rewrite lookup_insert_eq.
Qed.

Lemma is_processed_after_mark (now d f d' f' : string) (a : SQLiteAdapter) :
  (is_processed d' f' (mark_processed now d f a)).1
  = bool_decide ((d' = d ∧ f' = f) ∨ (is_processed d' f' a).1 = true).
Proof.
  unfold is_processed. simpl. rewrite !table_rows_connect, ledger_after_mark.
  apply bool_decide_ext. rewrite bool_decide_eq_true.
  case_decide as Hin.
  - split; [by right|]. intros [[-> ->]|?]; done.
  - rewrite Exists_app, Exists_cons, Exists_nil, same_file_ledger_row.
    tauto.
Qed.

Lemma connect_connected (a : SQLiteAdapter) : conn a = true → connect a = a.
Proof. unfold connect. by intros ->. Qed.

Lemma conn_connect (a : SQLiteAdapter) : conn (connect a) = true.
Proof. unfold connect. by destruct (conn a) eqn:E. Qed.

Lemma conn_mark_processed (now d f : string) (a : SQLiteAdapter) :
  conn (mark_processed now d f a) = true.
Proof. unfold mark_processed. case_decide; simpl; apply conn_connect. Qed.

(** X1. A file that was marked is reported as processed, and marking
    one file changes the answer for no other (directory, filename). *)
Theorem mark_then_is_processed (now d f : string) (a : SQLiteAdapter) :
  (is_processed d f (mark_processed now d f a)).1 = true
  ∧ ∀ d' f', (d', f') ≠ (d, f) →
      (is_processed d' f' (mark_processed now d f a)).1
      = (is_processed d' f' a).1.
Proof.
  split.
  - rewrite is_processed_after_mark. apply bool_decide_eq_true. by left.
  - intros d' f' Hne. rewrite is_processed_after_mark.
    destruct (is_processed d' f' a).1 eqn:E.
    + apply bool_decide_eq_true. by right.
    + apply bool_decide_eq_false. intros [[-> ->]|?]; done.
Qed.

(** X2. Marking a file a second time is a no-op: the adapter is left as
    the first marking left it, with the first [processed_at]. *)
Theorem mark_processed_twice (now now' d f : string) (a : SQLiteAdapter) :
  mark_processed now' d f (mark_processed now d f a)
  = mark_processed now d f a.
Proof.
  assert (Exists (same_file d f)
            (table_rows (mark_processed now d f a) "processed_files")) as H.
  { rewrite ledger_after_mark. case_decide as Hin; [done|].
    apply Exists_app. right. apply Exists_cons. left.
    by apply same_file_ledger_row. }
  unfold mark_processed at 1. rewrite table_rows_connect.
  rewrite decide_True by done.
  apply connect_connected, conn_mark_processed.
Qed.

(** X3. The two queries of the ledger agree: a file name is in the set
    [get_processed_files] returns for a directory exactly when
    [is_processed] says yes for that directory and name. *)
Theorem get_processed_files_is_processed (d f : string) (a : SQLiteAdapter) :
  Some (VStr f) ∈ (get_processed_files d a).1
  ↔ (is_processed d f a).1 = true.
Proof.
  unfold get_processed_files, is_processed. simpl.
  rewrite bool_decide_eq_true, Exists_exists, list_elem_of_fmap.
  split.
  - intros (r & Hf & Hr). apply list_elem_of_filter in Hr as [Hd Hr].
    exists r. split; [done|]. by split.
  - intros (r & Hr & Hd & Hf). exists r. split; [done|].
    apply list_elem_of_filter. by split.
Qed.

Lemma ledger_keys_after_mark (now d f : string) (a : SQLiteAdapter) :
  ledger_keys (mark_processed now d f a)
  = if decide ([Some (VStr d); Some (VStr f)] ∈ ledger_keys a)
    then ledger_keys a
    else ledger_keys a ++ [[Some (VStr d); Some (VStr f)]].
Proof.
  unfold ledger_keys. rewrite ledger_after_mark.
  assert (Exists (same_file d f) (table_rows a "processed_files")
          ↔ [Some (VStr d); Some (VStr f)]
            ∈ key_of tracking_key <$> table_rows a "processed_files") as Hiff.
  { rewrite Exists_exists, list_elem_of_fmap. split.
    - intros (r & Hr & Hs). exists r. split; [|done].
      symmetry. by apply same_file_key.
    - intros (r & Hk & Hr). exists r. split; [done|].
      by apply same_file_key. }
  repeat case_decide; try tauto; by rewrite ?fmap_app.
Qed.

Lemma init_adapter_ledger (keys : string -> list string) :
  table_rows (init_adapter keys ∅) "processed_files" = [].
Proof. done. Qed.

(** X4. From a new database, however often and in whatever order files
    are marked, the ledger holds every marked (directory, filename),
    nothing else, and no primary key twice. *)
Theorem ledger_holds_marked_files (keys : string -> list string)
    (marks : list (string * string * string)) :
  let a := mark_all marks (init_adapter keys ∅) in
  NoDup (ledger_keys a)
  ∧ ∀ d f, (is_processed d f a).1 = true
           ↔ ∃ now, (now, d, f) ∈ marks.
Proof.
  unfold mark_all.
  assert (NoDup (ledger_keys (init_adapter keys ∅))
          ∧ ∀ d f, (is_processed d f (init_adapter keys ∅)).1 = true
                   ↔ ∃ now, (now, d, f) ∈ @nil (string * string * string))
    as Hinit.
  { split; [apply NoDup_nil_2|]. intros d f. split; [done|].
    intros [now H]. by apply elem_of_nil in H. }
  revert Hinit. generalize (init_adapter keys ∅).
  intros a0 H0.
  assert (∀ pre a,
            (NoDup (ledger_keys a)
             ∧ ∀ d f, (is_processed d f a).1 = true
                      ↔ ∃ now, (now, d, f) ∈ pre) →
            let a' := foldl (fun a m => mark_processed m.1.1 m.1.2 m.2 a)
                            a marks in
            NoDup (ledger_keys a')
            ∧ ∀ d f, (is_processed d f a').1 = true
                     ↔ ∃ now, (now, d, f) ∈ pre ++ marks) as Hgen.
  { clear. induction marks as [|[[now d] f] marks IH]; intros pre a [Hnd Hin].
    - simpl. rewrite app_nil_r. by split.
    - simpl.
      replace (pre ++ (now, d, f) :: marks)
        with ((pre ++ [(now, d, f)]) ++ marks) by (by rewrite <- app_assoc).
      apply IH. split.
      + rewrite ledger_keys_after_mark. case_decide as Hk; [done|].
        apply NoDup_app. split; [done|]. split.
        * intros k Hk' ->%list_elem_of_singleton. done.
        * apply NoDup_singleton.
      + intros d' f'. rewrite is_processed_after_mark, bool_decide_eq_true.
        rewrite Hin. split.
        * intros [[-> ->]|[now' H]].
          -- exists now. apply elem_of_app. right. left.
          -- exists now'. apply elem_of_app. by left.
        * intros [now' H]. apply elem_of_app in H as [H|H].
          -- right. by exists now'.
          -- apply list_elem_of_singleton in H. simplify_eq. by left. }
  apply (Hgen [] a0 H0).
Qed.

(** ** The encoding normalizer, when nothing fails *)

Lemma str_take_drop (n : nat) (s : string) : str_take n s +:+ str_drop n s = s.
Proof.
  revert s. induction n as [|n IH]; intros [|c s]; try done.
  unfold String.app. simpl. f_equal. apply IH.
Qed.

Lemma str_drop_length (n : nat) (s : string) :
  String.length (str_drop n s) = String.length s - n.
Proof.
  revert s. induction n as [|n IH]; intros [|c s]; simpl; try done.
Qed.

Lemma chunks_of_concat (fuel n : nat) (s : string) :
  0 < n → String.length s ≤ fuel → str_concat (chunks_of fuel n s) = s.
Proof.
  intros Hn. revert s. induction fuel as [|fuel IH]; intros s Hs.
  - destruct s; [done|simpl in Hs; lia].
  - destruct s as [|c s]; [done|].
    change (chunks_of (S fuel) n (String c s))
      with (str_take n (String c s)
              :: chunks_of fuel n (str_drop n (String c s))).
    unfold str_concat. simpl foldr. fold (str_concat
      (chunks_of fuel n (str_drop n (String c s)))).
    rewrite IH; [apply str_take_drop|].
    rewrite str_drop_length. simpl in *. lia.
Qed.

Lemma read_chunks_concat (n : nat) (text : string) :
  0 < n → str_concat (read_chunks n text) = text.
Proof. intros Hn. by apply chunks_of_concat. Qed.

Lemma str_app_assoc (a b c : string) : (a +:+ b) +:+ c = a +:+ (b +:+ c).
Proof.
  induction a as [|x a IH]; [done|].
  unfold String.app in *. simpl. by rewrite IH.
Qed.

Lemma str_app_nil_r (a : string) : a +:+ EmptyString = a.
Proof.
  induction a as [|x a IH]; [done|].
  unfold String.app in *. simpl. by rewrite IH.
Qed.

Lemma utf8_encode_app (a b : string) :
  utf8_encode (a +:+ b) = utf8_encode a +:+ utf8_encode b.
Proof.
  induction a as [|x a IH]; [done|].
  change (String x a +:+ b) with (String x (a +:+ b)).
  simpl utf8_encode. by rewrite IH, str_app_assoc.
Qed.

(** Without fault the loop appends the encoding of every chunk. *)
Lemma copy_chunks_no_fault (env : Env) (output_file : string) (k : nat)
    (chunks : list string) (w : World) :
  (∀ ev, io_fault env ev = None) →
  copy_chunks env output_file k chunks w
  = Some (Ok tt,
          match chunks with
          | [] => w
          | _ :: _ =>
              mkWorld (<[output_file :=
                           default EmptyString (fs w !! output_file)
                           +:+ utf8_encode (str_concat chunks)]> (fs w))
                      (db w) (reads w)
          end).
Proof.
  intros Hno. revert k w.
  induction chunks as [|chunk chunks IH]; intros k w; simpl.
  - by rewrite Hno.
  - rewrite !Hno. unfold bind at 1. unfold write_chunk at 1.
    rewrite IH. destruct chunks as [|chunk' chunks'].
    + simpl. by rewrite str_app_nil_r.
    + cbn [fs db reads]. rewrite lookup_insert_eq. simpl default.
      rewrite insert_insert_eq.
      change (str_concat (chunk :: chunk' :: chunks'))
        with (chunk +:+ str_concat (chunk' :: chunks')).
      by rewrite utf8_encode_app, str_app_assoc.
Qed.

Lemma utf8_decode_char (c : Ascii.ascii) (s : string) :
  utf8_decode (utf8_encode_char c +:+ s) = String c <$> utf8_decode s.
Proof.
  destruct c as [[] [] [] [] [] [] [] []]; reflexivity.
Qed.

Lemma utf8_decode_encode (s : string) : utf8_decode (utf8_encode s) = Some s.
Proof.
  induction s as [|c s IH]; [done|].
  simpl utf8_encode. by rewrite utf8_decode_char, IH.
Qed.

(** X5. When no operation fails and the buffer size is positive, the
    conversion of an existing file into another path (a fresh temporary
    file when none is given) returns that path; the output holds the
    UTF-8 encoding of the text of the input, whatever the buffer size,
    so that decoding it gives back exactly the text read; no other file,
    the input included, and nothing of the database changes. *)
Theorem conversion_writes_encoding (env : Env) (config : Config)
    (input_file : string) (output_file : option string) (content : string)
    (w : World) :
  (∀ ev, io_fault env ev = None) →
  0 < encoding_chunk_size config →
  fs w !! input_file = Some content →
  output_file ≠ Some input_file →
  let out := default (fresh (dom (fs w))) output_file in
  let text := universal_newlines content in
  _convert_file_encoding_chunked env config input_file output_file w
  = Some (Ok out,
          mkWorld (<[out := utf8_encode text]> (fs w)) (db w) (reads w))
  ∧ utf8_decode (utf8_encode text) = Some text
  ∧ out ≠ input_file.
Proof.
  intros Hno Hn Hin Hout out text.
  assert (out ≠ input_file) as Hne.
  { unfold out. destruct output_file as [p|]; simpl; [congruence|].
    intros E. apply (is_fresh (dom (fs w))). rewrite E.
    apply elem_of_dom. by exists content. }
  split; [|split; [apply utf8_decode_encode|done]].
  assert (∀ w0 : World,
            fs w0 !! input_file = Some content →
            try_except
              (_u <- open_input env config input_file ;;
               _u <- open_output env out ;;
               text <- input_text input_file ;;
               _u <- copy_chunks env out 0
                      (read_chunks (encoding_chunk_size config) text) ;;
               _u <- stat_output env out ;;
               ret out)
              (fun e => _u <- unlink_if_exists out ;; raise e) w0
            = Some (Ok out,
                    mkWorld (<[out := utf8_encode text]> (fs w0))
                            (db w0) (reads w0))) as Hbody.
  { intros w0 Hin0. unfold try_except.
    unfold bind at 1. unfold open_input at 1.
    rewrite Hno, decide_False, Hin0 by lia.
    unfold bind at 1. unfold open_output at 1. rewrite Hno.
    unfold bind at 1. unfold input_text at 1. cbn [fs db reads].
    rewrite lookup_insert_ne, Hin0 by done. simpl default. fold text.
    unfold bind at 1. rewrite copy_chunks_no_fault by done.
    pose proof (read_chunks_concat (encoding_chunk_size config) text Hn) as Hc.
    destruct (read_chunks (encoding_chunk_size config) text)
      as [|chunk chunks] eqn:E.
    - simpl in Hc. rewrite <- Hc.
      unfold bind, stat_output, _get_file_size_mb, ret. rewrite Hno.
      cbn [fs db reads]. by rewrite lookup_insert_eq.
    - rewrite Hc. cbn [fs db reads].
      rewrite lookup_insert_eq, insert_insert_eq. simpl default.
      unfold bind, stat_output, _get_file_size_mb, ret. rewrite Hno.
      cbn [fs db reads]. by rewrite lookup_insert_eq. }
  unfold _convert_file_encoding_chunked.
  destruct output_file as [p|]; simpl in out.
  - unfold bind at 1. unfold ret at 1.
    unfold bind at 1. unfold _get_file_size_mb at 1. rewrite Hin.
    by apply Hbody.
  - unfold bind at 1. unfold mkstemp at 1. fold out.
    unfold bind at 1. unfold _get_file_size_mb at 1. cbn [fs db reads].
    rewrite lookup_insert_ne, Hin by done.
    rewrite Hbody by (cbn [fs]; by rewrite lookup_insert_ne).
    cbn [fs db reads]. by rewrite insert_insert_eq.
Qed.

Lemma conversion_writes_encoding_witness :
  let env := mkEnv (fun _ => None) None (Ok None) (Ok None) upper in
  let content := String "S" (String (Ascii.ascii_of_N 195)
                   (String "O" (String CR (String LF EmptyString)))) in
  let w := mkWorld {[ "in.csv" := content ]}
             (mkAdapter false (fun _ => []) ∅ []) [] in
  ∃ w', _convert_file_encoding_chunked env (mkConfig false 2 1%Q) "in.csv"
          (Some "out.csv") w
        = Some (Ok "out.csv", w')
        ∧ fs w' !! "out.csv"
          = Some (String "S" (String (Ascii.ascii_of_N 195)
                    (String (Ascii.ascii_of_N 131)
                       (String "O" (String LF EmptyString)))))
        ∧ fs w' !! "in.csv" = Some content.
Proof.
  intros env content w.
  destruct (conversion_writes_encoding env (mkConfig false 2 1%Q) "in.csv"
              (Some "out.csv") content w) as (Hrun & _ & _).
  - done.
  - simpl. lia.
  - reflexivity.
  - discriminate.
  - eexists. split; [exact Hrun|]. split; vm_compute; reflexivity.
Defined.

(** ** The encoding normalizer: what it touches *)

Lemma same_but_file_refl (p : string) (w : World) : same_but_file p w w.
Proof. by unfold same_but_file. Qed.

Lemma same_but_file_trans (p : string) (w1 w2 w3 : World) :
  same_but_file p w1 w2 → same_but_file p w2 w3 → same_but_file p w1 w3.
Proof.
  intros (D1 & R1 & F1) (D2 & R2 & F2). split; [congruence|].
  split; [congruence|]. intros q Hq. by rewrite F2, F1.
Qed.

Lemma touches_ret {A} (p : string) (Q : A -> Prop) (a : A) :
  Q a → touches_only p Q (ret a).
Proof.
  intros HQ w. exists (Ok a), w. split; [done|].
  split; [apply same_but_file_refl|]. by intros a' [= <-].
Qed.

Lemma touches_raise {A} (p : string) (Q : A -> Prop) (e : exn) :
  touches_only p Q (raise e).
Proof.
  intros w. exists (Raise e), w. split; [done|].
  split; [apply same_but_file_refl|done].
Qed.

Lemma touches_bind {A B} (p : string) (Q : A -> Prop) (Q' : B -> Prop)
    (m : M A) (k : A -> M B) :
  touches_only p Q m → (∀ a, Q a → touches_only p Q' (k a)) →
  touches_only p Q' (bind m k).
Proof.
  intros Hm Hk w. destruct (Hm w) as (r & w1 & Hrun & Hsame & HQ).
  unfold bind. rewrite Hrun. destruct r as [a|e].
  - destruct (Hk a (HQ a eq_refl) w1) as (r' & w2 & Hrun' & Hsame' & HQ').
    exists r', w2. split; [done|]. split; [|done].
    by eapply same_but_file_trans.
  - exists (Raise e), w1. by split.
Qed.

Lemma touches_try_except {A} (p : string) (Q : A -> Prop)
    (body : M A) (handler : exn -> M A) :
  touches_only p Q body → (∀ e, touches_only p Q (handler e)) →
  touches_only p Q (try_except body handler).
Proof.
  intros Hm Hh w. destruct (Hm w) as (r & w1 & Hrun & Hsame & HQ).
  unfold try_except. rewrite Hrun. destruct r as [a|e].
  - by exists (Ok a), w1.
  - destruct (Hh e w1) as (r' & w2 & Hrun' & Hsame' & HQ').
    exists r', w2. split; [done|]. split; [|done].
    by eapply same_but_file_trans.
Qed.

Lemma touches_insert (p content : string) (w : World) :
  same_but_file p w (mkWorld (<[p := content]> (fs w)) (db w) (reads w)).
Proof.
  split; [done|]. split; [done|]. intros q Hq. cbn [fs].
  by rewrite lookup_insert_ne.
Qed.

Lemma touches_stat (p file_path : string) :
  touches_only p (fun _ => True) (_get_file_size_mb file_path).
Proof.
  intros w. unfold _get_file_size_mb. destruct (fs w !! file_path).
  - eexists _, w. split; [done|]. split; [apply same_but_file_refl|done].
  - eexists _, w. split; [done|]. split; [apply same_but_file_refl|done].
Qed.

Lemma touches_open_input (env : Env) (config : Config) (p input_file : string) :
  touches_only p (fun _ => True) (open_input env config input_file).
Proof.
  intros w. unfold open_input.
  repeat case_match; eexists _, w;
    (split; [done|]; split; [apply same_but_file_refl|done]).
Qed.

Lemma touches_open_output (env : Env) (p : string) :
  touches_only p (fun _ => True) (open_output env p).
Proof.
  intros w. unfold open_output. case_match.
  - eexists _, w. split; [done|]. split; [apply same_but_file_refl|done].
  - eexists _, _. split; [done|]. split; [|done].
    by apply (touches_insert p EmptyString).
Qed.

Lemma touches_write_chunk (p chunk : string) :
  touches_only p (fun _ => True) (write_chunk p chunk).
Proof.
  intros w. unfold write_chunk. eexists _, _. split; [done|].
  split; [|done]. by apply (touches_insert p).
Qed.

Lemma touches_copy_chunks (env : Env) (p : string) (k : nat)
    (chunks : list string) :
  touches_only p (fun _ => True) (copy_chunks env p k chunks).
Proof.
  revert k. induction chunks as [|chunk chunks IH]; intros k; simpl.
  - destruct (io_fault env (ReadChunk k)); [apply touches_raise|].
    by apply touches_ret.
  - destruct (io_fault env (ReadChunk k)); [apply touches_raise|].
    destruct (io_fault env (WriteChunk k)); [apply touches_raise|].
    eapply touches_bind; [apply touches_write_chunk|].
    intros _ _. apply IH.
Qed.

Lemma touches_unlink (p : string) :
  touches_only p (fun _ => True) (unlink_if_exists p).
Proof.
  intros w. unfold unlink_if_exists. destruct (fs w !! p).
  - eexists _, _. split; [done|]. split; [|done].
    split; [done|]. split; [done|]. intros q Hq. cbn [fs].
    by rewrite lookup_delete_ne.
  - eexists _, w. split; [done|]. split; [apply same_but_file_refl|done].
Qed.

(** The part of the conversion under [try]. *)
Lemma touches_conversion_body (env : Env) (config : Config)
    (input_file p : string) :
  touches_only p (fun q => q = p)
    (try_except
       (_u <- open_input env config input_file ;;
        _u <- open_output env p ;;
        text <- input_text input_file ;;
        _u <- copy_chunks env p 0
               (read_chunks (encoding_chunk_size config) text) ;;
        _u <- stat_output env p ;;
        ret p)
       (fun e => _u <- unlink_if_exists p ;; raise e)).
Proof.
  apply touches_try_except.
  - eapply touches_bind; [apply touches_open_input|]. intros _ _.
    eapply touches_bind; [apply touches_open_output|]. intros _ _.
    eapply (touches_bind _ (fun _ => True)).
    { intros w. eexists _, w. split; [done|].
      split; [apply same_but_file_refl|done]. }
    intros text _.
    eapply touches_bind; [apply touches_copy_chunks|]. intros _ _.
    eapply (touches_bind _ (fun _ => True)).
    { unfold stat_output. destruct (io_fault env StatOutput);
        [apply touches_raise|apply touches_stat]. }
    intros _ _. by apply touches_ret.
  - intros e. eapply touches_bind; [apply touches_unlink|].
    intros _ _. apply touches_raise.
Qed.

Lemma conversion_touches (env : Env) (config : Config) (input_file : string)
    (output_file : option string) (w : World) :
  let p := default (fresh (dom (fs w))) output_file in
  ∃ r w',
    _convert_file_encoding_chunked env config input_file output_file w
    = Some (r, w')
    ∧ same_but_file p w w'
    ∧ ∀ q, r = Ok q → q = p.
Proof.
  intros p. unfold _convert_file_encoding_chunked.
  assert (∀ w0, same_but_file p w w0 →
            ∃ r w',
              (_u <- _get_file_size_mb input_file ;;
               try_except
                 (_u <- open_input env config input_file ;;
                  _u <- open_output env p ;;
                  text <- input_text input_file ;;
                  _u <- copy_chunks env p 0
                         (read_chunks (encoding_chunk_size config) text) ;;
                  _u <- stat_output env p ;;
                  ret p)
                 (fun e => _u <- unlink_if_exists p ;; raise e)) w0
              = Some (r, w')
              ∧ same_but_file p w w' ∧ ∀ q, r = Ok q → q = p) as Hrest.
  { intros w0 H0.
    destruct (touches_bind p (fun _ => True) (fun q => q = p)
                (_get_file_size_mb input_file) _
                (touches_stat p input_file)
                (fun _ _ => touches_conversion_body env config input_file p)
                w0) as (r & w' & Hrun & Hsame & HQ).
    exists r, w'. split; [done|]. split; [|done].
    by eapply same_but_file_trans. }
  destruct output_file as [q|]; simpl in p.
  - unfold bind at 1. unfold ret at 1. apply Hrest, same_but_file_refl.
  - unfold bind at 1. unfold mkstemp at 1. fold p.
    apply Hrest. by apply (touches_insert p EmptyString).
Qed.

(** X6. Whatever fails or not, the conversion ends, and it touches
    nothing but its output path, the one given or else the fresh
    temporary one: every other file is as before, so is the database;
    when it returns, it returns that path. *)
Theorem conversion_touches_output_only (env : Env) (config : Config)
    (input_file : string) (output_file : option string) (w : World) :
  let p := default (fresh (dom (fs w))) output_file in
  ∃ r w',
    _convert_file_encoding_chunked env config input_file output_file w
    = Some (r, w')
    ∧ db w' = db w
    ∧ (∀ q, q ≠ p → fs w' !! q = fs w !! q)
    ∧ (∀ q, r = Ok q → q = p ∧ is_Some (fs w' !! p)).
Proof.
  intros p.
  destruct (conversion_touches env config input_file output_file w)
    as (r & w' & Hrun & (Hdb & _ & Hfs) & Hres).
  exists r, w'. fold p in Hres |- *. split; [done|]. split; [done|].
  split; [done|]. intros q ->. split; [by apply Hres|].
  rewrite (Hres q eq_refl) in Hrun. clear Hres.
  unfold _convert_file_encoding_chunked in Hrun.
  assert (∀ w0 : World,
            try_except
              (_u <- open_input env config input_file ;;
               _u <- open_output env p ;;
               text <- input_text input_file ;;
               _u <- copy_chunks env p 0
                      (read_chunks (encoding_chunk_size config) text) ;;
               _u <- stat_output env p ;;
               ret p)
              (fun e => _u <- unlink_if_exists p ;; raise e) w0
            = Some (Ok p, w') → is_Some (fs w' !! p)) as Hbody.
  { intros w0. unfold try_except.
    destruct ((_u <- open_input env config input_file ;;
               _u <- open_output env p ;;
               text <- input_text input_file ;;
               _u <- copy_chunks env p 0
                      (read_chunks (encoding_chunk_size config) text) ;;
               _u <- stat_output env p ;;
               ret p) w0) as [[[a|e] w1]|] eqn:E; [| |done].
    - intros [= -> ->]. revert E. unfold bind at 1.
      destruct (open_input env config input_file w0) as [[[u|e] w2]|];
        [|done|done].
      unfold bind at 1.
      destruct (open_output env p w2) as [[[u'|e] w3]|]; [|done|done].
      unfold bind at 1. unfold input_text at 1.
      unfold bind at 1.
      destruct (copy_chunks env p 0 _ w3) as [[[u''|e] w4]|]; [|done|done].
      unfold bind, stat_output, ret.
      destruct (io_fault env StatOutput); [done|].
      unfold _get_file_size_mb.
      destruct (fs w4 !! p) eqn:E4; [|done]. intros [= <-]. by eexists.
    - unfold bind, unlink_if_exists, raise. by destruct (fs w1 !! p). }
  destruct output_file as [q0|]; simpl in p.
  - revert Hrun. unfold bind at 1. unfold ret at 1. unfold bind at 1.
    destruct (_get_file_size_mb input_file w) as [[[s|e] w1]|]; [|done|done].
    apply Hbody.
  - revert Hrun. unfold bind at 1. unfold mkstemp at 1. fold p.
    unfold bind at 1.
    destruct (_get_file_size_mb input_file _) as [[[s|e] w1]|]; [|done|done].
    apply Hbody.
Qed.

(** ** The encoding normalizer: two edges *)

(** X7. The size of the input is taken before the [try]: when the input
    file does not exist and no output path is given, the call raises
    the error of that [stat] and the temporary file it has just created
    is left behind, empty; with an output path given, the call raises
    the same error and creates nothing. *)
Theorem conversion_missing_input (env : Env) (config : Config)
    (input_file : string) (w : World) :
  fs w !! input_file = None →
  input_file ≠ fresh (dom (fs w)) →
  _convert_file_encoding_chunked env config input_file None w
  = Some (Raise (OSError "FileNotFoundError"),
          mkWorld (<[fresh (dom (fs w)) := EmptyString]> (fs w))
                  (db w) (reads w))
  ∧ ∀ p, _convert_file_encoding_chunked env config input_file (Some p) w
         = Some (Raise (OSError "FileNotFoundError"), w).
Proof.
  intros Hin Hne. unfold _convert_file_encoding_chunked. split.
  - unfold bind at 1. unfold mkstemp at 1.
    unfold bind at 1. unfold _get_file_size_mb at 1. cbn [fs].
    by rewrite lookup_insert_ne, Hin.
  - intros p. unfold bind at 1. unfold ret at 1.
    unfold bind at 1. unfold _get_file_size_mb at 1. by rewrite Hin.
Qed.

Lemma conversion_missing_input_witness :
  let env := mkEnv (fun _ => None) None (Ok None) (Ok None) upper in
  let w := mkWorld {[ "other.csv" := "a;b" ]}
             (mkAdapter false (fun _ => []) ∅ []) [] in
  ∃ w', _convert_file_encoding_chunked env (mkConfig false 2 1%Q) "in.csv"
          None w
        = Some (Raise (OSError "FileNotFoundError"), w')
        ∧ size (fs w') = 2.
Proof.
  intros env w.
  destruct (conversion_missing_input env (mkConfig false 2 1%Q) "in.csv" w)
    as [Hrun _].
  - reflexivity.
  - vm_compute. discriminate.
  - eexists. split; [exact Hrun|]. vm_compute. reflexivity.
Defined.

(** X8. The output is opened, and so emptied, before the first read of
    the input: a conversion whose output path is its input path returns
    that path with the file empty, whatever it held. *)
Theorem conversion_onto_itself (env : Env) (config : Config)
    (input_file content : string) (w : World) :
  (∀ ev, io_fault env ev = None) →
  0 < encoding_chunk_size config →
  fs w !! input_file = Some content →
  _convert_file_encoding_chunked env config input_file (Some input_file) w
  = Some (Ok input_file,
          mkWorld (<[input_file := EmptyString]> (fs w)) (db w) (reads w)).
Proof.
  intros Hno Hn Hin. unfold _convert_file_encoding_chunked.
  unfold bind at 1. unfold ret at 1.
  unfold bind at 1. unfold _get_file_size_mb at 1. rewrite Hin.
  unfold try_except.
  unfold bind at 1. unfold open_input at 1.
  rewrite Hno, decide_False, Hin by lia.
  unfold bind at 1. unfold open_output at 1. rewrite Hno.
  unfold bind at 1. unfold input_text at 1. cbn [fs db reads].
  rewrite lookup_insert_eq. simpl default.
  change (universal_newlines EmptyString) with EmptyString.
  change (read_chunks (encoding_chunk_size config) EmptyString)
    with (@nil string).
  unfold bind at 1. rewrite copy_chunks_no_fault by done.
  unfold bind, stat_output, _get_file_size_mb, ret. rewrite Hno.
  cbn [fs db reads]. by rewrite lookup_insert_eq.
Qed.

Lemma conversion_onto_itself_witness :
  let env := mkEnv (fun _ => None) None (Ok None) (Ok None) upper in
  let w := mkWorld {[ "in.csv" := "a;b" ]}
             (mkAdapter false (fun _ => []) ∅ []) [] in
  ∃ w', _convert_file_encoding_chunked env (mkConfig false 2 1%Q) "in.csv"
          (Some "in.csv") w
        = Some (Ok "in.csv", w')
        ∧ fs w' !! "in.csv" = Some EmptyString.
Proof.
  intros env w. eexists. split.
  - apply (conversion_onto_itself env (mkConfig false 2 1%Q) "in.csv" "a;b" w).
    + done.
    + simpl. lia.
    + reflexivity.
  - reflexivity.
Defined.

(** ** What [process_file] touches *)

Lemma enhance_with_frame (env : Env)
    (diff : Env -> list cell -> outcome (option DataFrame))
    (df : option DataFrame) (dbh : option db_handle) (table : string)
    (w : World) :
  ∃ r w', enhance_with env diff df dbh table w = Some (Ok r, w')
          ∧ fs w' = fs w
          ∧ natural_key (db w') = natural_key (db w)
          ∧ (∀ t, t ≠ table → table_rows (db w') t = table_rows (db w) t)
          ∧ (is_Some df → db w' = db w).
Proof.
  assert (∀ r : option DataFrame,
            ∃ r0 w', Some (Ok r, w) = Some (Ok r0, w')
                     ∧ fs w' = fs w
                     ∧ natural_key (db w') = natural_key (db w)
                     ∧ (∀ t, t ≠ table →
                             table_rows (db w') t = table_rows (db w) t)
                     ∧ (is_Some df → db w' = db w)) as Hsame.
  { intros r. by exists r, w. }
  unfold enhance_with, try_except.
  unfold bind at 1. unfold import_reference_data.
  destruct (reference_import env) as [e|]; [destruct e; apply Hsame|].
  unfold ret at 1. destruct df as [d|].
  - unfold bind at 1. unfold lift at 1.
    destruct (column_to_list "codigo" d) as [codes|e];
      [|destruct e; apply Hsame].
    unfold bind at 1. unfold lift at 1.
    destruct (diff env codes) as [[missing|]|e];
      [| apply Hsame | destruct e; apply Hsame].
    case_decide; [|apply Hsame].
    unfold bind, lift, ret.
    destruct (concat d missing) as [d'|e]; [apply Hsame|destruct e; apply Hsame].
  - destruct dbh as [h|].
    + unfold bind at 1. unfold on_db at 1.
      unfold bind at 1. unfold lift at 1.
      destruct (diff env (select_codigo table (db w)).1) as [[missing|]|e] eqn:E.
      * destruct (select_codigo table (db w)) as [codes a1] eqn:Es.
        simpl in E. rewrite E.
        assert (natural_key a1 = natural_key (db w)
                ∧ tables a1 = tables (db w)) as [Hk Ht].
        { unfold select_codigo in Es. by simplify_eq. }
        case_decide.
        -- unfold bind, on_db, ret. simpl.
           eexists _, _. split; [done|]. cbn [fs db].
           split; [done|]. split.
           ++ by rewrite natural_key_bulk_upsert.
           ++ split; [|by intros [? [=]]]. intros t Hne.
              unfold table_rows at 1. cbn [tables].
              fold (table_rows (bulk_upsert missing table a1) t).
              rewrite table_rows_bulk_upsert_ne by done.
              by apply table_rows_ext.
        -- unfold ret. eexists _, _. split; [done|]. cbn [fs db].
           split; [done|]. split; [done|].
           split; [|by intros [? [=]]]. intros t _. by apply table_rows_ext.
      * destruct (select_codigo table (db w)) as [codes a1] eqn:Es.
        simpl in E. rewrite E.
        assert (natural_key a1 = natural_key (db w)
                ∧ tables a1 = tables (db w)) as [Hk Ht].
        { unfold select_codigo in Es. by simplify_eq. }
        unfold ret. eexists _, _. split; [done|]. cbn [fs db].
        split; [done|]. split; [done|].
        split; [|by intros [? [=]]]. intros t _. by apply table_rows_ext.
      * destruct (select_codigo table (db w)) as [codes a1] eqn:Es.
        simpl in E. rewrite E.
        assert (natural_key a1 = natural_key (db w)
                ∧ tables a1 = tables (db w)) as [Hk Ht].
        { unfold select_codigo in Es. by simplify_eq. }
        assert (∃ r0 w',
                  Some (Ok (@None DataFrame),
                        mkWorld (fs w) a1 (reads w)) = Some (Ok r0, w')
                  ∧ fs w' = fs w
                  ∧ natural_key (db w') = natural_key (db w)
                  ∧ (∀ t, t ≠ table →
                          table_rows (db w') t = table_rows (db w) t)
                  ∧ (is_Some (@None DataFrame) → db w' = db w)) as Hsel.
        { eexists _, _. split; [done|]. cbn [fs db].
          split; [done|]. split; [done|].
          split; [|by intros [? [=]]]. intros t _. by apply table_rows_ext. }
        destruct e; apply Hsel.
    + unfold bind, raise, ret. apply Hsame.
Qed.

Lemma enhance_reference_data_frame (env : Env) (ft : string)
    (df : option DataFrame) (dbh : option db_handle) (table : string)
    (w : World) :
  ∃ r w', _enhance_reference_data env ft df dbh table w = Some (Ok r, w')
          ∧ fs w' = fs w
          ∧ natural_key (db w') = natural_key (db w)
          ∧ (∀ t, t ≠ table → table_rows (db w') t = table_rows (db w) t)
          ∧ (is_Some df → db w' = db w).
Proof.
  unfold _enhance_reference_data.
  destruct (dict_get REFERENCE_ENHANCEMENTS ft) as [cfg|].
  - destruct (source cfg); apply enhance_with_frame.
  - by exists df, w.
Qed.

(** A read returns the frame of the rows read, which has rows, or
    raises; it changes neither the files nor the database. *)
Lemma read_csv_file_frame (file_path : string) (skip_rows : nat)
    (n_rows : option nat) (w : World) :
  ∃ r w', read_csv_file file_path skip_rows n_rows w = Some (r, w')
          ∧ fs w' = fs w ∧ db w' = db w
          ∧ ∀ df, r = Ok df →
                  ∃ content, fs w !! file_path = Some content
                             ∧ df = read_csv content skip_rows n_rows
                             ∧ height df ≠ 0.
Proof.
  unfold read_csv_file. destruct (fs w !! file_path) as [content|].
  - cbn zeta. case_decide; [by eexists _, w|].
    case_match; [by eexists _, w|].
    eexists _, _. split; [done|]. split; [done|]. split; [done|].
    intros df [= <-]. by exists content.
  - by eexists _, w.
Qed.

Lemma process_file_direct_frame (env : Env) (utf8_file ft : string)
    (w : World) :
  ∃ r w', process_file_direct env utf8_file ft w = Some (r, w')
          ∧ fs w' = fs w ∧ db w' = db w.
Proof.
  unfold process_file_direct.
  destruct (read_csv_file_frame utf8_file 0 None w)
    as (r0 & w0 & Hread & F0 & D0 & Hdf).
  unfold bind at 1. rewrite Hread.
  destruct r0 as [df|e]; [|by eexists _, w0].
  destruct (Hdf df eq_refl) as (content & _ & -> & _).
  unfold bind at 1. unfold lift at 1. rewrite apply_transformations_read.
  unfold bind at 1. unfold lift at 1.
  destruct (table_name_of ft) as [table|e]; [|by eexists _, w0].
  set (df := transformed (read_csv content 0 None) ft).
  destruct (enhance_reference_data_frame env ft (Some df) None table w0)
    as (r & w' & Hrun & Hf & _ & _ & Hdb).
  unfold bind. rewrite Hrun. unfold ret. eexists _, w'.
  split; [done|]. split; [congruence|]. rewrite Hdb; [done|by eexists].
Qed.

(** The loop of the chunked loader ends, by a return or by an
    exception, when it has fuel for the rows that are left; it writes
    to the destination table only. *)
Lemma chunk_loop_frame (fuel chunk_size : nat)
    (file_path ft table : string) (st : loop_state) (w : World) :
  row_count (default EmptyString (fs w !! file_path)) - offset st < fuel →
  ∃ r w', chunk_loop fuel chunk_size file_path ft table st w = Some (r, w')
          ∧ fs w' = fs w
          ∧ natural_key (db w') = natural_key (db w)
          ∧ ∀ t, t ≠ table → table_rows (db w') t = table_rows (db w) t.
Proof.
  revert st w. induction fuel as [|fuel IH]; intros st w Hfuel; [lia|].
  cbn [chunk_loop].
  destruct (read_csv_file_frame file_path (offset st) (Some chunk_size) w)
    as (r0 & w0 & Hread & F0 & D0 & Hdf).
  unfold bind at 1. rewrite Hread.
  destruct r0 as [df|e].
  2:{ eexists _, w0. split; [done|]. split; [done|]. by rewrite D0. }
  destruct (Hdf df eq_refl) as (content & Hfs & -> & Hh).
  rewrite decide_False by done.
  rewrite apply_transformations_read.
  unfold bind at 1. unfold lift at 1.
  unfold bind at 1. unfold on_db at 1. cbn zeta.
  rewrite transformed_height.
  set (chunk := read_csv content (offset st) (Some chunk_size)) in *.
  set (w1 := mkWorld (fs w0)
               (bulk_upsert (transformed chunk ft) table (db w0)) (reads w0)).
  assert (fs w1 = fs w
          ∧ natural_key (db w1) = natural_key (db w)
          ∧ ∀ t, t ≠ table → table_rows (db w1) t = table_rows (db w) t)
    as (F1 & K1 & T1).
  { unfold w1. cbn [fs db]. split; [done|]. rewrite D0.
    split; [apply natural_key_bulk_upsert|].
    intros t Hne. by apply table_rows_bulk_upsert_ne. }
  case_decide.
  - unfold ret. by eexists _, w1.
  - destruct (IH (mkLoop (offset st + height chunk) (S (batch_num st))
                    (total_processed st + height chunk)) w1)
      as (r & w' & Hrun & F' & K' & T').
    { rewrite F1, Hfs. simpl. rewrite Hfs in Hfuel. simpl in Hfuel.
      unfold chunk in Hh |- *. rewrite height_read_csv in Hh |- *. lia. }
    exists r, w'. split; [exact Hrun|]. split; [congruence|].
    split; [congruence|]. intros t Hne. by rewrite T', T1.
Qed.

Lemma process_large_file_chunked_frame (env : Env) (fuel chunk_size : nat)
    (file_path ft : string) (w : World) :
  row_count (default EmptyString (fs w !! file_path)) < fuel →
  ∃ r w', _process_large_file_chunked env fuel chunk_size file_path ft w
          = Some (r, w')
          ∧ fs w' = fs w
          ∧ natural_key (db w') = natural_key (db w)
          ∧ ∀ t, dict_get FILE_MAPPINGS ft ≠ Some t →
                 table_rows (db w') t = table_rows (db w) t.
Proof.
  intros Hfuel. unfold _process_large_file_chunked.
  unfold bind at 1. unfold lift at 1.
  destruct (table_name_of ft) as [table|e] eqn:Htable; [|by eexists _, w].
  assert (dict_get FILE_MAPPINGS ft = Some table) as Hft.
  { unfold table_name_of in Htable.
    by destruct (dict_get FILE_MAPPINGS ft); simplify_eq. }
  destruct (read_csv_file_frame file_path 0 (Some 100) w)
    as (r0 & w0 & Hread & F0 & D0 & Hdf).
  unfold bind at 1. rewrite Hread.
  destruct r0 as [df|e].
  2:{ eexists _, w0. split; [done|]. split; [done|]. by rewrite D0. }
  destruct (Hdf df eq_refl) as (content & Hfs & -> & _).
  unfold bind at 1. unfold lift at 1. rewrite apply_transformations_read.
  cbn zeta.
  destruct (chunk_loop_frame fuel chunk_size file_path ft table
              (mkLoop 0 0 0) w0)
    as (r1 & w1 & Hloop & F1 & K1 & T1).
  { rewrite F0. simpl. lia. }
  unfold bind at 1. rewrite Hloop.
  destruct r1 as [st|e].
  2:{ eexists _, w1. split; [done|]. split; [congruence|].
      split; [congruence|]. intros t Hne. rewrite T1, D0; [done|congruence]. }
  case_decide.
  - destruct (enhance_reference_data_frame env ft None (Some TheAdapter)
                table w1) as (r & w' & Hrun & Hf & Hk & Ht & _).
    unfold bind. rewrite Hrun. unfold ret. eexists _, w'.
    split; [done|]. split; [congruence|]. split; [congruence|].
    intros t Hne. rewrite Ht, T1, D0; [done| |]; congruence.
  - unfold bind, ret. eexists _, w1. split; [done|].
    split; [congruence|]. split; [congruence|].
    intros t Hne. rewrite T1, D0; [done|congruence].
Qed.

Lemma fresh_file_absent (w : World) : fs w !! fresh (dom (fs w)) = None.
Proof. apply not_elem_of_dom, is_fresh. Qed.

(** A computation between the creation of the fresh file [p] and its
    removal: the other files are back as they were. *)
Lemma files_restored (p : string) (w w1 w2 : World) :
  fs w !! p = None →
  (∀ q, q ≠ p → fs w1 !! q = fs w !! q) →
  fs w2 = fs w1 →
  ∃ w', unlink_if_exists p w2 = Some (Ok tt, w')
        ∧ fs w' = fs w ∧ db w' = db w2.
Proof.
  intros Hp Hother H21. unfold unlink_if_exists.
  destruct (fs w2 !! p) as [c|] eqn:E.
  - eexists. split; [done|]. split; [|done]. cbn [fs].
    apply map_eq. intros q. destruct (decide (q = p)) as [->|Hne].
    + by rewrite lookup_delete_eq, Hp.
    + rewrite lookup_delete_ne by done. rewrite H21. by apply Hother.
  - exists w2. split; [done|]. split; [|done].
    apply map_eq. intros q. destruct (decide (q = p)) as [->|Hne].
    + by rewrite E, Hp.
    + rewrite H21. by apply Hother.
Qed.

Lemma conversion_raises_clean (env : Env) (config : Config)
    (input_file : string) (w w' : World) (e : exn) :
  is_Some (fs w !! input_file) →
  _convert_file_encoding_chunked env config input_file None w
  = Some (Raise e, w') →
  fs w' !! fresh (dom (fs w)) = None.
Proof.
  intros [content Hin]. unfold _convert_file_encoding_chunked.
  unfold bind at 1. unfold mkstemp at 1.
  unfold bind at 1. unfold _get_file_size_mb at 1. cbn [fs].
  assert (fresh (dom (fs w)) ≠ input_file) as Hne.
  { intros E. pose proof (fresh_file_absent w) as F. rewrite E in F.
    congruence. }
  rewrite lookup_insert_ne, Hin by done.
  apply cleanup_handler_removes.
Qed.

Lemma process_file_frame (env : Env) (config : Config) (chunk_size : nat)
    (file_path : string) (w : World) :
  0 < chunk_size →
  ∃ fuel0, ∀ fuel, fuel0 ≤ fuel →
    ∃ r w', process_file env config fuel chunk_size file_path w
            = Some (r, w')
            ∧ fs w' = fs w
            ∧ natural_key (db w') = natural_key (db w)
            ∧ ∀ t, destination_of env file_path ≠ Some t →
                   table_rows (db w') t = table_rows (db w) t.
Proof.
  intros Hcs. unfold process_file, destination_of.
  destruct (fs w !! file_path) as [content|] eqn:Hin.
  2:{ exists 0. intros fuel _. unfold bind, _get_file_size_mb.
      rewrite Hin. by exists (Raise (OSError "FileNotFoundError")), w. }
  destruct (_get_file_type env (path_name file_path)) as [ft|] eqn:Hft.
  2:{ exists 0. intros fuel _. unfold bind, _get_file_size_mb, raise.
      rewrite Hin. by eexists _, w. }
  simpl.
  set (p := fresh (dom (fs w))).
  destruct (conversion_touches env config file_path None w)
    as (r1 & w1 & Hconv & (Hdb1 & _ & Hfs1) & Hres).
  simpl in Hfs1, Hres. fold p in Hfs1, Hres.
  destruct r1 as [q|e].
  2:{ exists 0. intros fuel _.
      unfold bind at 1. unfold _get_file_size_mb at 1. rewrite Hin.
      unfold bind at 1. rewrite Hconv.
      exists (Raise e), w1. split; [done|]. split.
      - apply map_eq. intros q. destruct (decide (q = p)) as [->|Hne].
        + unfold p. rewrite fresh_file_absent.
          eapply conversion_raises_clean; [|exact Hconv]. by eexists.
        + by apply Hfs1.
      - rewrite Hdb1. by split. }
  rewrite (Hres q eq_refl) in Hconv. clear Hres q.
  exists (S (row_count (default EmptyString (fs w1 !! p)))).
  intros fuel Hfuel.
  unfold bind at 1. unfold _get_file_size_mb at 1. rewrite Hin.
  unfold bind at 1. rewrite Hconv. unfold try_finally.
  assert (∃ r2 w2,
            (utf8_size_mb <- _get_file_size_mb p ;;
             if Qgt_bool utf8_size_mb (max_file_size_mb config)
             then _process_large_file_chunked env fuel chunk_size p ft
             else process_file_direct env p ft) w1 = Some (r2, w2)
            ∧ fs w2 = fs w1
            ∧ natural_key (db w2) = natural_key (db w1)
            ∧ ∀ t, dict_get FILE_MAPPINGS ft ≠ Some t →
                   table_rows (db w2) t = table_rows (db w1) t)
    as (r2 & w2 & Hbody & F2 & K2 & T2).
  { unfold bind, _get_file_size_mb.
    destruct (fs w1 !! p) as [c1|] eqn:E1; [|by eexists _, w1].
    destruct (Qgt_bool _ _).
    - apply process_large_file_chunked_frame.
      rewrite E1. simpl. simpl in Hfuel. lia.
    - destruct (process_file_direct_frame env p ft w1)
        as (r2 & w2 & Hrun & F2 & D2).
      exists r2, w2. split; [done|]. split; [done|]. rewrite D2. by split. }
  rewrite Hbody.
  destruct (files_restored p w w1 w2 (fresh_file_absent w) Hfs1 F2)
    as (w' & Hun & F' & D').
  rewrite Hun. exists r2, w'. split; [done|]. split; [done|].
  rewrite D', K2, Hdb1. split; [done|].
  intros t Hne. by rewrite T2, Hdb1.
Qed.

(** X9. [process_file] ends whatever happens in it (with fuel for the
    turns of the chunk loop), and the files are then exactly as before
    the call: the converted copy it made is gone, on the chunked path
    as on the whole-file path, when it returns as when it raises. *)
Theorem process_file_restores_files (env : Env) (config : Config)
    (chunk_size : nat) (file_path : string) (w : World) :
  0 < chunk_size →
  ∃ fuel0, ∀ fuel, fuel0 ≤ fuel →
    ∃ r w', process_file env config fuel chunk_size file_path w
            = Some (r, w')
            ∧ fs w' = fs w.
Proof.
  intros Hcs.
  destruct (process_file_frame env config chunk_size file_path w Hcs)
    as [fuel0 H].
  exists fuel0. intros fuel Hfuel.
  destruct (H fuel Hfuel) as (r & w' & Hrun & Hfs & _).
  by exists r, w'.
Qed.

Lemma process_file_restores_files_witness :
  let env := mkEnv (fun ev => match ev with
                              | WriteChunk 1 => Some (OSError "ENOSPC")
                              | _ => None
                              end) None (Ok None) (Ok None) upper in
  let w := mkWorld {[ "K1.EMPRECSV" := "1;A;2;3;10,5;1;;" ]}
             (mkAdapter false (fun _ => []) ∅ []) [] in
  ∃ fuel0, ∀ fuel, fuel0 ≤ fuel →
    ∃ r w', process_file env (mkConfig false 4 1%Q) fuel 2 "K1.EMPRECSV" w
            = Some (r, w')
            ∧ fs w' = fs w.
Proof.
  intros env w.
  apply (process_file_restores_files env (mkConfig false 4 1%Q) 2
           "K1.EMPRECSV" w).
  lia.
Defined.

Lemma destination_not_ledger (env : Env) (file_path : string) :
  destination_of env file_path ≠ Some "processed_files".
Proof.
  unfold destination_of.
  destruct (_get_file_type env (path_name file_path)) as [ft|] eqn:E; [|done].
  simpl. apply first_pattern_elem in E. simpl in E.
  repeat (apply elem_of_cons in E as [->|E]; [done|]).
  by apply elem_of_nil in E.
Qed.

(** X10. Of the database, [process_file] can change the rows of one
    table only, the destination table of the file: every other table
    holds the rows it held, and the ledger of processed files answers
    as before; [process_file] itself marks no file as processed. *)
Theorem process_file_writes_one_table (env : Env) (config : Config)
    (chunk_size : nat) (file_path : string) (w : World) :
  0 < chunk_size →
  ∃ fuel0, ∀ fuel, fuel0 ≤ fuel →
    ∃ r w', process_file env config fuel chunk_size file_path w
            = Some (r, w')
            ∧ (∀ t, destination_of env file_path ≠ Some t →
                    table_rows (db w') t = table_rows (db w) t)
            ∧ ∀ d f, (is_processed d f (db w')).1
                     = (is_processed d f (db w)).1.
Proof.
  intros Hcs.
  destruct (process_file_frame env config chunk_size file_path w Hcs)
    as [fuel0 H].
  exists fuel0. intros fuel Hfuel.
  destruct (H fuel Hfuel) as (r & w' & Hrun & _ & _ & Ht).
  exists r, w'. split; [done|]. split; [done|].
  intros d f. unfold is_processed. simpl.
  rewrite !table_rows_connect.
  by rewrite (Ht "processed_files" (destination_not_ledger env file_path)).
Qed.

Lemma process_file_writes_one_table_witness :
  let env := mkEnv (fun _ => None) None (Ok None) (Ok None) upper in
  let w := mkWorld {[ "K1.EMPRECSV" := "1;A;2;3;10,5;1;;" ]}
             (mkAdapter false (fun _ => []) ∅ []) [] in
  ∃ fuel0, ∀ fuel, fuel0 ≤ fuel →
    ∃ r w', process_file env (mkConfig false 4 0%Q) fuel 2 "K1.EMPRECSV" w
            = Some (r, w')
            ∧ (∀ t, destination_of env "K1.EMPRECSV" ≠ Some t →
                    table_rows (db w') t = table_rows (db w) t)
            ∧ ∀ d f, (is_processed d f (db w')).1
                     = (is_processed d f (db w)).1.
Proof.
  intros env w.
  apply (process_file_writes_one_table env (mkConfig false 4 0%Q) 2
           "K1.EMPRECSV" w).
  lia.
Defined.

(** X11. The whole-file branch of [process_file] works in memory: it
    ends, runs no statement on the database and changes no file,
    whatever the file holds and whatever the reconciliation source
    does; writing the frame it returns is left to the caller. *)
Theorem whole_file_branch_leaves_storage (env : Env)
    (utf8_file file_type : string) (w : World) :
  ∃ r w', process_file_direct env utf8_file file_type w = Some (r, w')
          ∧ fs w' = fs w
          ∧ db w' = db w.
Proof. apply process_file_direct_frame. Qed.

(** ** The reference reconciler: what it never does *)

Lemma enhance_with_no_handle (env : Env)
    (diff : Env -> list cell -> outcome (option DataFrame))
    (table : string) (w : World) :
  enhance_with env diff None None table w = Some (Ok None, w).
Proof.
  unfold enhance_with, try_except, bind, import_reference_data, raise, ret.
  destruct (reference_import env) as [e|]; [by destruct e|done].
Qed.

(** X12. Given a frame, the enhancement of reference data never raises
    and never loses official data, whatever the file type, the frame
    and the reconciliation source are: it returns a frame with the same
    columns whose rows begin with the rows it was given, and it leaves
    files and database alone.  Called with neither a frame nor an
    adapter, it returns [None]: the [ValueError] raised for that is
    caught by its own handler. *)
Theorem enhancement_keeps_official_rows (env : Env) (ft : string)
    (d : DataFrame) (dbh : option db_handle) (table : string) (w : World) :
  (∃ d', _enhance_reference_data env ft (Some d) dbh table w
         = Some (Ok (Some d'), w)
         ∧ columns d' = columns d
         ∧ rows d `prefix_of` rows d')
  ∧ _enhance_reference_data env ft None None table w = Some (Ok None, w).
Proof.
  unfold _enhance_reference_data.
  destruct (dict_get REFERENCE_ENHANCEMENTS ft) as [cfg|].
  - destruct (source cfg);
      (split; [apply enhance_with_frame_mode|apply enhance_with_no_handle]).
  - split; [by exists d|done].
Qed.

Lemma insert_new_code (t : list record) (r : record) :
  field r "codigo" ∉ stored_codes t →
  insert_or_replace ["codigo"] t r = t ++ [r].
Proof.
  intros Hnew. unfold insert_or_replace. f_equal.
  induction t as [|r' t IH]; [done|].
  rewrite filter_cons. rewrite decide_True.
  - f_equal. apply IH. intros Hin. apply Hnew.
    unfold stored_codes. rewrite fmap_cons. by right.
  - rewrite !key_of_codigo. intros [= E]. apply Hnew.
    unfold stored_codes. rewrite fmap_cons, E. by left.
Qed.

Lemma foldl_insert_new_codes (t rs : list record) :
  (∀ r, r ∈ rs → field r "codigo" ∉ stored_codes t) →
  NoDup (stored_codes rs) →
  foldl (insert_or_replace ["codigo"]) t rs = t ++ rs.
Proof.
  revert t. induction rs as [|r rs IH]; intros t Hnew Hnd.
  - by rewrite app_nil_r.
  - cbn [foldl]. rewrite insert_new_code by (apply Hnew; by left).
    unfold stored_codes in Hnd. rewrite fmap_cons in Hnd.
    apply NoDup_cons in Hnd as [Hr Hnd].
    rewrite IH; [by rewrite <- app_assoc| |done].
    intros r' Hr'. unfold stored_codes. rewrite fmap_app, elem_of_app.
    intros [Hin|Hin].
    + by apply (Hnew r'); [right|].
    + simpl in Hin. apply list_elem_of_singleton in Hin.
      apply Hr. rewrite <- Hin.
      by apply (list_elem_of_fmap_2 (fun r : record => field r "codigo")).
Qed.

(** X13. On a table keyed by the code, the enhancement through the
    database never raises, returns [None] and never replaces a stored
    row, whatever the file type and the reconciliation source are: the
    table holds afterwards the rows it held, in their order, followed
    by the added rows, whose codes were not stored and are pairwise
    different. *)
Theorem reconciliation_keeps_stored_rows (env : Env) (ft table : string)
    (w : World) :
  natural_key (db w) table = ["codigo"] →
  ∃ w' added,
    _enhance_reference_data env ft None (Some TheAdapter) table w
    = Some (Ok None, w')
    ∧ table_rows (db w') table = table_rows (db w) table ++ added
    ∧ (∀ r, r ∈ added →
            field r "codigo" ∉ stored_codes (table_rows (db w) table))
    ∧ NoDup (stored_codes added).
Proof.
  intros Hkey.
  assert (∀ w', tables (db w') = tables (db w) →
            table_rows (db w') table = table_rows (db w) table ++ []
            ∧ (∀ r : record, r ∈ [] →
                 field r "codigo" ∉ stored_codes (table_rows (db w) table))
            ∧ NoDup (stored_codes [])) as Hnone.
  { intros w' Ht. rewrite app_nil_r. split; [by apply table_rows_ext|].
    split; [by intros r H%elem_of_nil|apply NoDup_nil_2]. }
  destruct (dict_get REFERENCE_ENHANCEMENTS ft) as [cfg|] eqn:Hcfg.
  2:{ unfold _enhance_reference_data. rewrite Hcfg.
      exists w, []. split; [done|]. by apply Hnone. }
  rewrite (enhance_reference_data_flagged env ft cfg _ _ table Hcfg).
  destruct (reference_import env) as [e|] eqn:Himp.
  { destruct (enhance_db_keeps env (source cfg) table w) as (w' & Hrun & Ht).
    - left. by rewrite Himp.
    - exists w', []. split; [done|]. by apply Hnone. }
  destruct (source_of env (source cfg)) as [[ext|]|e] eqn:Hsrc.
  - rewrite (enhance_db_mode env _ ext table w Himp)
      by (intros codes; by rewrite Hsrc).
    set (mc := missing_codes ext (stored_codes (table_rows (db w) table))).
    eexists _, (zip ["codigo"; "descricao"] <$> (code_row <$> mc)).
    split; [done|]. cbn [db].
    assert (NoDup (stored_codes
                     (zip ["codigo"; "descricao"] <$> (code_row <$> mc))))
      as Hnd.
    { rewrite stored_codes_code_rows.
      pose proof (missing_codes_NoDup ext
                    (stored_codes (table_rows (db w) table))) as Hn.
      fold mc in Hn.
      replace ((fun kv : string * string => Some (VStr kv.1)) <$> mc)
        with ((fun c => Some (VStr c)) <$> mc.*1)
        by (by rewrite <- list_fmap_compose).
      apply NoDup_fmap_2; [|done]. by intros c c' [= ->]. }
    assert (∀ r, r ∈ zip ["codigo"; "descricao"] <$> (code_row <$> mc) →
              field r "codigo" ∉ stored_codes (table_rows (db w) table))
      as Hnew.
    { intros r Hr.
      apply list_elem_of_fmap in Hr as (cr & -> & Hcr).
      apply list_elem_of_fmap in Hcr as ([c d] & -> & Hcd).
      apply missing_codes_spec in Hcd as [_ Hcd]. exact Hcd. }
    split; [|by split].
    rewrite table_rows_reconcile_db, Hkey.
    by apply foldl_insert_new_codes.
  - destruct (enhance_db_keeps env (source cfg) table w) as (w' & Hrun & Ht).
    + right. intros ext. by rewrite Hsrc.
    + exists w', []. split; [done|]. by apply Hnone.
  - destruct (enhance_db_keeps env (source cfg) table w) as (w' & Hrun & Ht).
    + right. intros ext. by rewrite Hsrc.
    + exists w', []. split; [done|]. by apply Hnone.
Qed.

Lemma reconciliation_keeps_stored_rows_witness :
  let env := mkEnv (fun _ => None) None
               (Ok (Some (<["01" := "A"]> {[ "99" := "Z" ]}))) (Ok None) upper in
  let stored := [ [("codigo", Some (VStr "01"));
                   ("descricao", Some (VStr "OFFICIAL"))] ] in
  let w := mkWorld ∅
             (mkAdapter true (fun _ => ["codigo"])
                {[ "motivos" := stored ]} []) [] in
  ∃ w' added,
    _enhance_reference_data env "MOTICSV" None (Some TheAdapter) "motivos" w
    = Some (Ok None, w')
    ∧ table_rows (db w') "motivos" = stored ++ added
    ∧ (∀ r, r ∈ added → field r "codigo" ∉ stored_codes stored)
    ∧ NoDup (stored_codes added).
Proof.
  intros env stored w.
  apply (reconciliation_keeps_stored_rows env "MOTICSV" "motivos" w).
  reflexivity.
Defined.

(** ** The record transformer: shape, names and untouched columns *)

Lemma transformed_columns (df : DataFrame) (ft : string) (w : nat) :
  columns df = default_columns w →
  columns (transformed df ft)
  = match dict_get COLUMN_MAPPINGS ft with
    | Some m => new_column_names m w
    | None => default_columns w
    end.
Proof.
  intros Hw. unfold transformed. cbn [columns].
  rewrite (rename_columns_default df _ w Hw).
  destruct (dict_get COLUMN_MAPPINGS ft) as [m|] eqn:Hm; [|done].
  destruct (catalog_mapping_good ft m Hm) as [_ Hne]. simpl.
  by destruct m.
Qed.

Lemma new_column_names_lookup (m : list string) (w j : nat) :
  new_column_names m w !! j
  = if decide (j < w)
    then Some (default ("column_" +:+ pretty j) (m !! j))
    else None.
Proof.
  unfold new_column_names. rewrite list_lookup_fmap.
  case_decide as Hj.
  - by rewrite lookup_seq_lt.
  - by rewrite lookup_seq_ge by lia.
Qed.

Lemma default_columns_lookup (w j : nat) :
  default_columns w !! j
  = if decide (j < w) then Some ("column_" +:+ pretty (S j)) else None.
Proof.
  unfold default_columns. rewrite list_lookup_fmap.
  case_decide as Hj.
  - by rewrite lookup_seq_lt.
  - by rewrite lookup_seq_ge by lia.
Qed.

Lemma transform_row_length (ft : string) (r : list cell) :
  length (transform_row ft r) = length r.
Proof.
  unfold transform_row. repeat case_decide; by rewrite ?length_alter.
Qed.

(** X14. On any window read from any file the transformer returns, and
    the frame it returns has the rows and the width of the window, one
    cell per column in every row.  For a file type of the catalog the
    column at position [i] takes the [i]-th name of the mapping, and
    beyond the mapping the name [column_i] with [i] counted from 0; for
    another file type the columns keep the names of the reader,
    [column_1], [column_2], ... *)
Theorem transformer_shape_and_names (content : string) (skip_rows : nat)
    (n_rows : option nat) (ft : string) :
  let df := read_csv content skip_rows n_rows in
  ∃ df', _apply_transformations df ft = Ok df'
         ∧ height df' = height df
         ∧ rectangular df'
         ∧ length (columns df') = length (columns df)
         ∧ ∀ i, i < length (columns df) →
             columns df' !! i
             = Some match dict_get COLUMN_MAPPINGS ft with
                    | Some m => default ("column_" +:+ pretty i) (m !! i)
                    | None => "column_" +:+ pretty (S i)
                    end.
Proof.
  intros df. exists (transformed df ft).
  destruct (read_csv_raw content skip_rows n_rows) as ([w Hw] & Hrect & _).
  fold df in Hw, Hrect.
  pose proof (transformed_columns df ft w Hw) as Hcols.
  assert (length (columns (transformed df ft)) = length (columns df)) as Hlen.
  { unfold transformed. cbn [columns]. apply rename_columns_length. }
  split; [apply apply_transformations_read|].
  split; [apply transformed_height|]. split; [|split; [done|]].
  - unfold rectangular. rewrite Hlen. unfold transformed. cbn [rows].
    apply Forall_fmap. eapply Forall_impl; [exact Hrect|].
    intros r Hr. simpl. by rewrite transform_row_length.
  - intros i Hi. rewrite Hw, default_columns_length in Hi. rewrite Hcols.
    destruct (dict_get COLUMN_MAPPINGS ft) as [m|].
    + by rewrite new_column_names_lookup, decide_True.
    + by rewrite default_columns_lookup, decide_True.
Qed.

Lemma transformed_column_name (df : DataFrame) (ft : string)
    (m : list string) (j : nat) (name name' : string) :
  raw_frame df →
  dict_get COLUMN_MAPPINGS ft = Some m →
  m !! j = Some name' →
  columns (transformed df ft) !! j = Some name →
  name = name'.
Proof.
  intros ([w Hw] & _ & _) Hm Hj.
  rewrite (transformed_columns df ft w Hw), Hm, new_column_names_lookup.
  case_decide; [|done]. rewrite Hj. simpl. congruence.
Qed.

Ltac column_name_at Hraw Hcol :=
  match type of Hcol with
  | columns (transformed ?df ?ft) !! ?j = Some ?name =>
      let m := eval vm_compute in (default [] (dict_get COLUMN_MAPPINGS ft)) in
      let n := eval vm_compute in (default EmptyString (m !! j)) in
      rewrite (transformed_column_name df ft m j name n Hraw eq_refl eq_refl
                 Hcol)
  end.

Ltac listed_column Hraw Hcol Hout :=
  exfalso; apply Hout; column_name_at Hraw Hcol; by repeat constructor.

(** X15. The transformer rewrites listed columns only: in every row of
    a window read from a file, a cell whose column is not among the
    numeric nor the date columns the catalog lists for the file type,
    and is not the column [pais] of the establishments, is returned as
    it was read.  In particular the column [pais] of the partners is
    not padded. *)
Theorem transformer_changes_listed_columns_only (content : string)
    (skip_rows : nat) (n_rows : option nat) (ft : string) :
  let df := read_csv content skip_rows n_rows in
  ∃ df', _apply_transformations df ft = Ok df'
         ∧ ∀ i r, rows df !! i = Some r →
             ∃ r', rows df' !! i = Some r'
                   ∧ ∀ j name,
                       columns df' !! j = Some name →
                       name ∉ numeric_cols_of ft →
                       name ∉ date_cols_of ft →
                       ¬ (ft = "ESTABELE" ∧ name = "pais") →
                       r' !! j = r !! j.
Proof.
  intros df. exists (transformed df ft).
  pose proof (read_csv_raw content skip_rows n_rows) as Hraw. fold df in Hraw.
  split; [apply apply_transformations_read|].
  intros i r Hr. exists (transform_row ft r).
  split; [by apply transformed_row|].
  intros j name Hcol Hnum Hdate Hpais.
  unfold transform_row.
  destruct (decide (ft = "EMPRECSV")) as [->|N1].
  { destruct (decide (j = 4)) as [->|];
      [listed_column Hraw Hcol Hnum|by lookup_alter]. }
  destruct (decide (ft = "ESTABELE")) as [->|N2].
  { destruct (decide (j = 9)) as [->|].
    { exfalso. apply Hpais. split; [done|]. by column_name_at Hraw Hcol. }
    destruct (decide (j = 29)) as [->|];
      [listed_column Hraw Hcol Hdate|].
    destruct (decide (j = 10)) as [->|];
      [listed_column Hraw Hcol Hdate|].
    destruct (decide (j = 6)) as [->|];
      [listed_column Hraw Hcol Hdate|by lookup_alter]. }
  destruct (decide (ft = "SIMPLESCSV")) as [->|N3].
  { destruct (decide (j = 6)) as [->|];
      [listed_column Hraw Hcol Hdate|].
    destruct (decide (j = 5)) as [->|];
      [listed_column Hraw Hcol Hdate|].
    destruct (decide (j = 3)) as [->|];
      [listed_column Hraw Hcol Hdate|].
    destruct (decide (j = 2)) as [->|];
      [listed_column Hraw Hcol Hdate|by lookup_alter]. }
  destruct (decide (ft = "SOCIOCSV")) as [->|N4].
  { destruct (decide (j = 5)) as [->|];
      [listed_column Hraw Hcol Hdate|by lookup_alter]. }
  done.
Qed.

(** ** Numbers with more than one separator *)

Lemma seps_cons (c : Ascii.ascii) (s : string) :
  seps (String c s)
  = (if decide (c = ","%char) then 1 else 0)
    + (if decide (c = "."%char) then 1 else 0) + seps s.
Proof. unfold seps. cbn [count_char]. lia. Qed.

Lemma str_replace_comma_seps (s : string) :
  seps (str_replace "," "." s) = seps s.
Proof.
  induction s as [|c s IH]; [done|].
  destruct (decide (c = ","%char)) as [->|Hc].
  - assert (String.prefix "," (String "," s) = true) as Hp
      by (by destruct s).
    unfold str_replace; fold str_replace. rewrite Hp.
    change ("." +:+ str_drop (String.length ",") (String "," s))
      with (String "."%char s).
    by rewrite !seps_cons.
  - assert (String.prefix "," (String c s) = false) as Hp.
    { change (String.prefix "," (String c s))
        with (match Ascii.ascii_dec ","%char c with
              | left _ => String.prefix EmptyString s
              | right _ => false
              end).
      destruct (Ascii.ascii_dec ","%char c); [congruence|done]. }
    unfold str_replace; fold str_replace. rewrite Hp.
    by rewrite !seps_cons, IH.
Qed.

Lemma digit_not_sep (c : Ascii.ascii) (d : nat) :
  Ascii.is_nat c = Some d → c ≠ ","%char ∧ c ≠ "."%char.
Proof. intros H. split; intros ->; discriminate. Qed.

Lemma take_digits_seps (s : string) (acc : Z) (n : nat) :
  seps (take_digits s acc n).2 = seps s.
Proof.
  revert acc n. induction s as [|c s IH]; intros acc n; [done|].
  cbn [take_digits]. destruct (Ascii.is_nat c) as [d|] eqn:E; [|done].
  rewrite IH, seps_cons. destruct (digit_not_sep c d E) as [H1 H2].
  by rewrite !decide_False by done.
Qed.

Lemma split_sign_seps (s : string) : seps (split_sign s).2 = seps s.
Proof.
  destruct s as [|c s]; [done|]. unfold split_sign.
  repeat case_decide; subst; cbn [snd]; [| |done];
    by rewrite seps_cons, !decide_False by done.
Qed.

Lemma parse_exponent_seps (s : string) :
  is_Some (parse_exponent s) → seps s = 0.
Proof.
  unfold parse_exponent. intros H.
  rewrite <- split_sign_seps.
  destruct (split_sign s) as [neg s1]. cbn [snd].
  rewrite <- (take_digits_seps s1 0 0).
  destruct (take_digits s1 0 0) as [[e k] rest]. cbn [snd].
  destruct k as [|k]; [by destruct H|].
  destruct rest; [done|by destruct H].
Qed.

(** What follows the digits and the point of a number holds no
    separator. *)
Lemma number_tail_seps (neg : bool) (m : Z) (nf : nat) (s3 : string) :
  is_Some (match s3 with
           | EmptyString => Some (decimal_to_float64 neg m (- Z.of_nat nf))
           | String c s4 =>
               if decide (c = "e"%char \/ c = "E"%char)
               then e ← parse_exponent s4;
                    Some (decimal_to_float64 neg m (e - Z.of_nat nf))
               else None
           end) →
  seps s3 = 0.
Proof.
  destruct s3 as [|c s4]; [done|].
  case_decide as Hc; [|by intros [? ?]].
  intros H.
  assert (is_Some (parse_exponent s4)) as He.
  { destruct (parse_exponent s4); [by eexists|by destruct H]. }
  apply parse_exponent_seps in He.
  rewrite seps_cons, He.
  destruct Hc as [-> | ->]; by rewrite !decide_False by done.
Qed.

Lemma ascii_upper_sep (c : Ascii.ascii) :
  (ascii_upper c = ","%char ↔ c = ","%char)
  ∧ (ascii_upper c = "."%char ↔ c = "."%char).
Proof.
  destruct c as [[] [] [] [] [] [] [] []];
    (split; split; intros H; first [done | by vm_compute in H]).
Qed.

Lemma upper_seps (s : string) : seps (upper s) = seps s.
Proof.
  induction s as [|c s IH]; [done|].
  cbn [upper]. rewrite !seps_cons, IH.
  destruct (ascii_upper_sep c) as [H1 H2].
  repeat case_decide; try done; tauto.
Qed.

(** The names of the special values hold no separator. *)
Lemma special_float_seps (neg : bool) (s : string) :
  is_Some (special_float neg s) → seps s = 0.
Proof.
  unfold special_float. rewrite <- (upper_seps s).
  case_decide as H1; [by destruct H1 as [-> | ->]|].
  case_decide as H2; [by rewrite H2|]. by intros [? ?].
Qed.

Lemma parse_float_seps (s : string) : is_Some (parse_float s) → seps s ≤ 1.
Proof.
  unfold parse_float. intros H.
  rewrite <- split_sign_seps.
  destruct (split_sign s) as [neg s1]. cbn [snd].
  destruct (special_float neg s1) as [x|] eqn:Es.
  { rewrite (special_float_seps neg s1); [lia|]. by rewrite Es. }
  rewrite <- (take_digits_seps s1 0 0).
  destruct (take_digits s1 0 0) as [[ip ni] s2]. cbn [snd].
  destruct s2 as [|c s2'].
  - unfold seps. simpl. lia.
  - destruct (decide (c = "."%char)) as [->|Hc].
    + pose proof (take_digits_seps s2' ip 0) as Hs.
      destruct (take_digits s2' ip 0) as [[m nf] s3]. cbn [snd] in Hs.
      case_decide; [by destruct H|].
      apply number_tail_seps in H.
      rewrite seps_cons, <- Hs, H.
      by rewrite decide_False, decide_True by done.
    + case_decide; [by destruct H|].
      apply (number_tail_seps _ _ 0 (String c s2')) in H. lia.
Qed.

(** X16. Only the first comma of a numeric text is turned into a
    point: a text with more than one separator, commas and points
    together, such as a number written with thousands separators, is
    no number after the replacement, and the numeric expression
    returns null for it without raising. *)
Theorem numeric_with_two_separators_is_null (s : string) :
  2 ≤ seps s → numeric_expr (Some (VStr s)) = Ok None.
Proof.
  intros H. unfold numeric_expr. simpl.
  destruct (parse_float (str_replace "," "." s)) as [q|] eqn:E; [|done].
  assert (is_Some (parse_float (str_replace "," "." s))) as Hq
    by (by exists q).
  apply parse_float_seps in Hq. rewrite str_replace_comma_seps in Hq. lia.
Qed.

Lemma numeric_with_two_separators_is_null_witness :
  numeric_expr (Some (VStr "1.234,56")) = Ok None.
Proof.
  apply (numeric_with_two_separators_is_null "1.234,56").
  vm_compute. lia.
Defined.

(** ** Storage: the ledger and the destination tables *)

Lemma tables_connect (a : SQLiteAdapter) : tables (connect a) = tables a.
Proof. unfold connect. by destruct (conn a). Qed.

Lemma tables_mark_processed (now d f : string) (a : SQLiteAdapter) :
  tables (mark_processed now d f a)
  = if decide (Exists (same_file d f) (table_rows a "processed_files"))
    then tables a
    else <["processed_files" :=
             table_rows a "processed_files" ++ [ledger_row d f now]]>
           (tables a).
Proof.
  unfold mark_processed. rewrite table_rows_connect.
  case_decide; cbn [tables]; by rewrite tables_connect.
Qed.

Lemma natural_key_mark_processed (now d f : string) (a : SQLiteAdapter) :
  natural_key (mark_processed now d f a) = natural_key a.
Proof.
  unfold mark_processed. case_decide; cbn [natural_key];
    apply natural_key_connect.
Qed.

Lemma tables_bulk_upsert (df : DataFrame) (table : string)
    (a : SQLiteAdapter) :
  tables (bulk_upsert df table a)
  = if decide (height df = 0) then tables a
    else <[table := foldl (insert_or_replace (natural_key a table))
                      (table_rows a table) (frame_records df)]> (tables a).
Proof.
  unfold bulk_upsert. case_decide; [done|].
  unfold executemany_insert. cbn [tables].
  by rewrite tables_connect, natural_key_connect, table_rows_connect.
Qed.

(** X17. The ledger of processed files and the destination tables do
    not interfere: a bulk upsert into a table other than
    [processed_files] changes no answer of the ledger, marking a file
    changes no row of that table, and the two can be done in either
    order with the same tables as result. *)
Theorem ledger_and_tables_independent (df : DataFrame) (table : string)
    (now d f : string) (a : SQLiteAdapter) :
  table ≠ "processed_files" →
  (∀ d' f', (is_processed d' f' (bulk_upsert df table a)).1
            = (is_processed d' f' a).1)
  ∧ (∀ d', (get_processed_files d' (bulk_upsert df table a)).1
           = (get_processed_files d' a).1)
  ∧ table_rows (mark_processed now d f a) table = table_rows a table
  ∧ tables (mark_processed now d f (bulk_upsert df table a))
    = tables (bulk_upsert df table (mark_processed now d f a)).
Proof.
  intros Hne.
  assert (table_rows (bulk_upsert df table a) "processed_files"
          = table_rows a "processed_files") as Hledger
    by (by apply table_rows_bulk_upsert_ne).
  assert (table_rows (mark_processed now d f a) table
          = table_rows a table) as Hmark.
  { unfold table_rows. rewrite tables_mark_processed.
    case_decide; [done|]. by rewrite lookup_insert_ne. }
  split; [|split; [|split]].
  - intros d' f'. unfold is_processed. simpl.
    by rewrite !table_rows_connect, Hledger.
  - intros d'. unfold get_processed_files. simpl.
    by rewrite !table_rows_connect, Hledger.
  - exact Hmark.
  - rewrite tables_mark_processed, Hledger, !tables_bulk_upsert.
    rewrite natural_key_mark_processed, Hmark, tables_mark_processed.
    repeat case_decide; try done.
    by apply insert_insert_ne.
Qed.

Lemma ledger_and_tables_independent_witness :
  let df := mkDataFrame ["codigo"; "descricao"]
              [[Some (VStr "01"); Some (VStr "A")]] in
  let a := init_adapter (fun _ => ["codigo"]) ∅ in
  (is_processed "2024-01" "K1.MOTICSV"
     (bulk_upsert df "motivos" (mark_processed "t0" "2024-01" "K1.MOTICSV" a))).1
  = true
  ∧ table_rows (mark_processed "t0" "2024-01" "K1.MOTICSV"
                  (bulk_upsert df "motivos" a)) "motivos"
    = frame_records df.
Proof.
  intros df a.
  destruct (ledger_and_tables_independent df "motivos" "t0" "2024-01"
              "K1.MOTICSV" (mark_processed "t0" "2024-01" "K1.MOTICSV" a))
    as (H1 & _ & _ & _); [done|].
  destruct (ledger_and_tables_independent df "motivos" "t0" "2024-01"
              "K1.MOTICSV" (bulk_upsert df "motivos" a))
    as (_ & _ & H3 & _); [done|].
  split.
  - rewrite H1. reflexivity.
  - rewrite H3. reflexivity.
Defined.

(** ** Storage: a bulk upsert, and the same again *)

Lemma table_rows_bulk_upsert_by_key (df : DataFrame) (table : string)
    (a : SQLiteAdapter) :
  natural_key a table ≠ [] →
  table_rows (bulk_upsert df table a) table
  = filter (fun r => key_of (natural_key a table) r
                     ∉ key_of (natural_key a table) <$> frame_records df)
           (table_rows a table)
    ++ last_by_key (natural_key a table) (frame_records df).
Proof.
  intros Hk. rewrite table_rows_bulk_upsert. by apply foldl_insert_by_key.
Qed.

(** X18. A bulk upsert into a table with a natural key leaves the
    stored rows whose key the frame does not hold, in their order,
    followed by the rows of the frame, of which the last one wins where
    several share a key; the same bulk upsert done again changes
    nothing, and keys that were unique stay unique. *)
Theorem bulk_upsert_again (df : DataFrame) (table : string)
    (a : SQLiteAdapter) :
  natural_key a table ≠ [] →
  let k := natural_key a table in
  let a1 := bulk_upsert df table a in
  table_rows a1 table
  = filter (fun r => key_of k r ∉ key_of k <$> frame_records df)
           (table_rows a table)
    ++ last_by_key k (frame_records df)
  ∧ table_rows (bulk_upsert df table a1) table = table_rows a1 table
  ∧ (NoDup (key_of k <$> table_rows a table) →
     NoDup (key_of k <$> table_rows a1 table)).
Proof.
  intros Hk k a1.
  pose proof (table_rows_bulk_upsert_by_key df table a Hk) as H1.
  fold k a1 in H1. split; [done|]. split.
  - assert (natural_key a1 table = k) as Hk1
      by (unfold a1; by rewrite natural_key_bulk_upsert).
    rewrite table_rows_bulk_upsert_by_key by (by rewrite Hk1).
    rewrite Hk1, H1, filter_app, list_filter_filter.
    rewrite <- app_assoc. f_equal.
    + apply list_filter_iff. tauto.
    + rewrite (filter_none _ (last_by_key k (frame_records df))); [done|].
      intros r Hr Hnot. apply Hnot. by apply last_by_key_keys.
  - intros Hnd. rewrite H1, fmap_app. apply NoDup_app. split; [|split].
    + revert Hnd. generalize (table_rows a table).
      induction l as [|r l IH]; [done|]. rewrite fmap_cons.
      intros [Hr Hl]%NoDup_cons. rewrite filter_cons. case_decide.
      * rewrite fmap_cons. apply NoDup_cons. split; [|by apply IH].
        intros Hin. apply Hr.
        apply list_elem_of_fmap in Hin as (r' & E & Hr').
        apply list_elem_of_filter in Hr' as [_ Hr'].
        rewrite E. by apply list_elem_of_fmap_2.
      * by apply IH.
    + intros key Hin1 Hin2.
      apply list_elem_of_fmap in Hin1 as (r1 & -> & Hr1).
      apply list_elem_of_filter in Hr1 as [Hout _].
      apply list_elem_of_fmap in Hin2 as (r2 & E & Hr2).
      apply Hout. rewrite E. by apply last_by_key_keys.
    + apply last_by_key_NoDup.
Qed.

Lemma bulk_upsert_again_witness :
  let df := mkDataFrame ["codigo"; "descricao"]
              [ [Some (VStr "01"); Some (VStr "A")];
                [Some (VStr "02"); Some (VStr "B")];
                [Some (VStr "01"); Some (VStr "C")] ] in
  let a := mkAdapter false (fun _ => ["codigo"])
             {[ "motivos" := [ [("codigo", Some (VStr "02"));
                                ("descricao", Some (VStr "old"))];
                               [("codigo", Some (VStr "03"));
                                ("descricao", Some (VStr "kept"))] ] ]} [] in
  table_rows (bulk_upsert df "motivos" (bulk_upsert df "motivos" a)) "motivos"
  = [ [("codigo", Some (VStr "03")); ("descricao", Some (VStr "kept"))];
      [("codigo", Some (VStr "02")); ("descricao", Some (VStr "B"))];
      [("codigo", Some (VStr "01")); ("descricao", Some (VStr "C"))] ].
Proof.
  intros df a.
  destruct (bulk_upsert_again df "motivos" a) as (_ & H2 & _); [done|].
  rewrite H2. vm_compute. reflexivity.
Defined.

(** X19. A bulk upsert into a table without natural key replaces
    nothing: every row of the frame is added after the stored rows, so
    that the same bulk upsert done again stores every row twice. *)
Theorem bulk_upsert_without_key (df : DataFrame) (table : string)
    (a : SQLiteAdapter) :
  natural_key a table = [] →
  table_rows (bulk_upsert df table a) table
  = table_rows a table ++ frame_records df
  ∧ table_rows (bulk_upsert df table (bulk_upsert df table a)) table
    = table_rows a table ++ frame_records df ++ frame_records df.
Proof.
  intros Hk.
  assert (∀ t rs, foldl (insert_or_replace []) t rs = t ++ rs) as Hfold.
  { intros t rs. revert t. induction rs as [|r rs IH]; intros t.
    - by rewrite app_nil_r.
    - cbn [foldl]. rewrite IH. unfold insert_or_replace.
      by rewrite <- app_assoc. }
  assert (∀ a0, natural_key a0 table = [] →
            table_rows (bulk_upsert df table a0) table
            = table_rows a0 table ++ frame_records df) as Hone.
  { intros a0 H0. by rewrite table_rows_bulk_upsert, H0, Hfold. }
  split; [by apply Hone|].
  rewrite Hone by (by rewrite natural_key_bulk_upsert).
  by rewrite Hone, <- app_assoc.
Qed.

Lemma bulk_upsert_without_key_witness :
  let df := mkDataFrame ["codigo"; "descricao"]
              [[Some (VStr "01"); Some (VStr "A")]] in
  let a := mkAdapter false (fun _ => []) ∅ [] in
  length (table_rows (bulk_upsert df "motivos" (bulk_upsert df "motivos" a))
            "motivos") = 2.
Proof.
  intros df a.
  destruct (bulk_upsert_without_key df "motivos" a) as [_ H2]; [done|].
  rewrite H2. reflexivity.
Defined.

(** ** The file type of a name *)







(** ** The size of the converted copy *)

Lemma utf8_encode_char_length (c : Ascii.ascii) :
  String.length (utf8_encode_char c)
  = if (Ascii.N_of_ascii c <? 128)%N then 1 else 2.
Proof. unfold utf8_encode_char. by case_match. Qed.

Lemma str_app_length (a b : string) :
  String.length (a +:+ b) = String.length a + String.length b.
Proof.
  induction a as [|x a IH]; [done|].
  change (String x a +:+ b) with (String x (a +:+ b)). simpl. by rewrite IH.
Qed.

(** X21. The converted copy is as long as the text read plus one byte
    for every byte of the text that is not below 128, which is written
    as two bytes: it is never shorter than the text and at most twice
    as long, and a text of bytes below 128 only is written unchanged. *)
Theorem utf8_encode_size (s : string) :
  String.length (utf8_encode s) = String.length s + count_high s
  ∧ count_high s ≤ String.length s
  ∧ (count_high s = 0 → utf8_encode s = s).
Proof.
  induction s as [|c s (IH1 & IH2 & IH3)]; [by simpl|].
  cbn [utf8_encode count_high]. rewrite str_app_length, utf8_encode_char_length.
  cbn [String.length]. unfold utf8_encode_char.
  destruct (Ascii.N_of_ascii c <? 128)%N eqn:E.
  - repeat split; try lia.
    intros Hall.
    change (String c EmptyString +:+ utf8_encode s)
      with (String c (utf8_encode s)).
    f_equal. apply IH3. lia.
  - repeat split; lia.
Qed.

(** ** Line ends of the converted copy *)

Lemma count_char_app (c : Ascii.ascii) (a b : string) :
  count_char c (a +:+ b) = count_char c a + count_char c b.
Proof.
  induction a as [|x a IH]; [done|].
  change (String x a +:+ b) with (String x (a +:+ b)).
  cbn [count_char]. rewrite IH. lia.
Qed.

Lemma utf8_encode_char_CR (c : Ascii.ascii) :
  count_char CR (utf8_encode_char c) = if decide (c = CR) then 1 else 0.
Proof. destruct c as [[] [] [] [] [] [] [] []]; reflexivity. Qed.

Lemma utf8_encode_CR (s : string) :
  count_char CR (utf8_encode s) = count_char CR s.
Proof.
  induction s as [|c s IH]; [done|].
  cbn [utf8_encode count_char].
  by rewrite count_char_app, utf8_encode_char_CR, IH.
Qed.

Lemma universal_newlines_bounded (n : nat) (s : string) :
  String.length s ≤ n →
  count_char CR (universal_newlines s) = 0
  ∧ String.length (universal_newlines s) ≤ String.length s
  ∧ (count_char CR s = 0 → universal_newlines s = s).
Proof.
  revert s. induction n as [|n IH]; intros s Hn.
  - destruct s; [done|simpl in Hn; lia].
  - destruct s as [|c s]; [done|].
    simpl in Hn. cbn [universal_newlines].
    destruct (decide (c = CR)) as [->|Hc].
    + destruct s as [|c' s'].
      * split; [done|]. split; [done|]. intros H. simpl in H. lia.
      * simpl in Hn. destruct (decide (c' = LF)) as [->|Hc'].
        -- destruct (IH s' ltac:(lia)) as (H1 & H2 & _).
           cbn [count_char String.length]. rewrite H1.
           split; [done|]. split; [lia|].
           rewrite decide_True by done. lia.
        -- destruct (IH (String c' s') ltac:(simpl; lia)) as (H1 & H2 & _).
           cbn [count_char String.length] in *. rewrite H1.
           split; [done|]. split; [lia|].
           rewrite (decide_True (P := CR = CR)) by done. lia.
    + destruct (IH s ltac:(lia)) as (H1 & H2 & H3).
      cbn [count_char String.length]. rewrite H1.
      rewrite !decide_False by done.
      split; [done|]. split; [lia|]. intros H. f_equal. apply H3. lia.
Qed.

(** X23. The converted copy holds no carriage return: the text is read
    with every [\r\n] and every lone [\r] turned into [\n], so that the
    copy is at most as long in characters as the input, and an input
    without carriage return is read as it is. *)
Theorem converted_copy_line_ends (content : string) :
  count_char CR (utf8_encode (universal_newlines content)) = 0
  ∧ String.length (universal_newlines content) ≤ String.length content
  ∧ (count_char CR content = 0 → universal_newlines content = content).
Proof.
  destruct (universal_newlines_bounded (String.length content) content)
    as (H1 & H2 & H3); [done|].
  by rewrite utf8_encode_CR.
Qed.

(** ** The width of a padded country code *)




